(** * Action models of subiquity: network actions, storage actions and the
    preserve/release transforms of [subiquity/models/actions.py].

    The development has three parts.
    - [Py]: the Python values the module handles and the builtins it calls
      ([str], [int], [len], truth value, [==], [in], [str.startswith],
      slicing, [str.format] with bare fields).
    - [Net] and [Storage]: the classes of the module.  A constructor is a
      function into [result]; the network constructors pass the instance
      dictionary [self.__dict__] explicitly as state.
    - [Store]: a heap of mutable lists and dicts with [copy.deepcopy],
      on which [preserve_action] and [release_action] run; [reify] reads a
      heap value back as a Python value of [Py].

    Modelling conventions.  A Python [str] is a Rocq [string] (code points
    below 256).  Integers are unbounded ([Z]).  A float is a value that is
    never rendered: an identifier or a number the module turns into text
    is an atom ([None], a bool, an int or a string).  Dict keys are
    strings.  The instance dictionary of a network action is a value, so
    the option values are taken to share no mutable object with one
    another.  A method is called through the instance: an attribute named
    [get] hides [NetAction.get].  [DiskAction.get_parent] is the attribute
    [parent].  [DiskAction.dump] (the YAML rendering of [get]) and the
    widget of [ui/lists.py] are outside the model. *)

From Stdlib Require Import ZArith DecimalString DecimalZ DecimalPos Ascii.
From stdpp Require Import gmap strings list.

Set Warnings "-register-all".

(** ** Exceptions and fallible results *)

Inductive exn : Type :=
| AttributeError
| TypeError
| ValueError
| OverflowError
| KeyError
| Exception (msg : string).

Inductive result (A : Type) : Type :=
| Ok (a : A)
| Raise (e : exn).
Arguments Ok {A} a.
Arguments Raise {A} e.

#[global] Instance result_ret : MRet result := λ A a, Ok a.

#[global] Instance result_bind : MBind result := λ A B f r,
  match r with
  | Ok a => f a
  | Raise e => Raise e
  end.

Definition raised {A} (r : result A) : Prop :=
  match r with Ok _ => False | Raise _ => True end.

(** ** Python values *)

Module Py.

Inductive atom : Type :=
| ANone
| ABool (b : bool)
| AInt (z : Z)
| AStr (s : string).

(** A float.  Every double is a binary fraction [m * 2^e], an infinity or
    a NaN.  A float is not an atom: where the module renders an argument
    with [str] (an action_id, a bcache_num) the model takes an atom.  Of a
    float the module takes the integer part or the truth value, or compares
    it. *)
Inductive float : Type :=
| FFinite (m e : Z)
| FInf (negative : bool)
| FNaN.

Inductive value : Type :=
| VAtom (a : atom)
| VList (xs : list value)
| VDict (kvs : list (string * value))
| VFloat (f : float).

Coercion VAtom : atom >-> value.

Abbreviation VNone := (VAtom ANone).
Abbreviation VBool b := (VAtom (ABool b)).
Abbreviation VInt z := (VAtom (AInt z)).
Abbreviation VStr s := (VAtom (AStr s)).

(** An insertion-ordered dict with string keys. *)
Abbreviation dict := (list (string * value)).

#[global] Instance atom_eq_dec : EqDecision atom.
Proof. solve_decision. Defined.

(** *** Ordered dicts *)

Section dicts.
Context {V : Type}.

Fixpoint dict_get (k : string) (d : list (string * V)) : option V :=
  match d with
  | [] => None
  | (k', v) :: d' => if String.eqb k k' then Some v else dict_get k d'
  end.

Definition dict_has (k : string) (d : list (string * V)) : bool :=
  match dict_get k d with Some _ => true | None => false end.

(** [d[k] = v]: overwrite in place, or append a new item. *)
Fixpoint dict_set (k : string) (v : V) (d : list (string * V))
  : list (string * V) :=
  match d with
  | [] => [(k, v)]
  | (k', v') :: d' =>
      if String.eqb k k' then (k', v) :: d' else (k', v') :: dict_set k v d'
  end.

(** [del d[k]] (the caller has checked that the key is there). *)
Fixpoint dict_del (k : string) (d : list (string * V))
  : list (string * V) :=
  match d with
  | [] => []
  | (k', v') :: d' =>
      if String.eqb k k' then d' else (k', v') :: dict_del k d'
  end.

(** [d.update(e)] *)
Definition dict_update (d e : list (string * V)) : list (string * V) :=
  fold_left (λ acc kv, dict_set kv.1 kv.2 acc) e d.

Definition dict_keys (d : list (string * V)) : list string := d.*1.
End dicts.

(** *** Builtins *)

(** [str(z)] for an int. *)
Definition str_of_int (z : Z) : string := NilZero.string_of_int (Z.to_int z).

(** [str(a)] *)
Definition py_str (a : atom) : string :=
  match a with
  | ANone => "None"
  | ABool true => "True"
  | ABool false => "False"
  | AInt z => str_of_int z
  | AStr s => s
  end.

(** ["{}".format(a)] renders like [str(a)]. *)
Definition fmt (a : atom) : string := py_str a.

(** [s[:n]] *)
Fixpoint str_take (n : nat) (s : string) : string :=
  match n, s with
  | S n', String c s' => String c (str_take n' s')
  | _, _ => ""
  end.

(** [s.startswith(p)] *)
Definition startswith (s p : string) : bool := String.prefix p s.

(** [p in s] for two strings *)
Fixpoint str_contains (s p : string) : bool :=
  String.prefix p s ||
  match s with
  | String _ s' => str_contains s' p
  | EmptyString => false
  end.

(** The characters [int()] strips around a literal: tab, line feed,
    vertical tab, form feed, carriage return and space, and the blanks
    U+0085 and U+00A0. *)
Definition is_space (c : ascii) : bool :=
  let n := nat_of_ascii c in
  ((9 <=? n) && (n <=? 13) || (n =? 32) || (n =? 133) || (n =? 160))%nat.

Definition digit_of (c : ascii) : option Z :=
  let n := nat_of_ascii c in
  if ((48 <=? n) && (n <=? 57))%nat then Some (Z.of_nat (n - 48)) else None.

Fixpoint lstrip (s : list ascii) : list ascii :=
  match s with
  | c :: s' => if is_space c then lstrip s' else s
  | [] => []
  end.

Definition strip (s : list ascii) : list ascii :=
  rev (lstrip (rev (lstrip s))).

(** Digits with single underscores between them; [prev] tells whether the
    previous character was a digit. *)
Fixpoint digits (acc : Z) (prev : bool) (s : list ascii) : option Z :=
  match s with
  | [] => if prev then Some acc else None
  | c :: s' =>
      match digit_of c with
      | Some d => digits (10 * acc + d) true s'
      | None =>
          if Ascii.eqb c "_" && prev then digits acc false s' else None
      end
  end.

(** [int(s)] for a string, base 10. *)
Definition int_of_str (s : string) : option Z :=
  match strip (String.list_ascii_of_string s) with
  | c :: s' =>
      if Ascii.eqb c "-" then Z.opp <$> digits 0 false s'
      else if Ascii.eqb c "+" then digits 0 false s'
      else digits 0 false (c :: s')
  | [] => None
  end.

(** [int(f)] for a float: the integer part, towards zero. *)
Definition int_of_float (f : float) : result Z :=
  match f with
  | FFinite m e =>
      Ok (if (0 <=? e)%Z then m * 2 ^ e else Z.quot m (2 ^ (- e)))%Z
  | FInf _ => Raise OverflowError
  | FNaN => Raise ValueError
  end.

(** [int(v)] *)
Definition py_int (v : value) : result Z :=
  match v with
  | VAtom (AInt z) => Ok z
  | VAtom (ABool b) => Ok (if b then 1 else 0)%Z
  | VAtom (AStr s) =>
      match int_of_str s with
      | Some z => Ok z
      | None => Raise ValueError
      end
  | VFloat f => int_of_float f
  | VAtom ANone | VList _ | VDict _ => Raise TypeError
  end.

(** [len(v)] *)
Definition py_len (v : value) : result nat :=
  match v with
  | VAtom (AStr s) => Ok (String.length s)
  | VList xs => Ok (length xs)
  | VDict kvs => Ok (length kvs)
  | VAtom _ | VFloat _ => Raise TypeError
  end.

(** The truth value of [v], as tested by [if v:]. *)
Definition truthy (v : value) : bool :=
  match v with
  | VAtom ANone => false
  | VAtom (ABool b) => b
  | VAtom (AInt z) => negb (z =? 0)%Z
  | VAtom (AStr s) => negb (String.eqb s "")
  | VList xs => match xs with [] => false | _ => true end
  | VDict kvs => match kvs with [] => false | _ => true end
  | VFloat (FFinite m _) => negb (m =? 0)%Z
  | VFloat _ => true
  end.

(** [a == b] on atoms: bools compare as the ints 0 and 1. *)
Definition atom_eqb (a b : atom) : bool :=
  match a, b with
  | ANone, ANone => true
  | AStr s, AStr t => String.eqb s t
  | ABool x, ABool y => Bool.eqb x y
  | AInt x, AInt y => (x =? y)%Z
  | ABool x, AInt y | AInt y, ABool x => ((if x then 1 else 0) =? y)%Z
  | _, _ => false
  end.

(** [f == z] for a float and an int: the two numbers are compared
    exactly. *)
Definition float_eq_int (f : float) (z : Z) : bool :=
  match f with
  | FFinite m e =>
      if (0 <=? e)%Z then (m * 2 ^ e =? z)%Z else (m =? z * 2 ^ (- e))%Z
  | _ => false
  end.

(** [f == g] for two floats; a NaN equals nothing. *)
Definition float_eqb (f g : float) : bool :=
  match f, g with
  | FFinite m e, FFinite m' e' =>
      let k := Z.min e e' in (m * 2 ^ (e - k) =? m' * 2 ^ (e' - k))%Z
  | FInf a, FInf b => Bool.eqb a b
  | _, _ => false
  end.

(** [a == b]: lists compare item by item, dicts key by key whatever the
    order of insertion; numbers compare by value. *)
Fixpoint value_eqb (a b : value) {struct a} : bool :=
  match a, b with
  | VAtom x, VAtom y => atom_eqb x y
  | VList xs, VList ys =>
      (fix go (xs ys : list value) : bool :=
         match xs, ys with
         | [], [] => true
         | x :: xs', y :: ys' => value_eqb x y && go xs' ys'
         | _, _ => false
         end) xs ys
  | VDict d, VDict e =>
      (length d =? length e)%nat &&
      (fix go (d : list (string * value)) : bool :=
         match d with
         | [] => true
         | (k, v) :: d' =>
             match dict_get k e with
             | Some w => value_eqb v w
             | None => false
             end && go d'
         end) d
  | VFloat f, VFloat g => float_eqb f g
  | VFloat f, VAtom (AInt z) | VAtom (AInt z), VFloat f => float_eq_int f z
  | VFloat f, VAtom (ABool b) | VAtom (ABool b), VFloat f =>
      float_eq_int f (if b then 1 else 0)
  | _, _ => false
  end.

(** [x in c] *)
Definition py_in (x c : value) : result bool :=
  match c with
  | VList xs => Ok (existsb (value_eqb x) xs)
  | VDict kvs =>
      match x with
      | VAtom (AStr k) => Ok (dict_has k kvs)
      | VAtom _ | VFloat _ => Ok false
      | VList _ | VDict _ => Raise TypeError
      end
  | VAtom (AStr s) =>
      match x with
      | VAtom (AStr p) => Ok (str_contains s p)
      | _ => Raise TypeError
      end
  | VAtom _ | VFloat _ => Raise TypeError
  end.

End Py.
Import Py.

(** ** Network actions *)

Module Net.

(** A computation on the instance dictionary [self.__dict__]: it returns a
    result or raises, and leaves the dictionary in its new state. *)
Definition init (A : Type) : Type := dict → result A * dict.

#[global] Instance init_ret : MRet init := λ A a self, (Ok a, self).

#[global] Instance init_bind : MBind init := λ A B k c self,
  match c self with
  | (Ok a, self) => k a self
  | (Raise e, self) => (Raise e, self)
  end.

(** [setattr(self, k, v)] on an instance of a class without slots.  Three
    names are descriptors of the instance and not entries of its
    dictionary: [__class__] can only be given a class, and no value of [Py]
    is one; [__weakref__] cannot be written; [__dict__] takes a dict, which
    becomes the instance dictionary, and nothing else.  Every other name is
    an entry of the dictionary.  (The dict given as [__dict__] is taken to
    be held by no other option.) *)
Definition setattr (k : string) (v : value) : init unit := λ self,
  if String.eqb k "__class__" then (Raise TypeError, self)
  else if String.eqb k "__weakref__" then (Raise AttributeError, self)
  else if String.eqb k "__dict__" then
    match v with
    | VDict d => (Ok (), d)
    | _ => (Raise TypeError, self)
    end
  else (Ok (), dict_set k v self).

(** [self.k] for a name that is an entry of the dictionary. *)
Definition getattr (k : string) (self : dict) : result value :=
  match dict_get k self with
  | Some v => Ok v
  | None => Raise AttributeError
  end.

(** The loop [for k, v in options.items(): setattr(self, k, v)] *)
Fixpoint setattrs (options : dict) : init unit :=
  match options with
  | [] => mret ()
  | (k, v) :: rest => _ ← setattr k v; setattrs rest
  end.

(** The body of [NetAction.__init__] *)
Definition NetAction_init (options : dict) : init unit :=
  _ ← setattrs options;
  setattr "_action_keys"
    (VList [VStr "type"; VStr "name"; VStr "params"; VStr "subnets"]).

(** The call [f(self, ** options)] of an initializer, whose only
    parameter beside the keywords is [self]: a keyword named self is a
    second value for that parameter, and the call raises before the body
    runs. *)
Definition call (f : dict → init unit) (options : dict) : init unit :=
  λ self,
  if dict_has "self" options then (Raise TypeError, self)
  else f options self.

(** [self._action_keys.extend(ks)] *)
Definition extend_action_keys (ks : list string) : init unit := λ self,
  match dict_get "_action_keys" self with
  | Some (VList l) =>
      (Ok (),
       dict_set "_action_keys" (VList (l ++ ((λ k : string, VStr k) <$> ks)))
         self)
  | _ => (Raise AttributeError, self)
  end.

(** The loop of the dict comprehension of [NetAction.get]; the condition
    reads [self._action_keys] for every item. *)
Fixpoint get_loop (self items action : dict) : result dict :=
  match items with
  | [] => Ok action
  | (k, v) :: rest =>
      keys ← getattr "_action_keys" self;
      b ← py_in (VStr k) keys;
      get_loop self rest (if b : bool then dict_set k v action else action)
  end.

(** The body of [NetAction.get] *)
Definition get (self : dict) : result dict := get_loop self self [].

(** The call [self.get()].  An entry named get of the instance dictionary
    hides the method, and no value of [Py] can be called. *)
Definition call_get (self : dict) : result dict :=
  if dict_has "get" self then Raise TypeError else get self.

(** ['type' not in options or options['type'] != tag] *)
Definition type_invalid (tag : string) (options : dict) : bool :=
  match dict_get "type" options with
  | None => true
  | Some v => negb (value_eqb v (VStr tag))
  end.

(** ['name' not in options or len(options['name']) == 0] *)
Definition name_invalid (options : dict) : result bool :=
  match dict_get "name" options with
  | None => Ok true
  | Some v => n ← py_len v; mret (n =? 0)%nat
  end.

(** The body of [PhysicalAction.__init__]; [cls] is
    [self.__class__.__name__]. *)
Definition PhysicalAction_init (cls : string) (options : dict) : init unit :=
  λ self,
  if type_invalid "physical" options then
    (Raise (Exception ("Invalid type for " +:+ cls)), self)
  else match name_invalid options with
  | Raise e => (Raise e, self)
  | Ok true => (Raise (Exception ("Invalid name for " +:+ cls)), self)
  | Ok false =>
      if negb (dict_has "mac_address" options) then
        (Raise (Exception (cls +:+ " requires a valid mac_address attr")), self)
      else
        (_ ← call NetAction_init options;
         extend_action_keys ["mac_address"]) self
  end.

(** The body of [BridgeAction.__init__] *)
Definition BridgeAction_init (cls : string) (options : dict) : init unit :=
  λ self,
  if type_invalid "bridge" options then
    (Raise (Exception ("Invalid type for " +:+ cls)), self)
  else match name_invalid options with
  | Raise e => (Raise e, self)
  | Ok true => (Raise (Exception ("Invalid name for " +:+ cls)), self)
  | Ok false =>
      if negb (dict_has "bridge_interfaces" options) then
        (Raise (Exception (cls +:+ " requires bridge_interfaces attr")), self)
      else
        (_ ← call NetAction_init options;
         extend_action_keys ["bridge_interfaces"]) self
  end.

(** The body of [VlanAction.__init__] *)
Definition VlanAction_init (cls : string) (options : dict) : init unit :=
  λ self,
  if type_invalid "vlan" options then
    (Raise (Exception ("Invalid type for " +:+ cls)), self)
  else match name_invalid options with
  | Raise e => (Raise e, self)
  | Ok true => (Raise (Exception ("Invalid name for " +:+ cls)), self)
  | Ok false =>
      if negb (dict_has "vlan_id" options)
         || negb (dict_has "vlan_link" options) then
        (Raise (Exception (cls +:+ " requires vlan_id and vlan_link attr")),
         self)
      else
        (_ ← call NetAction_init options;
         extend_action_keys ["vlan_id"; "vlan_link"]) self
  end.

(** The body of [BondAction.__init__] *)
Definition BondAction_init (cls : string) (options : dict) : init unit :=
  λ self,
  if type_invalid "bond" options then
    (Raise (Exception ("Invalid type for " +:+ cls)), self)
  else match name_invalid options with
  | Raise e => (Raise e, self)
  | Ok true => (Raise (Exception ("Invalid name for " +:+ cls)), self)
  | Ok false =>
      if negb (dict_has "bond_interfaces" options) then
        (Raise (Exception (cls +:+ " requires bond_interfaces attr")), self)
      else
        (_ ← call NetAction_init options;
         extend_action_keys ["bond_interfaces"]) self
  end.

(** The four variants, what each declares, and the constructor call of a
    variant with the keyword arguments [options] on an instance whose
    dictionary is [self]. *)
Inductive variant : Type := Physical | Bridge | Vlan | Bond.

Definition class_name (v : variant) : string :=
  match v with
  | Physical => "PhysicalAction"
  | Bridge => "BridgeAction"
  | Vlan => "VlanAction"
  | Bond => "BondAction"
  end.

Definition type_tag (v : variant) : string :=
  match v with
  | Physical => "physical"
  | Bridge => "bridge"
  | Vlan => "vlan"
  | Bond => "bond"
  end.

Definition required (v : variant) : list string :=
  match v with
  | Physical => ["mac_address"]
  | Bridge => ["bridge_interfaces"]
  | Vlan => ["vlan_id"; "vlan_link"]
  | Bond => ["bond_interfaces"]
  end.

Definition declared_keys (v : variant) : list string :=
  ["type"; "name"; "params"; "subnets"] ++ required v.

Definition construct (v : variant) (options : dict) : init unit :=
  match v with
  | Physical => call (PhysicalAction_init (class_name v)) options
  | Bridge => call (BridgeAction_init (class_name v)) options
  | Vlan => call (VlanAction_init (class_name v)) options
  | Bond => call (BondAction_init (class_name v)) options
  end.

(** The constructor call of the base class [NetAction] itself. *)
Definition NetAction (options : dict) : init unit :=
  call NetAction_init options.

End Net.

(** ** Storage actions *)

Module Storage.

(** An instance of a storage class.  Every class stores [_action_id]; the
    classes with a parent keep the reference they were given.  [pyobj] is
    what a caller can pass where a node is expected: a storage action, or a
    plain value ([None], a string, ...), which has no attribute
    [action_id] and no attribute [parent]. *)
Inductive storage : Type :=
| Disk (_action_id : atom) (_ptable _model _serial _wipe : value)
| Partition (parent : pyobj) (partnum _offset _size : Z) (flags : value)
    (_action_id : atom)
| Bcache (bcachenum : Z) (backing_device cache_device : string)
    (_action_id : atom)
| Format (parent : pyobj) (_fstype : value) (_action_id : atom)
| Mount (parent : pyobj) (_path : value) (_action_id : atom)
with pyobj : Type :=
| ObjValue (v : value)
| ObjAction (a : storage).

Definition _action_id (self : storage) : atom :=
  match self with
  | Disk i _ _ _ _ | Partition _ _ _ _ _ i | Bcache _ _ _ i
  | Format _ _ i | Mount _ _ i => i
  end.

(** The property [DiskAction.action_id], inherited by every class. *)
Definition action_id (self : storage) : string := py_str (_action_id self).

(** The attribute [self.parent] *)
Definition parent (self : storage) : pyobj :=
  match self with
  | Disk _ _ _ _ _ | Bcache _ _ _ _ => ObjValue VNone
  | Partition p _ _ _ _ _ | Format p _ _ | Mount p _ _ => p
  end.

(** [o.action_id] *)
Definition get_action_id (o : pyobj) : result string :=
  match o with
  | ObjAction a => Ok (action_id a)
  | ObjValue _ => Raise AttributeError
  end.

(** [o.parent] *)
Definition get_parent (o : pyobj) : result pyobj :=
  match o with
  | ObjAction a => Ok (parent a)
  | ObjValue _ => Raise AttributeError
  end.

(** [DiskAction(action_id, model, serial, ptable='gpt', wipe=None)]; an
    omitted keyword argument is [None] here. *)
Definition DiskAction (action_id : atom) (model serial : value)
    (ptable wipe : option value) : result storage :=
  Ok (Disk action_id (default (VStr "gpt") ptable) model serial
        (default VNone wipe)).

(** [PartitionAction(parent, partnum, offset, size, flags=None)] *)
Definition PartitionAction (parent : pyobj) (partnum offset size : value)
    (flags : option value) : result storage :=
  let flags := default VNone flags in
  partnum ← py_int partnum;
  _offset ← py_int offset;
  _size ← py_int size;
  pid ← get_action_id parent;
  let _action_id := pid +:+ fmt (AInt partnum) +:+ "_part" in
  grub ← py_in flags (VList [VStr "bios_grub"]);
  let _action_id :=
    if grub : bool then "bios_boot_partition" else _action_id in
  mret (Partition parent partnum _offset _size flags (AStr _action_id)).

(** [BcacheAction(backing_id, cache_id, bcache_num)] *)
Definition BcacheAction (backing_id cache_id : pyobj) (bcache_num : atom)
    : result storage :=
  bcachenum ← py_int (VAtom bcache_num);
  bp ← get_parent backing_id;
  backing_device ← get_action_id bp;
  cp ← get_parent cache_id;
  cache_device ← get_action_id cp;
  mret (Bcache bcachenum backing_device cache_device
          (AStr ("bcache" +:+ py_str bcache_num))).

(** [FormatAction(parent, fstype)] *)
Definition FormatAction (parent : pyobj) (fstype : value) : result storage :=
  pid ← get_action_id parent;
  let _action_id := pid +:+ "_fmt" in
  match fstype with
  | VAtom (AStr f) =>
      if startswith f "fat" then
        mret (Format parent fstype (AStr (str_take 11 _action_id)))
      else if startswith f "linux-swap" then
        mret (Format parent (VStr "swap") (AStr _action_id))
      else
        mret (Format parent fstype (AStr _action_id))
  | _ => Raise AttributeError
  end.

(** [MountAction(parent, path)] *)
Definition MountAction (parent : pyobj) (path : value) : result storage :=
  pid ← get_action_id parent;
  mret (Mount parent path (AStr (pid +:+ "_mnt"))).

(** [self.get()], the serialization of each class. *)
Definition get (self : storage) : result dict :=
  match self with
  | Disk _ _ptable _model _serial _wipe =>
      let action :=
        [("id", VStr (action_id self)); ("model", _model);
         ("ptable", _ptable); ("serial", _serial); ("type", VStr "disk")] in
      mret (if truthy _wipe then dict_update action [("wipe", _wipe)]
            else action)
  | Partition parent partnum _offset _size flags _ =>
      device ← get_action_id parent;
      mret [("device", VStr device); ("flag", flags);
            ("id", VStr (action_id self)); ("number", VInt partnum);
            ("size", VStr (fmt (AInt _size) +:+ "B"));
            ("offset", VStr (fmt (AInt _offset) +:+ "B"));
            ("type", VStr "partition")]
  | Bcache _ backing_device cache_device _ =>
      mret [("backing_device", VStr backing_device);
            ("cache_device", VStr cache_device);
            ("id", VStr (action_id self)); ("type", VStr "bcache")]
  | Format parent _fstype _ =>
      volume ← get_action_id parent;
      mret [("volume", VStr volume); ("id", VStr (action_id self));
            ("fstype", _fstype); ("type", VStr "format")]
  | Mount parent _path _ =>
      device ← get_action_id parent;
      mret [("device", VStr device); ("id", VStr (action_id self));
            ("path", _path); ("type", VStr "mount")]
  end.

(** The property [path]: of a Partition, the id of its parent followed by
    its number; of a Mount, the path it was given.  The other classes have
    no such attribute. *)
Definition path (self : storage) : result value :=
  match self with
  | Partition parent partnum _ _ _ _ =>
      pid ← get_action_id parent;
      mret (VStr (pid +:+ fmt (AInt partnum)))
  | Mount _ _path _ => Ok _path
  | Disk _ _ _ _ _ | Bcache _ _ _ _ | Format _ _ _ => Raise AttributeError
  end.

(** The properties [size] and [offset] of a Partition. *)
Definition size (self : storage) : result Z :=
  match self with
  | Partition _ _ _ _size _ _ => Ok _size
  | _ => Raise AttributeError
  end.

Definition offset (self : storage) : result Z :=
  match self with
  | Partition _ _ _offset _ _ _ => Ok _offset
  | _ => Raise AttributeError
  end.

(** The property [fstype] of a Format. *)
Definition fstype (self : storage) : result value :=
  match self with
  | Format _ _fstype _ => Ok _fstype
  | _ => Raise AttributeError
  end.

End Storage.

(** ** The object store and the transforms *)

Module Store.

Definition loc : Type := positive.

(** A value as the interpreter holds it: an immutable atom, or a reference
    to a mutable list or dict of the heap. *)
Inductive hval : Type :=
| HAtom (a : atom)
| HRef (l : loc).

Inductive obj : Type :=
| OList (xs : list hval)
| ODict (kvs : list (string * hval)).

Abbreviation heap := (gmap loc obj).

(** The memo of [copy.deepcopy]: the identity of an object already met,
    and the copy made of it. *)
Abbreviation memo := (gmap loc loc).

(** A computation on the heap: a result or an exception, with the new
    heap.  [None] is a computation that cannot proceed (a reference to no
    object, or no fuel left). *)
Definition M (A : Type) : Type := heap → option (result A * heap).

#[global] Instance M_ret : MRet M := λ A a h, Some (Ok a, h).

#[global] Instance M_bind : MBind M := λ A B k c h,
  match c h with
  | Some (Ok a, h') => k a h'
  | Some (Raise e, h') => Some (Raise e, h')
  | None => None
  end.

(** [y.append(v)] *)
Definition append (v : hval) (o : obj) : option obj :=
  match o with
  | OList ys => Some (OList (ys ++ [v]))
  | ODict _ => None
  end.

(** [y[k] = v] for a dict [y] *)
Definition setitem (k : string) (v : hval) (o : obj) : option obj :=
  match o with
  | ODict kvs => Some (ODict (dict_set k v kvs))
  | OList _ => None
  end.

Section copy_loop.
Context {A : Type}.
(** The copier for the items, and the way an item is put into the copy. *)
Variable deepcopy : hval → memo → heap → option (hval * memo * heap).
Variable put : A → hval → obj → option obj.

(** The loop of [_deepcopy_list] and [_deepcopy_dict]: copy each item and
    put the copy into the object at [y]. *)
Fixpoint copy_loop (y : loc) (items : list (A * hval)) (m : memo) (h : heap)
  : option (memo * heap) :=
  match items with
  | [] => Some (m, h)
  | (k, a) :: rest =>
      '(a', m, h) ← deepcopy a m h;
      o ← h !! y;
      o' ← put k a' o;
      copy_loop y rest m (<[y := o']> h)
  end.
End copy_loop.

(** [copy.deepcopy(x, memo)].  An atom is its own copy.  An object found in
    the memo is not copied again.  Otherwise an empty list or dict [y] is
    created and entered in the memo, and the items are copied into it.
    [fuel] bounds the nesting of the calls. *)
Fixpoint deepcopy (fuel : nat) (x : hval) (m : memo) (h : heap)
  : option (hval * memo * heap) :=
  match x with
  | HAtom _ => Some (x, m, h)
  | HRef l =>
      match m !! l with
      | Some y => Some (HRef y, m, h)
      | None =>
          match fuel with
          | 0 => None
          | S fuel =>
              o ← h !! l;
              let y := fresh (dom h) in
              match o with
              | OList xs =>
                  '(m, h) ← copy_loop (deepcopy fuel) (λ _ : unit, append) y
                            ((λ a, ((), a)) <$> xs)
                            (<[l := y]> m) (<[y := OList []]> h);
                  Some (HRef y, m, h)
              | ODict kvs =>
                  '(m, h) ← copy_loop (deepcopy fuel) setitem y kvs
                            (<[l := y]> m) (<[y := ODict []]> h);
                  Some (HRef y, m, h)
              end
          end
      end
  end.

(** [copy.deepcopy(x)]: a fresh memo; no chain of calls is longer than
    the number of objects. *)
Definition copy_deepcopy (x : hval) : M hval := λ h,
  '(y, _, h') ← deepcopy (size h) x ∅ h;
  Some (Ok y, h').

(** [a.update(e)] *)
Definition update (a : hval) (e : list (string * hval)) : M unit := λ h,
  match a with
  | HRef l =>
      match h !! l with
      | Some (ODict kvs) => Some (Ok (), <[l := ODict (dict_update kvs e)]> h)
      | Some (OList _) => Some (Raise AttributeError, h)
      | None => None
      end
  | HAtom _ => Some (Raise AttributeError, h)
  end.

(** [k in a] for a string [k] *)
Definition contains (k : string) (a : hval) : M bool := λ h,
  match a with
  | HRef l =>
      match h !! l with
      | Some (ODict kvs) => Some (Ok (dict_has k kvs), h)
      | Some (OList xs) =>
          Some (Ok (existsb (λ x, match x with
                                  | HAtom b => atom_eqb (AStr k) b
                                  | HRef _ => false
                                  end) xs), h)
      | None => None
      end
  | HAtom (AStr s) => Some (Ok (str_contains s k), h)
  | HAtom _ => Some (Raise TypeError, h)
  end.

(** [del a[k]] for a string [k] *)
Definition delitem (a : hval) (k : string) : M unit := λ h,
  match a with
  | HRef l =>
      match h !! l with
      | Some (ODict kvs) =>
          if dict_has k kvs then Some (Ok (), <[l := ODict (dict_del k kvs)]> h)
          else Some (Raise KeyError, h)
      | Some (OList _) => Some (Raise TypeError, h)
      | None => None
      end
  | HAtom _ => Some (Raise TypeError, h)
  end.

(** [preserve_action(action)] *)
Definition preserve_action (action : hval) : M hval :=
  a ← copy_deepcopy action;
  _ ← update a [("preserve", HAtom (ABool true))];
  mret a.

(** [release_action(action)] *)
Definition release_action (action : hval) : M hval :=
  a ← copy_deepcopy action;
  b ← contains "preserve" action;
  _ ← (if b : bool then delitem a "preserve" else mret ());
  mret a.

(** [f] on the value of an item. *)
Definition item_map {A B} (f : A → option B) (kv : string * A)
    : option (string * B) :=
  pair kv.1 <$> f kv.2.

(** The Python value a heap value stands for, when it is finite; [fuel]
    bounds the depth. *)
Fixpoint reify (fuel : nat) (h : heap) (x : hval) : option value :=
  match x with
  | HAtom a => Some (VAtom a)
  | HRef l =>
      match fuel with
      | 0 => None
      | S fuel =>
          match h !! l with
          | Some (OList xs) => VList <$> mapM (reify fuel h) xs
          | Some (ODict kvs) =>
              VDict <$> mapM (item_map (reify fuel h)) kvs
          | None => None
          end
      end
  end.

(** [a == b] for two finite heap values. *)
Definition py_eq (fuel : nat) (h : heap) (a b : hval) : option bool :=
  va ← reify fuel h a; vb ← reify fuel h b; Some (value_eqb va vb).

(** *** Well-formed heaps, and what a copy is *)

(** [x] refers to an object of [D], if to any. *)
Definition val_in (D : gset loc) (x : hval) : Prop :=
  match x with HRef l => l ∈ D | HAtom _ => True end.

Definition obj_vals (o : obj) : list hval :=
  match o with OList xs => xs | ODict kvs => kvs.*2 end.

(** The references of [o] lead into [D], and a dict has no key twice. *)
Definition obj_wf (D : gset loc) (o : obj) : Prop :=
  Forall (val_in D) (obj_vals o) ∧
  match o with ODict kvs => NoDup (dict_keys kvs) | OList _ => True end.

(** No reference of the heap leads out of it. *)
Definition heap_wf (h : heap) : Prop :=
  map_Forall (λ _ o, obj_wf (dom h) o) h.

#[global] Instance val_in_dec D x : Decision (val_in D x).
Proof. destruct x; simpl; apply _. Defined.

#[global] Instance obj_wf_dec D o : Decision (obj_wf D o).
Proof. unfold obj_wf. destruct o; apply _. Defined.

#[global] Instance heap_wf_dec h : Decision (heap_wf h).
Proof. unfold heap_wf. apply _. Defined.

(** [x] with every reference replaced by the copy the memo holds. *)
Definition rename (m : memo) (x : hval) : hval :=
  match x with
  | HRef l => match m !! l with Some y => HRef y | None => x end
  | HAtom _ => x
  end.

Definition rename_obj (m : memo) (o : obj) : obj :=
  match o with
  | OList xs => OList (rename m <$> xs)
  | ODict kvs => ODict (prod_map id (rename m) <$> kvs)
  end.

(** [h'] holds, at the images of [m], the renamed objects of [h]. *)
Definition copied (m : memo) (h h' : heap) : Prop :=
  ∀ l y, m !! l = Some y →
    ∃ o, h !! l = Some o ∧ Forall (val_in (dom m)) (obj_vals o) ∧
         h' !! y = Some (rename_obj m o).

(** The objects of [h] outside [X] are the same in [h']. *)
Definition frame (X : gset loc) (h h' : heap) : Prop :=
  ∀ l, l ∈ dom h → l ∉ X → h' !! l = h !! l.

(** All the items put into [o], one after the other. *)
Fixpoint put_all {A} (put : A → hval → obj → option obj)
    (items : list (A * hval)) (o : obj) : option obj :=
  match items with
  | [] => Some o
  | (k, v) :: rest => o' ← put k v o; put_all put rest o'
  end.

(** Between two calls of [deepcopy] on the objects of a region [S]: the
    objects of [S] are in the heap, well formed and closed in [S]; the memo
    maps objects of [S] to objects of the heap. *)
Definition inv (S : gset loc) (m : memo) (h : heap) : Prop :=
  (∀ l, l ∈ S → ∃ o, h !! l = Some o ∧ obj_wf S o) ∧
  dom m ⊆ S ∧
  (∀ l y, m !! l = Some y → y ∈ dom h).

(** What a run from [(m, h)] to [(m', h')] guarantees; [X] holds the copies
    under construction, the only old objects the run may write. *)
Record post (S X : gset loc) (m : memo) (h : heap) (m' : memo) (h' : heap)
  : Prop := Post {
  post_memo : m ⊆ m';
  post_frame : frame X h h';
  post_dom : dom h ⊆ dom h';
  post_new : ∀ l y, m' !! l = Some y → m !! l = None →
    y ∉ dom h ∧
    ∃ o, h !! l = Some o ∧ Forall (val_in (dom m')) (obj_vals o) ∧
         h' !! y = Some (rename_obj m' o);
  post_img : ∀ y, y ∈ dom h' → y ∉ dom h →
    ∃ l, m' !! l = Some y ∧ m !! l = None;
  post_inj : ∀ l1 l2 y, m' !! l1 = Some y → m' !! l2 = Some y →
    m !! l1 = None → l1 = l2;
  post_inv : inv S m' h' }.

(** A copier that works as long as no more than [n] objects of [S] are left
    to copy. *)
Definition copies (S : gset loc) (n : nat)
    (go : hval → memo → heap → option (hval * memo * heap)) : Prop :=
  ∀ x m h, inv S m h → val_in S x → size (S ∖ dom m) ≤ n →
    ∃ y m' h', go x m h = Some (y, m', h') ∧ post S ∅ m h m' h' ∧
               y = rename m' x ∧ val_in (dom m') x.

(** What [copy.deepcopy] does on a well-formed heap: it returns, with a
    memo [m] that is a one-to-one renaming of old objects to new ones; the
    new heap holds at the images the renamed copies, and every old object
    is as it was. *)
Record deepcopied (x : hval) (h : heap) (y : hval) (m : memo) (h' : heap)
  : Prop := Deepcopied {
  dc_result : y = rename m x;
  dc_covers : val_in (dom m) x;
  dc_copied : copied m h h';
  dc_frame : frame ∅ h h';
  dc_wf : heap_wf h';
  dc_fresh : ∀ l y', m !! l = Some y' → y' ∉ dom h;
  dc_inj : ∀ l1 l2 y', m !! l1 = Some y' → m !! l2 = Some y' → l1 = l2;
  dc_new : ∀ y', y' ∈ dom h' → y' ∉ dom h → ∃ l, m !! l = Some y' }.

(** The object at [y] and all it leads to are new: none of them is an
    object of [h]. *)
Definition fresh_region (h h' : heap) (y : loc) : Prop :=
  ∃ D : gset loc,
    y ∈ D ∧ D ## dom h ∧
    ∀ l, l ∈ D → ∃ o, h' !! l = Some o ∧ Forall (val_in D) (obj_vals o).

(** What a transform returns: a new mapping [y] in a new heap [h'] that
    reads back as [d'], sharing nothing with the objects of [h], which are
    as they were. *)
Definition returns_copy (h : heap) (n : nat) (d' : dict) (y : loc)
    (h' : heap) : Prop :=
  y ∉ dom h ∧ heap_wf h' ∧ frame ∅ h h' ∧ fresh_region h h' y ∧
  reify n h' (HRef y) = Some (VDict d').

End Store.

(** ** Vocabulary of the statements *)

(** A value read back from the heap: it holds atoms, lists and dicts, and
    no dict has a key twice. *)
Inductive value_wf : Py.value → Prop :=
| wf_atom a : value_wf (VAtom a)
| wf_list xs : Forall value_wf xs → value_wf (VList xs)
| wf_dict kvs :
    NoDup (dict_keys kvs) → Forall (λ kv, value_wf kv.2) kvs →
    value_wf (VDict kvs).

(** A mapping that is the serialization of an action. *)
Definition serialized (d : dict) : Prop :=
  (∃ a, Storage.get a = Ok d) ∨
  (∃ v options self,
     Net.construct v options [] = (Ok (), self) ∧ Net.get self = Ok d).






(** The option names that do not become ordinary attributes: [self] is
    the parameter of the initializer; [__class__], [__dict__] and
    [__weakref__] are descriptors of the instance; [get] hides the
    method. *)
Definition special_names : list string :=
  ["self"; "__class__"; "__dict__"; "__weakref__"; "get"].

Definition ordinary (options : dict) : Prop :=
  ∀ k, k ∈ dict_keys options → k ∉ special_names.

(** The keys every network action declares. *)
Definition base_keys : list string := ["type"; "name"; "params"; "subnets"].

(** The message of the third check of each network constructor. *)
Definition requires_msg (v : Net.variant) : string :=
  Net.class_name v +:+
  match v with
  | Net.Physical => " requires a valid mac_address attr"
  | Net.Bridge => " requires bridge_interfaces attr"
  | Net.Vlan => " requires vlan_id and vlan_link attr"
  | Net.Bond => " requires bond_interfaces attr"
  end.

(** One step of the comprehension of [NetAction.get] when the declared keys
    are [ks]. *)
Definition keep (ks : list string) (action : dict) (kv : string * value)
    : dict :=
  if bool_decide (kv.1 ∈ ks) then dict_set kv.1 kv.2 action else action.

(** Two disks, a partition on each, and a heap that holds the serialization
    of the first disk. *)
Definition sda : Storage.storage :=
  Storage.Disk (AStr "sda") (VStr "gpt") (VStr "QEMU") (VStr "QM01") VNone.

Definition sdb : Storage.storage :=
  Storage.Disk (AStr "sdb") (VStr "gpt") (VStr "QEMU") (VStr "QM02") VNone.

Definition sda1 : Storage.storage :=
  Storage.Partition (Storage.ObjAction sda) 1 0 1048576 VNone
    (AStr "sda1_part").

Definition sdb2 : Storage.storage :=
  Storage.Partition (Storage.ObjAction sdb) 2 0 1048576 VNone
    (AStr "sdb2_part").

Definition sda_mapping : dict :=
  [("id", VStr "sda"); ("model", VStr "QEMU"); ("ptable", VStr "gpt");
   ("serial", VStr "QM01"); ("type", VStr "disk")].

Definition sda_heap : Store.heap :=
  {[ 1%positive :=
       Store.ODict
         [("id", Store.HAtom (AStr "sda"));
          ("model", Store.HAtom (AStr "QEMU"));
          ("ptable", Store.HAtom (AStr "gpt"));
          ("serial", Store.HAtom (AStr "QM01"));
          ("type", Store.HAtom (AStr "disk"))] ]}.

(** The items of [d] whose key is among [ks], in the order of [d]. *)
Definition select (ks : list string) (d : dict) : dict :=
  filter (λ kv, kv.1 ∈ ks) d.

(** The value of the key [type] in the serialization of each storage
    class. *)
Definition type_of (self : Storage.storage) : string :=
  match self with
  | Storage.Disk _ _ _ _ _ => "disk"
  | Storage.Partition _ _ _ _ _ _ => "partition"
  | Storage.Bcache _ _ _ _ => "bcache"
  | Storage.Format _ _ _ => "format"
  | Storage.Mount _ _ _ => "mount"
  end.

(** A node that a constructor has returned. *)
Inductive built : Storage.storage → Prop :=
| built_disk action_id model serial ptable wipe a :
    Storage.DiskAction action_id model serial ptable wipe = Ok a → built a
| built_partition parent partnum offset size flags a :
    Storage.PartitionAction parent partnum offset size flags = Ok a → built a
| built_bcache backing_id cache_id bcache_num a :
    Storage.BcacheAction backing_id cache_id bcache_num = Ok a → built a
| built_format parent fstype a :
    Storage.FormatAction parent fstype = Ok a → built a
| built_mount parent path a :
    Storage.MountAction parent path = Ok a → built a.

(** The characters of the decimal numeral [d]. *)
Definition numeral (d : Decimal.uint) : list ascii :=
  String.list_ascii_of_string (NilEmpty.string_of_uint d).

(** Every object that [h] holds is the same in [h']. *)
Definition unchanged (h h' : Store.heap) : Prop :=
  ∀ l o, h !! l = Some o → h' !! l = Some o.


(** * Facts about the builtins and ordered dicts *)

Section dict_facts.
Context {V : Type}.
Implicit Types (d : list (string * V)) (k : string) (v : V).

Lemma dict_get_set_eq k v d : dict_get k (dict_set k v d) = Some v.
Proof.
  induction d as [|[k' v'] d IH]; simpl.
  - by rewrite String.eqb_refl.
  - destruct (String.eqb k k') eqn:E; simpl; rewrite E; done.
Qed.

Lemma dict_get_set_ne k k' v d :
  k ≠ k' → dict_get k' (dict_set k v d) = dict_get k' d.
Proof.
  intros Hne. induction d as [|[k0 v0] d IH]; simpl.
  - destruct (String.eqb k' k) eqn:E; [|done].
    apply String.eqb_eq in E. congruence.
  - destruct (String.eqb k k0) eqn:E; simpl; [|by rewrite IH].
    apply String.eqb_eq in E. subst k0.
    destruct (String.eqb k' k) eqn:E'; [|done].
    apply String.eqb_eq in E'. congruence.
Qed.

Lemma dict_keys_set k v d k' :
  k' ∈ dict_keys (dict_set k v d) ↔ k' = k ∨ k' ∈ dict_keys d.
Proof.
  unfold dict_keys. induction d as [|[k0 v0] d IH]; simpl.
  - set_solver.
  - destruct (String.eqb k k0) eqn:E; simpl.
    + apply String.eqb_eq in E. set_solver.
    + set_solver.
Qed.

Lemma dict_has_keys k d : dict_has k d = true ↔ k ∈ dict_keys d.
Proof.
  unfold dict_has, dict_keys. induction d as [|[k0 v0] d IH]; simpl.
  - split; [done|]. by intros ?%elem_of_nil.
  - destruct (String.eqb k k0) eqn:E.
    + apply String.eqb_eq in E. set_solver.
    + apply String.eqb_neq in E. set_solver.
Qed.

Lemma dict_keys_set_NoDup k v d :
  NoDup (dict_keys d) → NoDup (dict_keys (dict_set k v d)).
Proof.
  unfold dict_keys. induction d as [|[k0 v0] d IH]; simpl; intros Hd.
  - apply NoDup_singleton.
  - destruct (String.eqb k k0) eqn:E; simpl; [done|].
    apply NoDup_cons in Hd as [Hk0 Hd]. apply NoDup_cons. split; [|auto].
    intros [->|?]%(dict_keys_set k v d k0); [|done].
    by rewrite String.eqb_refl in E.
Qed.

Lemma dict_set_twice k v w d : dict_set k w (dict_set k v d) = dict_set k w d.
Proof.
  induction d as [|[k0 v0] d IH]; simpl.
  - by rewrite String.eqb_refl.
  - destruct (String.eqb k k0) eqn:E; simpl; rewrite E; [done|].
    by rewrite IH.
Qed.

Lemma dict_keys_update k d e :
  k ∈ dict_keys (dict_update d e) ↔ k ∈ dict_keys e ∨ k ∈ dict_keys d.
Proof.
  unfold dict_update. revert d.
  induction e as [|[k' v'] e IH]; intros d; simpl.
  - unfold dict_keys at 2. set_solver.
  - rewrite IH, dict_keys_set. unfold dict_keys. set_solver.
Qed.
End dict_facts.

Lemma value_eqb_str (v : value) (s : string) :
  value_eqb v (VStr s) = true ↔ v = VStr s.
Proof.
  destruct v as [[| | |t]| | |f]; simpl; try (split; [done|by inversion 1]).
  rewrite String.eqb_eq. split; [by intros ->|by inversion 1].
Qed.

Lemma py_in_singleton (v : value) (s : string) :
  py_in v (VList [VStr s]) = Ok (value_eqb v (VStr s)).
Proof. simpl. by rewrite orb_false_r. Qed.

Lemma str_take_length (n : nat) (s : string) : String.length (str_take n s) ≤ n.
Proof.
  revert s. induction n as [|n IH]; intros [|c s]; simpl; try lia.
  specialize (IH s). lia.
Qed.

Lemma py_int_TypeError (v : value) :
  py_int v = Raise TypeError ↔
  v = VNone ∨ (∃ xs, v = VList xs) ∨ (∃ kvs, v = VDict kvs).
Proof.
  destruct v as [[| | |s]| | |[m e|b|]]; simpl; try destruct (int_of_str s);
    naive_solver.
Qed.

Lemma py_int_ValueError (v : value) :
  py_int v = Raise ValueError ↔
  (∃ s, v = VStr s ∧ int_of_str s = None) ∨ v = VFloat FNaN.
Proof.
  destruct v as [[| | |s]| | |[m e|b|]]; simpl;
    try destruct (int_of_str s) eqn:E; naive_solver.
Qed.

Lemma py_int_OverflowError (v : value) :
  py_int v = Raise OverflowError ↔ ∃ negative, v = VFloat (FInf negative).
Proof.
  destruct v as [[| | |s]| | |[m e|b|]]; simpl;
    try destruct (int_of_str s) eqn:E; naive_solver.
Qed.

Lemma py_int_raises (v : value) (e : exn) :
  py_int v = Raise e → e = TypeError ∨ e = ValueError ∨ e = OverflowError.
Proof.
  destruct v as [[| | |s]| | |[m e'|b|]]; simpl; try destruct (int_of_str s);
    naive_solver.
Qed.

Lemma not_elem_of_strings (k : string) (ks : list string) :
  forallb (λ k', negb (String.eqb k k')) ks = true → k ∉ ks.
Proof.
  induction ks as [|k' ks IH]; simpl; [intros _; apply not_elem_of_nil|].
  intros [Hk Hks]%andb_true_iff. apply not_elem_of_cons. split; [|auto].
  intros ->. by rewrite String.eqb_refl in Hk.
Qed.

(** * The storage actions *)

Section storage_facts.
Import Storage.

(** The examples of the specification. *)
Example partition_sda1 :
  (p ← PartitionAction (ObjAction sda) (VInt 1) (VInt 0) (VInt 1048576) None;
   d ← get p; mret (action_id p, dict_get "size" d))
  = Ok ("sda1_part", Some (VStr "1048576B")).
Proof. reflexivity. Qed.

Example partition_bios_grub :
  (p ← PartitionAction (ObjAction sda) (VInt 7) (VInt 0) (VInt 512)
         (Some (VStr "bios_grub"));
   mret (action_id p))
  = Ok "bios_boot_partition".
Proof. reflexivity. Qed.

Example format_fat32 :
  (f ← FormatAction (ObjAction sda1) (VStr "fat32"); mret (action_id f))
  = Ok "sda1_part_f".
Proof. reflexivity. Qed.

Example format_swap :
  (f ← FormatAction (ObjAction sda1) (VStr "linux-swap(v1)"); get f)
  = Ok [("volume", VStr "sda1_part"); ("id", VStr "sda1_part_fmt");
        ("fstype", VStr "swap"); ("type", VStr "format")].
Proof. reflexivity. Qed.

Example int_of_str_examples :
  int_of_str " -1_000 " = Some (-1000)%Z ∧ int_of_str "007" = Some 7%Z ∧
  int_of_str "abc" = None ∧ int_of_str "1__0" = None ∧
  int_of_str "12_" = None ∧ int_of_str "+" = None ∧ int_of_str "" = None.
Proof. repeat split; reflexivity. Qed.

(** C1: a Partition built from a parent whose action_id is P and an integer
    partnum N has action_id P + str(N) + "_part", unless flags is
    "bios_grub": then it is "bios_boot_partition", whatever P and N. *)
Theorem partition_action_id (parent : pyobj) (P : string) (N o s : Z)
    (offset size : value) (flags : option value) :
  get_action_id parent = Ok P →
  py_int offset = Ok o →
  py_int size = Ok s →
  ∃ self,
    PartitionAction parent (VInt N) offset size flags = Ok self ∧
    (default VNone flags = VStr "bios_grub" →
     action_id self = "bios_boot_partition") ∧
    (default VNone flags ≠ VStr "bios_grub" →
     action_id self = P +:+ str_of_int N +:+ "_part").
Proof.
  intros HP Ho Hs. unfold PartitionAction.
  rewrite Ho, Hs, HP, py_in_singleton. cbn -[String.append str_of_int value_eqb].
  eexists; split; [reflexivity|].
  unfold action_id. cbn -[String.append str_of_int value_eqb].
  destruct (value_eqb _ _) eqn:E.
  - apply value_eqb_str in E. split; [done|]. by intros [].
  - split; [|done]. intros Hf. apply value_eqb_str in Hf. congruence.
Qed.

Lemma partition_action_id_witness :
  ∃ self,
    PartitionAction (ObjAction (Disk (AStr "sda") (VStr "gpt") VNone VNone VNone))
      (VInt 1) (VInt 0) (VInt 1048576) None = Ok self ∧
    (VNone = VStr "bios_grub" → action_id self = "bios_boot_partition") ∧
    (VNone ≠ VStr "bios_grub" → action_id self = "sda1_part").
Proof.
  apply (partition_action_id _ "sda" 1 0 1048576 (VInt 0) (VInt 1048576) None);
    reflexivity.
Defined.

(** C2: a Format built from a parent whose action_id is P and a
    filesystem type F.  If F starts with "fat", the action_id is the first
    11 characters of P + "_fmt" (at most 11 long) and the fstype stays F;
    if F starts with "linux-swap", get() gives the fstype "swap" and the
    action_id is P + "_fmt"; otherwise the action_id is P + "_fmt" and
    the fstype is F. *)
Theorem format_action_id_fstype (parent : pyobj) (P F : string) :
  get_action_id parent = Ok P →
  ∃ self d,
    FormatAction parent (VStr F) = Ok self ∧ get self = Ok d ∧
    dict_get "id" d = Some (VStr (action_id self)) ∧
    if startswith F "fat" then
      action_id self = str_take 11 (P +:+ "_fmt") ∧
      String.length (action_id self) ≤ 11 ∧
      dict_get "fstype" d = Some (VStr F)
    else if startswith F "linux-swap" then
      action_id self = P +:+ "_fmt" ∧
      dict_get "fstype" d = Some (VStr "swap")
    else
      action_id self = P +:+ "_fmt" ∧
      dict_get "fstype" d = Some (VStr F).
Proof.
  intros HP. unfold FormatAction. rewrite HP.
  cbn -[String.append str_take startswith].
  destruct (startswith F "fat") eqn:Hfat;
    [|destruct (startswith F "linux-swap") eqn:Hswap];
    (eexists; eexists; split; [reflexivity|]);
    cbn -[String.append str_take startswith]; rewrite HP;
    (split; [reflexivity|]); (split; [reflexivity|]);
    unfold action_id; cbn -[String.append str_take]; try done.
  split; [done|]. split; [apply str_take_length|done].
Qed.

Lemma format_action_id_fstype_witness :
  ∃ self d,
    FormatAction (ObjAction (Bcache 0 "sda" "sdb" (AStr "bcache0")))
      (VStr "linux-swap(v1)") = Ok self ∧ get self = Ok d ∧
    dict_get "id" d = Some (VStr (action_id self)) ∧
    action_id self = "bcache0_fmt" ∧
    dict_get "fstype" d = Some (VStr "swap").
Proof.
  apply (format_action_id_fstype _ "bcache0" "linux-swap(v1)"). reflexivity.
Defined.

(** C3: a Bcache built from a backing node B and a cache node C serializes
    the action_id of B's parent as backing_device and the action_id of
    C's parent as cache_device, not the nodes' own ids: any two nodes with
    these parents give the same Bcache.  Its own action_id is
    "bcache" + str(bcache_num). *)
Theorem bcache_devices (B C pB pC : pyobj) (idB idC : string)
    (bcache_num : atom) (n : Z) :
  get_parent B = Ok pB → get_action_id pB = Ok idB →
  get_parent C = Ok pC → get_action_id pC = Ok idC →
  py_int (VAtom bcache_num) = Ok n →
  ∃ self d,
    BcacheAction B C bcache_num = Ok self ∧ get self = Ok d ∧
    dict_get "backing_device" d = Some (VStr idB) ∧
    dict_get "cache_device" d = Some (VStr idC) ∧
    action_id self = "bcache" +:+ py_str bcache_num ∧
    dict_get "id" d = Some (VStr ("bcache" +:+ py_str bcache_num)) ∧
    ∀ B' C', get_parent B' = Ok pB → get_parent C' = Ok pC →
             BcacheAction B' C' bcache_num = Ok self.
Proof.
  intros HB HpB HC HpC Hn. unfold BcacheAction.
  rewrite Hn, HB, HC. cbn -[String.append py_str]. rewrite HpB, HpC.
  cbn -[String.append py_str]. do 2 eexists.
  repeat (split; [reflexivity|]).
  intros B' C' HB' HC'. rewrite HB', HC'. cbn -[String.append py_str].
  by rewrite HpB, HpC.
Qed.

Lemma bcache_devices_witness :
  ∃ self d,
    BcacheAction (ObjAction sda1) (ObjAction sdb2) (AInt 0) = Ok self ∧
    get self = Ok d ∧
    dict_get "backing_device" d = Some (VStr "sda") ∧
    dict_get "cache_device" d = Some (VStr "sdb") ∧
    action_id self = "bcache0" ∧
    dict_get "id" d = Some (VStr "bcache0") ∧
    ∀ B' C', get_parent B' = Ok (ObjAction sda) →
             get_parent C' = Ok (ObjAction sdb) →
             BcacheAction B' C' (AInt 0) = Ok self.
Proof.
  apply (bcache_devices (ObjAction sda1) (ObjAction sdb2)
           (ObjAction sda) (ObjAction sdb) "sda" "sdb" (AInt 0) 0);
    reflexivity.
Defined.

(** C4, counterexample: with [None] as parent the constructor itself
    raises the attribute error; no node is built that could be serialized
    later. *)
Lemma construction_with_None_parent_raises :
  PartitionAction (ObjValue VNone) (VInt 1) (VInt 0) (VInt 1048576) None
    = Raise AttributeError ∧
  ¬ ∃ self,
      PartitionAction (ObjValue VNone) (VInt 1) (VInt 0) (VInt 1048576) None
        = Ok self.
Proof. split; [reflexivity|]. intros [self Hself]. discriminate Hself. Qed.

(** C4, amended: every constructor that takes a parent reads
    [parent.action_id] to derive its own id, so a parent without that
    accessor makes the construction call itself raise: no node is built.
    The error is the attribute error, for a Partition once its numeric
    fields have been coerced.  A Bcache reads [backing_id.parent.action_id]
    and then [cache_id.parent.action_id]: it fails in the same way when
    either of the two given nodes has no attribute [parent], or has a
    parent without the accessor, such as [None]. *)
Theorem missing_action_id_fails_at_construction (v : value) :
  (∀ partnum offset size flags,
     raised (PartitionAction (ObjValue v) partnum offset size flags) ∧
     ∀ n o s, py_int partnum = Ok n → py_int offset = Ok o →
              py_int size = Ok s →
              PartitionAction (ObjValue v) partnum offset size flags
                = Raise AttributeError) ∧
  (∀ fstype, FormatAction (ObjValue v) fstype = Raise AttributeError) ∧
  (∀ path, MountAction (ObjValue v) path = Raise AttributeError) ∧
  (∀ cache_id bcache_num,
     raised (BcacheAction (ObjValue v) cache_id bcache_num)) ∧
  (∀ backing_id bcache_num,
     raised (BcacheAction backing_id (ObjValue v) bcache_num)) ∧
  (∀ backing_id cache_id bcache_num,
     get_parent backing_id = Ok (ObjValue v) ∨
     get_parent cache_id = Ok (ObjValue v) →
     raised (BcacheAction backing_id cache_id bcache_num)) ∧
  (∀ backing_id cache_id bcache_num n,
     py_int (VAtom bcache_num) = Ok n →
     backing_id = ObjValue v ∨ get_parent backing_id = Ok (ObjValue v) →
     BcacheAction backing_id cache_id bcache_num = Raise AttributeError) ∧
  (∀ backing_id cache_id bcache_num n pb idb,
     py_int (VAtom bcache_num) = Ok n →
     get_parent backing_id = Ok pb → get_action_id pb = Ok idb →
     cache_id = ObjValue v ∨ get_parent cache_id = Ok (ObjValue v) →
     BcacheAction backing_id cache_id bcache_num = Raise AttributeError) ∧
  (∀ partnum offset size flags e,
     py_int partnum = Raise e ∨
     (∃ n, py_int partnum = Ok n ∧ py_int offset = Raise e) ∨
     (∃ n o, py_int partnum = Ok n ∧ py_int offset = Ok o ∧
             py_int size = Raise e) →
     PartitionAction (ObjValue v) partnum offset size flags = Raise e) ∧
  (∀ backing_id cache_id bcache_num e,
     py_int (VAtom bcache_num) = Raise e →
     BcacheAction backing_id cache_id bcache_num = Raise e).
Proof.
  assert (Hback : ∀ backing_id cache_id bcache_num n,
            py_int (VAtom bcache_num) = Ok n →
            backing_id = ObjValue v ∨ get_parent backing_id = Ok (ObjValue v) →
            BcacheAction backing_id cache_id bcache_num
            = Raise AttributeError).
  { intros backing_id cache_id bcache_num n Hn Hb. unfold BcacheAction.
    rewrite Hn. destruct Hb as [->|Hp]; [done|]. by rewrite Hp. }
  assert (Hcache : ∀ backing_id cache_id bcache_num n,
            py_int (VAtom bcache_num) = Ok n →
            cache_id = ObjValue v ∨ get_parent cache_id = Ok (ObjValue v) →
            raised (BcacheAction backing_id cache_id bcache_num) ∧
            ∀ pb idb, get_parent backing_id = Ok pb →
                      get_action_id pb = Ok idb →
                      BcacheAction backing_id cache_id bcache_num
                      = Raise AttributeError).
  { intros backing_id cache_id bcache_num n Hn Hc. unfold BcacheAction.
    rewrite Hn. cbn -[String.append py_str]. split.
    - destruct (get_parent backing_id) as [pb|]; [|done].
      cbn -[String.append py_str].
      destruct (get_action_id pb) as [idb|]; [|done].
      cbn -[String.append py_str].
      destruct Hc as [->|Hp]; [done|]. by rewrite Hp.
    - intros pb idb Hpb Hidb. rewrite Hpb. cbn -[String.append py_str].
      rewrite Hidb. cbn -[String.append py_str].
      destruct Hc as [->|Hp]; [done|]. by rewrite Hp. }
  split; [|split; [|split; [|split; [|split; [|split; [|split;
    [|split; [|split]]]]]]]].
  - intros partnum offset size flags. unfold PartitionAction. split.
    + destruct (py_int partnum); [|done].
      destruct (py_int offset); [|done].
      destruct (py_int size); done.
    + intros n o s Hn Ho Hs. by rewrite Hn, Ho, Hs.
  - done.
  - done.
  - intros cache_id bcache_num. unfold BcacheAction.
    by destruct (py_int (VAtom bcache_num)).
  - intros backing_id bcache_num.
    destruct (py_int (VAtom bcache_num)) as [n|e] eqn:Hn.
    + apply (Hcache backing_id (ObjValue v) bcache_num n Hn). by left.
    + unfold BcacheAction. by rewrite Hn.
  - intros backing_id cache_id bcache_num Hp.
    destruct (py_int (VAtom bcache_num)) as [n|e] eqn:Hn.
    + destruct Hp as [Hp|Hp].
      * rewrite (Hback backing_id cache_id bcache_num n Hn); [done|].
        by right.
      * apply (Hcache backing_id cache_id bcache_num n Hn). by right.
    + unfold BcacheAction. by rewrite Hn.
  - exact Hback.
  - intros backing_id cache_id bcache_num n pb idb Hn Hpb Hidb Hc.
    by apply (proj2 (Hcache backing_id cache_id bcache_num n Hn Hc) pb idb).
  - intros partnum offset size flags e. unfold PartitionAction.
    intros [He|[(n & Hn & He)|(n & o & Hn & Ho & He)]].
    + by rewrite He.
    + by rewrite Hn, He.
    + by rewrite Hn, Ho, He.
  - intros backing_id cache_id bcache_num e He. unfold BcacheAction.
    by rewrite He.
Qed.

Lemma missing_action_id_fails_at_construction_witness :
  PartitionAction (ObjValue VNone) (VInt 1) (VInt 0) (VInt 0) None
    = Raise AttributeError ∧
  BcacheAction (ObjAction sda) (ObjAction sdb2) (AInt 0)
    = Raise AttributeError ∧
  BcacheAction (ObjAction sdb2) (ObjAction sda) (AInt 0)
    = Raise AttributeError ∧
  BcacheAction (ObjAction sdb2) (ObjValue VNone) (AInt 0)
    = Raise AttributeError.
Proof.
  destruct (missing_action_id_fails_at_construction VNone)
    as (HP & _ & _ & _ & _ & _ & HB & HC & _).
  split; [|split; [|split]].
  - apply (proj2 (HP (VInt 1) (VInt 0) (VInt 0) None) 1%Z 0%Z 0%Z);
      reflexivity.
  - apply (HB (ObjAction sda) (ObjAction sdb2) (AInt 0) 0%Z);
      [reflexivity|by right].
  - apply (HC (ObjAction sdb2) (ObjAction sda) (AInt 0) 0%Z (ObjAction sdb)
             "sdb"); [reflexivity|reflexivity|reflexivity|by right].
  - apply (HC (ObjAction sdb2) (ObjValue VNone) (AInt 0) 0%Z (ObjAction sdb)
             "sdb"); [reflexivity|reflexivity|reflexivity|by left].
Defined.

(** C8, counterexample: a string that is not a number is rejected with a
    value error, not a type error, and a string that spells a number is
    not rejected at all. *)
Lemma partition_non_numeric_partnum :
  PartitionAction (ObjAction sda) (VStr "abc") (VInt 0) (VInt 0) None
    = Raise ValueError ∧
  PartitionAction (ObjAction sda) (VStr "abc") (VInt 0) (VInt 0) None
    ≠ Raise TypeError ∧
  PartitionAction (ObjAction sda) (VStr "12") (VInt 0) (VInt 0) None
    = Ok (Partition (ObjAction sda) 12 0 0 VNone (AStr "sda12_part")).
Proof. split; [reflexivity|]. split; [discriminate|reflexivity]. Qed.

(** C8, amended: when partnum, offset and size are accepted by int(),
    get() renders size as str(int(size)) + "B" and offset as
    str(int(offset)) + "B".  The constructor applies int() to partnum,
    offset and size in this order, and the first value int() rejects makes
    construction fail with int()'s error.  int() accepts an int, a bool,
    a finite float (of which it takes the integer part, towards zero) and
    a string that is an integer literal; it raises a type error for None,
    a list or a mapping, a value error for a string that is not an integer
    literal and for a NaN, an overflow error for an infinite float. *)
Theorem partition_coercion (parent : pyobj) (partnum offset size : value)
    (flags : option value) :
  (∀ P n o s,
     get_action_id parent = Ok P → py_int partnum = Ok n →
     py_int offset = Ok o → py_int size = Ok s →
     ∃ self d,
       PartitionAction parent partnum offset size flags = Ok self ∧
       get self = Ok d ∧
       dict_get "number" d = Some (VInt n) ∧
       dict_get "size" d = Some (VStr (str_of_int s +:+ "B")) ∧
       dict_get "offset" d = Some (VStr (str_of_int o +:+ "B"))) ∧
  (∀ e, py_int partnum = Raise e →
        PartitionAction parent partnum offset size flags = Raise e) ∧
  (∀ n e, py_int partnum = Ok n → py_int offset = Raise e →
          PartitionAction parent partnum offset size flags = Raise e) ∧
  (∀ n o e, py_int partnum = Ok n → py_int offset = Ok o →
            py_int size = Raise e →
            PartitionAction parent partnum offset size flags = Raise e) ∧
  (∀ v, py_int v = Raise TypeError ↔
        v = VNone ∨ (∃ xs, v = VList xs) ∨ (∃ kvs, v = VDict kvs)) ∧
  (∀ v, py_int v = Raise ValueError ↔
        (∃ t, v = VStr t ∧ int_of_str t = None) ∨ v = VFloat FNaN) ∧
  (∀ v, py_int v = Raise OverflowError ↔
        ∃ negative, v = VFloat (FInf negative)) ∧
  (∀ v e, py_int v = Raise e →
          e = TypeError ∨ e = ValueError ∨ e = OverflowError) ∧
  (∀ z b m e,
     py_int (VInt z) = Ok z ∧
     py_int (VBool b) = Ok (if b then 1 else 0)%Z ∧
     py_int (VFloat (FFinite m e))
     = Ok (if (0 <=? e)%Z then m * 2 ^ e else Z.quot m (2 ^ (- e)))%Z) ∧
  (∀ t z, int_of_str t = Some z → py_int (VStr t) = Ok z).
Proof.
  split; [|split; [|split; [|split; [|split; [|split; [|split; [|split;
    [|split]]]]]]]].
  - intros P n o s HP Hn Ho Hs. unfold PartitionAction.
    rewrite Hn, Ho, Hs, HP, py_in_singleton.
    cbn -[String.append str_of_int value_eqb].
    do 2 eexists. split; [reflexivity|].
    cbn -[String.append str_of_int value_eqb]. rewrite HP.
    by cbn -[String.append str_of_int value_eqb].
  - intros e He. unfold PartitionAction. by rewrite He.
  - intros n e Hn He. unfold PartitionAction. by rewrite Hn, He.
  - intros n o e Hn Ho He. unfold PartitionAction. by rewrite Hn, Ho, He.
  - apply py_int_TypeError.
  - apply py_int_ValueError.
  - apply py_int_OverflowError.
  - apply py_int_raises.
  - done.
  - intros t z Ht. simpl. by rewrite Ht.
Qed.

Lemma partition_coercion_witness :
  (∃ self d,
     PartitionAction (ObjAction sda) (VInt 1) (VBool false)
       (VFloat (FFinite 2097153 (-1))) None = Ok self ∧
     get self = Ok d ∧
     dict_get "number" d = Some (VInt 1) ∧
     dict_get "size" d = Some (VStr "1048576B") ∧
     dict_get "offset" d = Some (VStr "0B")) ∧
  PartitionAction (ObjAction sda) (VInt 1) VNone (VStr "x") None
    = Raise TypeError ∧
  PartitionAction (ObjAction sda) (VInt 1) (VInt 0) (VFloat (FInf false)) None
    = Raise OverflowError.
Proof.
  destruct (partition_coercion (ObjAction sda) (VInt 1) (VBool false)
              (VFloat (FFinite 2097153 (-1))) None) as (Hok & _).
  destruct (partition_coercion (ObjAction sda) (VInt 1) VNone (VStr "x") None)
    as (_ & _ & Hoff & _).
  destruct (partition_coercion (ObjAction sda) (VInt 1) (VInt 0)
              (VFloat (FInf false)) None)
    as (_ & _ & _ & Hsize & _).
  split; [|split].
  - apply (Hok "sda" 1%Z 0%Z 1048576%Z); reflexivity.
  - apply (Hoff 1%Z TypeError); reflexivity.
  - apply (Hsize 1%Z 0%Z OverflowError); reflexivity.
Defined.

(** C10: the serialized Disk has the key "wipe" exactly when the wipe
    argument is truthy.  A falsy wipe (the empty string, False, ...)
    serializes like an omitted one; a truthy wipe is the value under the
    key "wipe". *)
Theorem disk_wipe_key (action_id : atom) (model serial : value)
    (ptable wipe : option value) :
  ∃ self d,
    DiskAction action_id model serial ptable wipe = Ok self ∧
    get self = Ok d ∧
    dict_has "wipe" d = truthy (default VNone wipe) ∧
    (truthy (default VNone wipe) = true →
     dict_get "wipe" d = Some (default VNone wipe)) ∧
    (truthy (default VNone wipe) = false →
     ∃ self0,
       DiskAction action_id model serial ptable None = Ok self0 ∧
       get self0 = Ok d).
Proof.
  unfold DiskAction. destruct (truthy (default VNone wipe)) eqn:Hw.
  - do 2 eexists. split; [reflexivity|]. cbn -[py_str]. rewrite Hw.
    split; [reflexivity|]. split; [reflexivity|]. by split.
  - do 2 eexists. split; [reflexivity|]. cbn -[py_str]. rewrite Hw.
    split; [reflexivity|]. split; [reflexivity|]. split; [done|].
    intros _. eexists. split; reflexivity.
Qed.

Lemma disk_wipe_key_witness :
  (∃ self d,
     DiskAction (AStr "sda") (VStr "QEMU") (VStr "QM01") None
       (Some (VStr "")) = Ok self ∧
     get self = Ok d ∧ dict_has "wipe" d = false ∧
     ∃ self0,
       DiskAction (AStr "sda") (VStr "QEMU") (VStr "QM01") None None
         = Ok self0 ∧ get self0 = Ok d) ∧
  (∃ self d,
     DiskAction (AStr "sda") (VStr "QEMU") (VStr "QM01") None
       (Some (VStr "superblock")) = Ok self ∧
     get self = Ok d ∧ dict_has "wipe" d = true ∧
     dict_get "wipe" d = Some (VStr "superblock")).
Proof.
  split.
  - destruct (disk_wipe_key (AStr "sda") (VStr "QEMU") (VStr "QM01") None
                (Some (VStr ""))) as (self & d & H1 & H2 & H3 & _ & H5).
    exists self, d. repeat (split; [assumption|]). apply H5. reflexivity.
  - destruct (disk_wipe_key (AStr "sda") (VStr "QEMU") (VStr "QM01") None
                (Some (VStr "superblock")))
      as (self & d & H1 & H2 & H3 & H4 & _).
    exists self, d. repeat (split; [assumption|]). apply H4. reflexivity.
Defined.

End storage_facts.

(** * The network actions *)

Section net_facts.
Import Net.

Lemma existsb_value_eqb_str (k : string) (ks : list string) :
  existsb (value_eqb (VStr k)) ((λ s : string, VStr s) <$> ks)
  = bool_decide (k ∈ ks).
Proof.
  induction ks as [|k' ks IH].
  - symmetry. apply bool_decide_eq_false_2, not_elem_of_nil.
  - rewrite fmap_cons.
    change (existsb ?f (?a :: ?l)) with (f a || existsb f l). rewrite IH.
    change (value_eqb (VStr k) (VStr k')) with (String.eqb k k').
    destruct (String.eqb k k') eqn:E; cbn [orb].
    + apply String.eqb_eq in E. subst k'. symmetry.
      apply bool_decide_eq_true_2. set_solver.
    + apply String.eqb_neq in E. apply bool_decide_ext. set_solver.
Qed.

(** *** Assignments *)

Lemma setattr_entry (k : string) (v : value) (self : dict) :
  k ≠ "__class__" → k ≠ "__weakref__" → k ≠ "__dict__" →
  setattr k v self = (Ok (), dict_set k v self).
Proof.
  intros H1%String.eqb_neq H2%String.eqb_neq H3%String.eqb_neq.
  unfold setattr. by rewrite H1, H2, H3.
Qed.


Lemma setattrs_cons (k : string) (v : value) (rest self : dict) :
  setattrs ((k, v) :: rest) self
  = match setattr k v self with
    | (Ok _, self) => setattrs rest self
    | (Raise e, self) => (Raise e, self)
    end.
Proof. reflexivity. Qed.

(** Options without the three descriptor names are all assigned. *)
Lemma setattrs_entries (options self : dict) :
  (∀ k, k ∈ dict_keys options →
        k ≠ "__class__" ∧ k ≠ "__weakref__" ∧ k ≠ "__dict__") →
  setattrs options self = (Ok (), dict_update self options).
Proof.
  revert self. induction options as [|[k v] options IH]; intros self Hk;
    [done|].
  change (dict_keys ((k, v) :: options)) with (k :: dict_keys options) in Hk.
  destruct (Hk k) as (H1 & H2 & H3); [set_solver|].
  rewrite setattrs_cons, setattr_entry by done.
  rewrite IH; [done|]. intros k' Hk'. apply Hk. set_solver.
Qed.



(** Without an option named [__dict__], a loop that returns has made
    every option an entry. *)
Lemma setattrs_Ok (options self self' : dict) :
  setattrs options self = (Ok (), self') →
  "__dict__" ∉ dict_keys options →
  self' = dict_update self options.
Proof.
  revert self. induction options as [|[k v] options IH]; intros self.
  - by intros [= <-].
  - change (dict_keys ((k, v) :: options)) with (k :: dict_keys options).
    rewrite setattrs_cons. intros Hs Hd.
    apply not_elem_of_cons in Hd as [Hk Hd].
    destruct (setattr k v self) as [[[]|e0] s1] eqn:Hk1; [|done].
    assert (s1 = dict_set k v self) as ->.
    { revert Hk1. unfold setattr.
      destruct (String.eqb k "__class__"); [done|].
      destruct (String.eqb k "__weakref__"); [done|].
      destruct (String.eqb k "__dict__") eqn:E; [|by intros [= <-]].
      apply String.eqb_eq in E. by subst k. }
    by apply IH.
Qed.

(** *** The constructor, check by check *)

Lemma construct_cases (v : variant) (options self : dict) :
  construct v options self =
  if dict_has "self" options then (Raise TypeError, self)
  else if type_invalid (type_tag v) options then
    (Raise (Exception ("Invalid type for " +:+ class_name v)), self)
  else match name_invalid options with
  | Raise e => (Raise e, self)
  | Ok true => (Raise (Exception ("Invalid name for " +:+ class_name v)), self)
  | Ok false =>
      if forallb (λ k, dict_has k options) (required v) then
        match setattrs options self with
        | (Ok _, s) =>
            (Ok (),
             dict_set "_action_keys"
               (VList ((λ k : string, VStr k) <$> declared_keys v)) s)
        | (Raise e, s) => (Raise e, s)
        end
      else (Raise (Exception (requires_msg v)), self)
  end.
Proof.
  destruct v; unfold construct, call, requires_msg; simpl;
    unfold PhysicalAction_init, BridgeAction_init, VlanAction_init,
      BondAction_init;
    destruct (dict_has "self" options) eqn:Hself; try done;
    destruct (type_invalid _ options); try done;
    destruct (name_invalid options) as [[]|]; try done;
    repeat match goal with
      | |- context [negb (dict_has ?k options)] =>
          destruct (dict_has k options)
      end; simpl; try done;
    unfold mbind, init_bind, call, NetAction_init; rewrite Hself;
    unfold mbind, init_bind;
    destruct (setattrs options self) as [[[]|e] s]; try done;
    unfold setattr, extend_action_keys; simpl;
    by rewrite dict_get_set_eq, dict_set_twice.
Qed.

Lemma required_has (v : variant) (options : dict) :
  forallb (λ k, dict_has k options) (required v) = true ↔
  ∀ k, k ∈ required v → dict_has k options = true.
Proof.
  rewrite forallb_forall. split.
  - intros H k Hk. apply H. by apply list_elem_of_In.
  - intros H k Hk. apply H. by apply list_elem_of_In.
Qed.

(** What a construction that returns has checked and done. *)
Lemma construct_Ok (v : variant) (options self0 self : dict) :
  construct v options self0 = (Ok (), self) ↔
  dict_has "self" options = false ∧
  type_invalid (type_tag v) options = false ∧
  name_invalid options = Ok false ∧
  (∀ k, k ∈ required v → dict_has k options = true) ∧
  ∃ s, setattrs options self0 = (Ok (), s) ∧
       self = dict_set "_action_keys"
                (VList ((λ k : string, VStr k) <$> declared_keys v)) s.
Proof.
  rewrite construct_cases, <-required_has.
  destruct (dict_has "self" options); [naive_solver|].
  destruct (type_invalid _ options); [naive_solver|].
  destruct (name_invalid options) as [[]|]; try naive_solver.
  destruct (forallb _ (required v)); [|naive_solver].
  destruct (setattrs options self0) as [[[]|e] s]; naive_solver.
Qed.


Lemma type_valid_inv (tag : string) (options : dict) :
  type_invalid tag options = false ↔ dict_get "type" options = Some (VStr tag).
Proof.
  unfold type_invalid. destruct (dict_get "type" options) as [tv|]; [|done].
  rewrite negb_false_iff, value_eqb_str. split; [by intros ->|by intros [= ->]].
Qed.

Lemma name_valid_inv (options : dict) :
  name_invalid options = Ok false ↔
  ∃ nv n, dict_get "name" options = Some nv ∧ py_len nv = Ok n ∧ 0 < n.
Proof.
  unfold name_invalid. destruct (dict_get "name" options) as [nv|].
  - destruct (py_len nv) as [n|e] eqn:Hlen; simpl.
    + split.
      * intros [= Hn]. apply Nat.eqb_neq in Hn. exists nv, n.
        split; [done|]. split; [done|lia].
      * intros (nv' & n' & [= <-] & Hn' & Hpos).
        rewrite Hlen in Hn'. injection Hn' as <-. do 2 f_equal.
        apply Nat.eqb_neq. lia.
    + split; [done|]. intros (nv' & n' & [= <-] & Hn' & _). congruence.
  - split; [done|]. by intros (? & ? & ? & _).
Qed.









(** *** Serialization *)

Lemma get_loop_declared (ks : list string) (self items action : dict) :
  dict_get "_action_keys" self = Some (VList ((λ s : string, VStr s) <$> ks)) →
  get_loop self items action = Ok (fold_left (keep ks) items action).
Proof.
  intros Hkeys. revert action.
  induction items as [|[k v] items IH]; intros action; [done|].
  cbn [get_loop fold_left]. unfold getattr. rewrite Hkeys.
  cbn [mbind result_bind py_in]. rewrite existsb_value_eqb_str.
  cbn [mbind result_bind]. by rewrite IH.
Qed.

Lemma fold_keep_keys (ks : list string) (items action : dict) (k : string) :
  k ∈ dict_keys (fold_left (keep ks) items action) ↔
  k ∈ dict_keys action ∨ (k ∈ dict_keys items ∧ k ∈ ks).
Proof.
  revert action. induction items as [|[k' v'] items IH]; intros action.
  - change (dict_keys (@nil (string * value))) with (@nil string).
    cbn [fold_left]. set_solver.
  - cbn [fold_left]. rewrite IH.
    change (dict_keys ((k', v') :: items)) with (k' :: dict_keys items).
    unfold keep at 1. cbn [fst snd]. case_bool_decide as Hk'.
    + rewrite dict_keys_set. set_solver.
    + set_solver.
Qed.

Lemma fold_keep_NoDup (ks : list string) (items action : dict) :
  NoDup (dict_keys action) →
  NoDup (dict_keys (fold_left (keep ks) items action)).
Proof.
  revert action. induction items as [|[k' v'] items IH]; intros action Hnd;
    [done|].
  cbn [fold_left]. apply IH. unfold keep. case_bool_decide; [|done].
  by apply dict_keys_set_NoDup.
Qed.

(** What the body of get() returns on a constructed network action. *)
Lemma get_constructed (v : variant) (options self : dict) :
  construct v options [] = (Ok (), self) →
  get self = Ok (fold_left (keep (declared_keys v)) self []) ∧
  ("__dict__" ∉ dict_keys options →
   self = dict_set "_action_keys"
            (VList ((λ k : string, VStr k) <$> declared_keys v))
            (dict_update [] options) ∧
   ∀ k, k ∈ dict_keys self ↔ k = "_action_keys" ∨ k ∈ dict_keys options).
Proof.
  intros (_ & _ & _ & _ & s & Hs & ->)%construct_Ok. split.
  - unfold get. apply get_loop_declared. apply dict_get_set_eq.
  - intros Hd. apply setattrs_Ok in Hs as ->; [|done]. split; [done|].
    intros k. rewrite dict_keys_set, dict_keys_update.
    change (dict_keys (@nil (string * value))) with (@nil string).
    set_solver.
Qed.

Lemma action_keys_not_declared (v : variant) :
  "_action_keys" ∉ declared_keys v.
Proof.
  intros Hin%list_elem_of_In. destruct v; simpl in Hin;
    intuition discriminate.
Qed.

Lemma get_not_declared (v : variant) : "get" ∉ declared_keys v.
Proof.
  intros Hin%list_elem_of_In. destruct v; simpl in Hin;
    intuition discriminate.
Qed.

(** C7, counterexample: an option named __dict__ replaces the instance
    dictionary, so the options assigned before it are lost: here get()
    returns the empty mapping although type, name and mac_address are
    declared and were supplied. *)
Lemma get_after_dict_option :
  ∃ self,
    construct Physical
      [("type", VStr "physical"); ("name", VStr "eth0");
       ("mac_address", VStr "52:54:00:12:34:56"); ("__dict__", VDict [])] []
    = (Ok (), self) ∧
    call_get self = Ok [] ∧
    "type" ∈ declared_keys Physical ∧
    "type" ∈ dict_keys
               [("type", VStr "physical"); ("name", VStr "eth0");
                ("mac_address", VStr "52:54:00:12:34:56");
                ("__dict__", VDict [])] ∧
    "type" ∉ dict_keys (@nil (string * value)).
Proof.
  eexists. split; [reflexivity|]. split; [reflexivity|].
  split; [set_solver|]. split; [set_solver|]. apply not_elem_of_nil.
Qed.

(** C7, amended: for a constructed network action, every key of the
    mapping get() returns is a declared key of the variant, no key comes
    twice, and the call fails only when an attribute named get hides the
    method.  When no option is named __dict__, the attributes are the
    options; then, if no option is named get, the keys of the mapping are
    exactly the declared keys that were among the options, every other
    option being absent, and if one is, the call get() raises
    TypeError. *)
Theorem get_declared_keys (v : variant) (options self : dict) :
  construct v options [] = (Ok (), self) →
  (∀ action, call_get self = Ok action →
     NoDup (dict_keys action) ∧
     ∀ k, k ∈ dict_keys action → k ∈ declared_keys v ∧ k ∈ dict_keys self) ∧
  (∀ e, call_get self = Raise e →
        e = TypeError ∧ "get" ∈ dict_keys self) ∧
  ("__dict__" ∉ dict_keys options →
   (∀ k, k ∈ dict_keys self ↔ k = "_action_keys" ∨ k ∈ dict_keys options) ∧
   ("get" ∉ dict_keys options →
    ∃ action,
      call_get self = Ok action ∧
      NoDup (dict_keys action) ∧
      ∀ k, k ∈ dict_keys action ↔
           k ∈ dict_keys options ∧ k ∈ declared_keys v) ∧
   ("get" ∈ dict_keys options → call_get self = Raise TypeError)).
Proof.
  intros [Hget Hkeys]%get_constructed. split; [|split].
  - intros action. unfold call_get.
    destruct (dict_has "get" self); [done|]. rewrite Hget.
    intros [= <-]. split; [apply fold_keep_NoDup, NoDup_nil_2|].
    intros k. rewrite fold_keep_keys.
    change (dict_keys (@nil (string * value))) with (@nil string).
    set_solver.
  - intros e. unfold call_get.
    destruct (dict_has "get" self) eqn:E; [|by rewrite Hget].
    intros [= <-]. split; [done|]. by apply dict_has_keys.
  - intros Hd. destruct (Hkeys Hd) as [_ Hk]. split; [done|]. split.
    + intros Hg. eexists. split.
      * unfold call_get. destruct (dict_has "get" self) eqn:E; [|done].
        apply dict_has_keys, Hk in E as [[=]|E]. done.
      * split; [apply fold_keep_NoDup, NoDup_nil_2|].
        intros k. rewrite fold_keep_keys, Hk.
        change (dict_keys (@nil (string * value))) with (@nil string).
        pose proof (action_keys_not_declared v). set_solver.
    + intros Hg. unfold call_get.
      destruct (dict_has "get" self) eqn:E; [done|].
      assert (dict_has "get" self = true); [|congruence].
      apply dict_has_keys, Hk. by right.
Qed.

Lemma get_declared_keys_witness :
  ∃ action,
    call_get
      [("type", VStr "bond"); ("name", VStr "bond0"); ("mtu", VInt 9000);
       ("bond_interfaces", VList [VStr "eth0"; VStr "eth1"]);
       ("_action_keys",
        VList [VStr "type"; VStr "name"; VStr "params"; VStr "subnets";
               VStr "bond_interfaces"])] = Ok action ∧
    NoDup (dict_keys action) ∧
    ∀ k, k ∈ dict_keys action ↔
         k ∈ ["type"; "name"; "mtu"; "bond_interfaces"] ∧
         k ∈ declared_keys Bond.
Proof.
  destruct (get_declared_keys Bond
              [("type", VStr "bond"); ("name", VStr "bond0");
               ("mtu", VInt 9000);
               ("bond_interfaces", VList [VStr "eth0"; VStr "eth1"])]
              _ eq_refl) as (_ & _ & H).
  destruct H as (_ & H & _).
  - apply not_elem_of_strings. reflexivity.
  - apply H. apply not_elem_of_strings. reflexivity.
Defined.

End net_facts.

(** * The object store *)

Section store_facts.
Import Store.

Lemma val_in_mono (D D' : gset loc) (x : hval) :
  D ⊆ D' → val_in D x → val_in D' x.
Proof. destruct x; simpl; set_solver. Qed.

Lemma rename_mono (m m' : memo) (x : hval) :
  m ⊆ m' → val_in (dom m) x → rename m' x = rename m x.
Proof.
  intros Hm. destruct x as [|l]; simpl; [done|].
  intros [y Hy]%elem_of_dom. rewrite Hy.
  by rewrite (lookup_weaken _ _ _ _ Hy Hm).
Qed.

Lemma rename_obj_mono (m m' : memo) (o : obj) :
  m ⊆ m' → Forall (val_in (dom m)) (obj_vals o) →
  rename_obj m' o = rename_obj m o.
Proof.
  intros Hm. destruct o as [xs|kvs]; simpl; intros Hall; f_equal.
  - apply Forall_fmap_ext_1. eapply Forall_impl; [done|].
    intros x Hx. by apply rename_mono.
  - apply Forall_fmap_ext_1. rewrite Forall_fmap in Hall.
    eapply Forall_impl; [exact Hall|]. intros [k x] Hx. simpl in *.
    unfold prod_map. simpl. f_equal. by apply rename_mono.
Qed.

Lemma rename_val_in (m : memo) (D : gset loc) (x : hval) :
  val_in (dom m) x → (∀ l y, m !! l = Some y → y ∈ D) →
  val_in D (rename m x).
Proof.
  destruct x as [|l]; simpl; [done|]. intros [y Hy]%elem_of_dom Himg.
  rewrite Hy. simpl. eauto.
Qed.

Lemma obj_vals_rename (m : memo) (o : obj) :
  obj_vals (rename_obj m o) = rename m <$> obj_vals o.
Proof.
  destruct o as [xs|kvs]; simpl; [done|].
  rewrite <-!list_fmap_compose. by apply list_fmap_ext.
Qed.

Lemma dict_keys_rename (m : memo) (kvs : list (string * hval)) :
  dict_keys (prod_map id (rename m) <$> kvs) = dict_keys kvs.
Proof.
  unfold dict_keys. rewrite <-list_fmap_compose. by apply list_fmap_ext.
Qed.

Section deepcopy_facts.
(** The region [S] holds the objects about to be copied. *)
Variable S : gset loc.

Lemma inv_dom (m : memo) (h : heap) : inv S m h → S ⊆ dom h.
Proof.
  intros (HS & _ & _) l Hl. destruct (HS l Hl) as (o & Ho & _).
  by apply elem_of_dom.
Qed.

Lemma post_refl X m h : inv S m h → post S X m h m h.
Proof.
  intros Hinv. split; try done.
  - intros l y Hy Hn. congruence.
  - intros l1 l2 y Hy _ Hn. congruence.
Qed.

Lemma post_weaken X m h m' h' : post S ∅ m h m' h' → post S X m h m' h'.
Proof.
  intros []. split; try done. intros l Hl _. apply post_frame0; set_solver.
Qed.

Lemma post_trans X m h m1 h1 m2 h2 :
  inv S m h → X ⊆ dom h → X ## S →
  post S X m h m1 h1 → post S X m1 h1 m2 h2 → post S X m h m2 h2.
Proof.
  intros Hinv HX HXS [Hm1 Hf1 Hd1 Hn1 Hi1 Hj1 Hinv1] [Hm2 Hf2 Hd2 Hn2 Hi2 Hj2 Hinv2].
  split.
  - by etrans.
  - intros l Hl HlX. rewrite Hf2, Hf1; auto.
  - by etrans.
  - intros l y Hy Hn. destruct (m1 !! l) as [y1|] eqn:Hl1.
    + assert (y1 = y) as -> by (eapply lookup_weaken in Hl1; [|done]; congruence).
      destruct (Hn1 l y Hl1 Hn) as (Hfresh & o & Ho & Hall & Hy1).
      split; [done|]. exists o. split; [done|]. split.
      * eapply Forall_impl; [done|]. intros x.
        apply val_in_mono, subseteq_dom, Hm2.
      * rewrite Hf2.
        -- rewrite Hy1. f_equal. symmetry. by apply rename_obj_mono.
        -- apply elem_of_dom. eauto.
        -- set_solver.
    + destruct (Hn2 l y Hy Hl1) as (Hfresh & o & Ho & Hall & Hy2).
      split; [set_solver|]. exists o. split; [|done].
      rewrite <-Ho. symmetry. apply Hf1.
      * apply (inv_dom _ _ Hinv). destruct Hinv2 as (_ & Hdom & _).
        apply Hdom, elem_of_dom. eauto.
      * destruct Hinv2 as (_ & Hdom & _).
        assert (l ∈ S) by (apply Hdom, elem_of_dom; eauto). set_solver.
  - intros y Hy Hn. destruct (decide (y ∈ dom h1)) as [Hy1|Hy1].
    + destruct (Hi1 y Hy1 Hn) as (l & Hl & Hnl). exists l. split; [|done].
      by eapply lookup_weaken.
    + destruct (Hi2 y Hy Hy1) as (l & Hl & Hnl). exists l. split; [done|].
      destruct (m !! l) eqn:E; [|done].
      eapply lookup_weaken in E; [|done]. congruence.
  - intros l1 l2 y Hy1 Hy2 Hn.
    destruct (m1 !! l1) as [y1|] eqn:Hl1; [|by eapply Hj2].
    assert (y1 = y) as -> by (eapply lookup_weaken in Hl1; [|done]; congruence).
    destruct (m1 !! l2) as [y2|] eqn:Hl2.
    + assert (y2 = y) as -> by (eapply lookup_weaken in Hl2; [|done]; congruence).
      by eapply Hj1.
    + symmetry. by eapply Hj2.
  - done.
Qed.

Lemma inv_insert m h y o : y ∉ S → inv S m h → inv S m (<[y := o]> h).
Proof.
  intros Hy (HS & Hdom & Himg). split; [|split; [done|]].
  - intros l Hl. rewrite lookup_insert_ne by set_solver. auto.
  - intros l y' Hl. rewrite dom_insert_L. set_solver.
Qed.

Lemma post_mutate X m h y o :
  y ∈ X → y ∉ S → y ∈ dom h → inv S m h → post S X m h m (<[y := o]> h).
Proof.
  intros HyX HyS Hyh Hinv. split; try done.
  - intros l Hl HlX. rewrite lookup_insert_ne; [done|set_solver].
  - rewrite dom_insert_L. set_solver.
  - intros l y' Hy' Hn. congruence.
  - intros y'. rewrite dom_insert_L. set_solver.
  - intros l1 l2 y' Hy' _ Hn. congruence.
  - by apply inv_insert.
Qed.

Lemma size_memo_mono (m m' : memo) (n : nat) :
  m ⊆ m' → size (S ∖ dom m) ≤ n → size (S ∖ dom m') ≤ n.
Proof.
  intros Hm Hn. etrans; [|done]. apply subseteq_size.
  apply subseteq_dom in Hm. set_solver.
Qed.

Lemma copy_loop_ok {A} n go (put : A → hval → obj → option obj) y items :
  copies S n go → y ∉ S →
  ∀ m h oy,
    inv S m h → size (S ∖ dom m) ≤ n → Forall (val_in S) items.*2 →
    h !! y = Some oy → (∀ its, is_Some (put_all put its oy)) →
    ∃ m' h' oy',
      copy_loop go put y items m h = Some (m', h') ∧
      post S {[y]} m h m' h' ∧
      h' !! y = Some oy' ∧
      put_all put (prod_map id (rename m') <$> items) oy = Some oy' ∧
      Forall (val_in (dom m')) items.*2.
Proof.
  intros Hgo HyS. induction items as [|[k a] rest IH];
    intros m h oy Hinv Hsize Hall Hy Hput.
  { exists m, h, oy. split; [done|]. split; [by apply post_refl|done]. }
  rewrite fmap_cons in Hall. apply Forall_cons in Hall as [Ha Hall].
  destruct (Hgo a m h Hinv Ha Hsize) as (a' & m1 & h1 & Hcall & Hp1 & -> & Ha1).
  assert (Hyh : y ∈ dom h) by (apply elem_of_dom; eauto).
  assert (Hy1 : h1 !! y = Some oy).
  { rewrite (post_frame _ _ _ _ _ _ Hp1); [done..|set_solver]. }
  destruct (Hput [(k, rename m1 a)]) as [o1 Ho1]. simpl in Ho1.
  destruct (put k (rename m1 a) oy) as [o1'|] eqn:Hput1; [|done].
  simpl in Ho1. injection Ho1 as ->.
  destruct (IH m1 (<[y := o1]> h1) o1) as (m' & h' & oy' & Hloop & Hp2 & Hy' & Hall' & Hin).
  { apply inv_insert; [done|]. apply Hp1. }
  { eapply size_memo_mono; [apply Hp1|done]. }
  { done. }
  { by rewrite lookup_insert_eq. }
  { intros its. specialize (Hput ((k, rename m1 a) :: its)).
    simpl in Hput. by rewrite Hput1 in Hput. }
  exists m', h', oy'. split; [|split; [|split; [|split]]].
  - simpl. rewrite Hcall. simpl. rewrite Hy1. simpl. rewrite Hput1. simpl.
    done.
  - assert (Hyd1 : y ∈ dom h1) by (apply elem_of_dom; eauto).
    eapply post_trans; [done|set_solver|set_solver|by apply post_weaken|].
    eapply post_trans; [apply Hp1|set_solver|set_solver| |done].
    apply post_mutate; [set_solver|done|done|apply Hp1].
  - done.
  - rewrite fmap_cons. simpl.
    rewrite (rename_mono m1 m'); [|apply Hp2|done].
    by rewrite Hput1.
  - rewrite fmap_cons. apply Forall_cons. split; [|done]. simpl.
    eapply val_in_mono; [|done]. apply subseteq_dom, Hp2.
Qed.
End deepcopy_facts.

Lemma put_all_append (xs ys : list hval) :
  put_all (λ _ : unit, append) ((λ a, ((), a)) <$> xs) (OList ys)
  = Some (OList (ys ++ xs)).
Proof.
  revert ys. induction xs as [|x xs IH]; intros ys; simpl.
  - by rewrite app_nil_r.
  - rewrite IH. by rewrite <-app_assoc.
Qed.

Lemma put_all_append_Some (its : list (unit * hval)) (ys : list hval) :
  is_Some (put_all (λ _ : unit, append) its (OList ys)).
Proof.
  revert ys. induction its as [|[[] x] its IH]; intros ys; simpl; [by eexists|].
  apply IH.
Qed.

Lemma put_all_setitem (kvs d : list (string * hval)) :
  put_all setitem kvs (ODict d) = Some (ODict (dict_update d kvs)).
Proof.
  revert d. induction kvs as [|[k v] kvs IH]; intros d; simpl; [done|].
  by rewrite IH.
Qed.

Section dict_more.
Context {V : Type}.
Implicit Types (d e : list (string * V)) (k : string) (v : V).

Lemma dict_set_fresh k v d : k ∉ dict_keys d → dict_set k v d = d ++ [(k, v)].
Proof.
  induction d as [|[k' v'] d IH]; simpl; [done|].
  change (dict_keys ((k', v') :: d)) with (k' :: dict_keys d).
  intros Hk. destruct (String.eqb k k') eqn:E.
  - apply String.eqb_eq in E. set_solver.
  - rewrite IH; [done|set_solver].
Qed.

Lemma dict_update_fresh d e :
  NoDup (dict_keys e) → (∀ k, k ∈ dict_keys e → k ∉ dict_keys d) →
  dict_update d e = d ++ e.
Proof.
  unfold dict_update. revert d.
  induction e as [|[k v] e IH]; intros d Hnd Hfresh; simpl.
  - by rewrite app_nil_r.
  - change (dict_keys ((k, v) :: e)) with (k :: dict_keys e) in *.
    apply NoDup_cons in Hnd as [Hk Hnd].
    rewrite dict_set_fresh by (apply Hfresh; set_solver).
    rewrite IH; [by rewrite <-app_assoc|done|].
    intros k' Hk'. unfold dict_keys. rewrite fmap_app. simpl.
    intros [?|?%list_elem_of_singleton]%elem_of_app.
    + eapply Hfresh; [|done]. set_solver.
    + set_solver.
Qed.

Lemma dict_del_set_fresh k v d :
  k ∉ dict_keys d → dict_del k (dict_set k v d) = d.
Proof.
  induction d as [|[k' v'] d IH]; simpl.
  - by rewrite String.eqb_refl.
  - change (dict_keys ((k', v') :: d)) with (k' :: dict_keys d).
    intros Hk. destruct (String.eqb k k') eqn:E.
    + apply String.eqb_eq in E. set_solver.
    + simpl. rewrite E, IH; [done|set_solver].
Qed.

Lemma dict_set_set k v d : dict_set k v (dict_set k v d) = dict_set k v d.
Proof.
  induction d as [|[k' v'] d IH]; simpl.
  - by rewrite String.eqb_refl.
  - destruct (String.eqb k k') eqn:E; simpl; rewrite E; [done|].
    by rewrite IH.
Qed.

Lemma dict_keys_del k d k' :
  k' ∈ dict_keys (dict_del k d) → k' ∈ dict_keys d.
Proof.
  induction d as [|[k0 v0] d IH]; simpl; [done|].
  change (dict_keys ((k0, v0) :: d)) with (k0 :: dict_keys d).
  destruct (String.eqb k k0); [set_solver|].
  change (dict_keys ((k0, v0) :: dict_del k d))
    with (k0 :: dict_keys (dict_del k d)).
  set_solver.
Qed.

Lemma dict_del_NoDup k d :
  NoDup (dict_keys d) → NoDup (dict_keys (dict_del k d)).
Proof.
  induction d as [|[k0 v0] d IH]; simpl; [done|].
  change (dict_keys ((k0, v0) :: d)) with (k0 :: dict_keys d).
  intros [Hk0 Hd]%NoDup_cons. destruct (String.eqb k k0); [done|].
  change (dict_keys ((k0, v0) :: dict_del k d))
    with (k0 :: dict_keys (dict_del k d)).
  apply NoDup_cons. split; [|auto]. intros ?%dict_keys_del. done.
Qed.

Lemma dict_del_absent k d : k ∉ dict_keys d → dict_del k d = d.
Proof.
  induction d as [|[k0 v0] d IH]; simpl; [done|].
  change (dict_keys ((k0, v0) :: d)) with (k0 :: dict_keys d).
  intros Hk. destruct (String.eqb k k0) eqn:E.
  - apply String.eqb_eq in E. set_solver.
  - rewrite IH; [done|set_solver].
Qed.

Lemma dict_has_del k d :
  NoDup (dict_keys d) → dict_has k (dict_del k d) = false.
Proof.
  intros Hnd. destruct (dict_has k (dict_del k d)) eqn:E; [|done].
  apply dict_has_keys in E. exfalso. revert Hnd E.
  induction d as [|[k0 v0] d IH]; simpl; [set_solver|].
  change (dict_keys ((k0, v0) :: d)) with (k0 :: dict_keys d).
  intros [Hk0 Hd]%NoDup_cons. destruct (String.eqb k k0) eqn:E.
  - apply String.eqb_eq in E. by subst.
  - apply String.eqb_neq in E.
    change (dict_keys ((k0, v0) :: dict_del k d))
      with (k0 :: dict_keys (dict_del k d)).
    set_solver.
Qed.
End dict_more.

Section deepcopy_total.
Variable S : gset loc.

Lemma inv_alloc m h l y o :
  inv S m h → l ∈ S → y ∉ dom h →
  inv S (<[l := y]> m) (<[y := o]> h).
Proof.
  intros Hinv Hl Hy. pose proof (inv_dom _ _ _ Hinv) as HS.
  destruct Hinv as (HSo & Hdom & Himg). split; [|split].
  - intros l' Hl'. rewrite lookup_insert_ne by set_solver. auto.
  - rewrite dom_insert_L. set_solver.
  - intros l' y' Hl'. rewrite dom_insert_L.
    apply lookup_insert_Some in Hl' as [[_ <-]|[_ Hl']]; [set_solver|].
    apply Himg in Hl'. set_solver.
Qed.

Lemma size_alloc (m : memo) l y n :
  l ∈ S → m !! l = None → size (S ∖ dom m) ≤ Datatypes.S n →
  size (S ∖ dom (<[l := y]> m)) ≤ n.
Proof.
  intros Hl Hm Hn. rewrite dom_insert_L.
  assert (S ∖ dom m ≡ {[l]} ∪ S ∖ ({[l]} ∪ dom m)) as Heq.
  { apply not_elem_of_dom in Hm. intros l'. split; [|set_solver].
    destruct (decide (l' = l)); set_solver. }
  rewrite Heq, size_union, size_singleton in Hn by set_solver. lia.
Qed.

(** The copy of the object at [l] is complete: the run that began with
    the empty copy [y] in the heap is a run from the heap without it. *)
Lemma post_alloc m h l o y oe m' h' :
  inv S m h → l ∈ S → m !! l = None → h !! l = Some o → y ∉ dom h →
  post S {[y]} (<[l := y]> m) (<[y := oe]> h) m' h' →
  h' !! y = Some (rename_obj m' o) →
  Forall (val_in (dom m')) (obj_vals o) →
  post S ∅ m h m' h'.
Proof.
  intros Hinv Hl Hm Ho Hy [Hm' Hf Hd Hn Hi Hj Hinv'] Hy' Hall.
  pose proof (inv_dom _ _ _ Hinv) as HS.
  assert (Hmm : m ⊆ m') by (etrans; [by apply insert_subseteq|done]).
  assert (Hly : m' !! l = Some y).
  { apply (lookup_weaken (<[l := y]> m)); [apply lookup_insert_eq|done]. }
  split.
  - done.
  - intros l' Hl' _. rewrite Hf.
    + apply lookup_insert_ne. set_solver.
    + rewrite dom_insert_L. set_solver.
    + set_solver.
  - etrans; [|done]. rewrite dom_insert_L. set_solver.
  - intros l' y' Hl' Hn'. destruct (decide (l' = l)) as [->|Hne].
    + assert (y' = y) as -> by congruence. split; [done|]. eauto.
    + destruct (Hn l' y' Hl') as (Hfresh & o' & Ho' & Hall' & Hy'').
      { by rewrite lookup_insert_ne. }
      split; [rewrite dom_insert_L in Hfresh; set_solver|].
      exists o'. split; [|done].
      rewrite lookup_insert_ne in Ho'; [done|].
      intros Heq. destruct Hinv' as (_ & Hdom & _).
      assert (l' ∈ S) by (apply Hdom, elem_of_dom; eauto).
      subst. set_solver.
  - intros y' Hy'' Hnew. destruct (decide (y' = y)) as [->|Hne]; [eauto|].
    destruct (Hi y' Hy'') as (l' & Hl' & Hnl').
    { rewrite dom_insert_L. set_solver. }
    exists l'. split; [done|].
    apply lookup_insert_None in Hnl'. tauto.
  - intros l1 l2 y' Hy1 Hy2 Hn1. destruct (decide (l1 = l)) as [->|Hne1].
    + assert (y' = y) as -> by congruence.
      destruct (decide (l2 = l)) as [->|Hne2]; [done|]. exfalso.
      destruct (m !! l2) as [y2|] eqn:Hl2.
      * assert (y2 = y) as ->
          by (eapply lookup_weaken in Hl2; [|done]; congruence).
        destruct Hinv as (_ & _ & Himg). apply Himg in Hl2. done.
      * destruct (Hn l2 y Hy2) as (Hfresh & _).
        { by rewrite lookup_insert_ne. }
        rewrite dom_insert_L in Hfresh. set_solver.
    + eapply Hj; [done..|]. by rewrite lookup_insert_ne.
  - done.
Qed.

(** [deepcopy] with fuel [n] copies whatever leaves at most [n] objects
    to copy. *)
Lemma deepcopy_copies n : copies S n (deepcopy n).
Proof.
  induction n as [|n IH]; intros x m h Hinv Hx Hsize.
  - destruct x as [a|l]; simpl.
    + exists (HAtom a), m, h. split; [done|]. split; [by apply post_refl|done].
    + destruct (m !! l) as [y|] eqn:Hl.
      * exists (HRef y), m, h. split; [done|]. split; [by apply post_refl|].
        simpl. rewrite Hl. split; [done|]. apply elem_of_dom. eauto.
      * exfalso. apply not_elem_of_dom in Hl.
        assert (size (S ∖ dom m) ≠ 0); [|lia].
        apply size_non_empty_iff. simpl in Hx. set_solver.
  - destruct x as [a|l]; simpl.
    + exists (HAtom a), m, h. split; [done|]. split; [by apply post_refl|done].
    + destruct (m !! l) as [y|] eqn:Hl.
      * exists (HRef y), m, h. split; [done|]. split; [by apply post_refl|].
        simpl. rewrite Hl. split; [done|]. apply elem_of_dom. eauto.
      * simpl in Hx. pose proof Hinv as (HS & _ & _).
        destruct (HS l Hx) as (o & Ho & Hall & Hnd). rewrite Ho. simpl.
        set (y := fresh (dom h)).
        assert (Hy : y ∉ dom h) by apply is_fresh.
        assert (HyS : y ∉ S).
        { intros HyS. by apply (inv_dom _ _ _ Hinv) in HyS. }
        destruct o as [xs|kvs]; simpl in Hall.
        -- destruct (copy_loop_ok S n (deepcopy n) (λ _ : unit, append) y
                       ((λ a, ((), a)) <$> xs) IH HyS
                       (<[l := y]> m) (<[y := OList []]> h) (OList []))
             as (m' & h' & oy' & Hloop & Hp & Hy' & Hput & Hin).
           { by apply inv_alloc. }
           { by apply size_alloc. }
           { rewrite <-list_fmap_compose. by rewrite list_fmap_id. }
           { apply lookup_insert_eq. }
           { intros its. apply put_all_append_Some. }
           rewrite Hloop. simpl. exists (HRef y), m', h'.
           rewrite <-list_fmap_compose in Hin.
           rewrite list_fmap_id in Hin.
           assert (Hly : m' !! l = Some y).
           { apply (lookup_weaken (<[l := y]> m));
               [apply lookup_insert_eq|apply Hp]. }
           split; [done|]. split; [|split].
           ++ eapply post_alloc; try done.
              rewrite Hy'. f_equal.
              rewrite <-list_fmap_compose in Hput.
              rewrite (list_fmap_compose (rename m') (λ a, ((), a))) in Hput.
              rewrite put_all_append in Hput. by injection Hput as <-.
           ++ simpl. by rewrite Hly.
           ++ simpl. apply elem_of_dom. eauto.
        -- destruct (copy_loop_ok S n (deepcopy n) setitem y kvs IH HyS
                       (<[l := y]> m) (<[y := ODict []]> h) (ODict []))
             as (m' & h' & oy' & Hloop & Hp & Hy' & Hput & Hin).
           { by apply inv_alloc. }
           { by apply size_alloc. }
           { done. }
           { apply lookup_insert_eq. }
           { intros its. rewrite put_all_setitem. by eexists. }
           rewrite Hloop. simpl. exists (HRef y), m', h'.
           assert (Hly : m' !! l = Some y).
           { apply (lookup_weaken (<[l := y]> m));
               [apply lookup_insert_eq|apply Hp]. }
           split; [done|]. split; [|split].
           ++ eapply post_alloc; try done.
              rewrite Hy'. f_equal.
              rewrite put_all_setitem in Hput. injection Hput as <-.
              simpl. f_equal. apply dict_update_fresh.
              ** by rewrite dict_keys_rename.
              ** intros k _. apply not_elem_of_nil.
           ++ simpl. by rewrite Hly.
           ++ simpl. apply elem_of_dom. eauto.
Qed.
End deepcopy_total.

Lemma obj_wf_mono (D D' : gset loc) (o : obj) :
  D ⊆ D' → obj_wf D o → obj_wf D' o.
Proof.
  intros HD [Hall Hnd]. split; [|done].
  eapply Forall_impl; [done|]. intros x. by apply val_in_mono.
Qed.

Lemma copy_deepcopy_spec (x : hval) (h : heap) :
  heap_wf h → val_in (dom h) x →
  ∃ y m h', copy_deepcopy x h = Some (Ok y, h') ∧ deepcopied x h y m h'.
Proof.
  intros Hwf Hx.
  assert (Hinv : inv (dom h) ∅ h).
  { split; [|split].
    - intros l [o Ho]%elem_of_dom. eauto.
    - set_solver.
    - intros l y Hl. by rewrite lookup_empty in Hl. }
  destruct (deepcopy_copies (dom h) (size h) x ∅ h Hinv Hx)
    as (y & m & h' & Hcall & [Hm Hf Hd Hn Hi Hj Hinv'] & Hy & Hxm).
  { rewrite dom_empty_L, difference_empty_L. by rewrite size_dom. }
  exists y, m, h'. split.
  { unfold copy_deepcopy. by rewrite Hcall. }
  assert (Hcopied : copied m h h').
  { intros l y' Hl. destruct (Hn l y' Hl) as (_ & o & ?); [apply lookup_empty|].
    eauto. }
  split; try done.
  - intros l o Hl. destruct (decide (l ∈ dom h)) as [Hold|Hnew].
    + rewrite Hf in Hl by set_solver. eapply obj_wf_mono; [done|]. eauto.
    + destruct (Hi l) as (l0 & Hl0 & _); [by apply elem_of_dom|done|].
      destruct (Hcopied l0 l Hl0) as (o0 & Ho0 & Hall & Hl').
      assert (o = rename_obj m o0) as -> by congruence.
      destruct (Hwf l0 o0 Ho0) as [_ Hnd]. split.
      * rewrite obj_vals_rename. apply Forall_fmap.
        eapply Forall_impl; [done|]. intros v Hv. simpl.
        apply rename_val_in; [done|]. apply Hinv'.
      * destruct o0 as [|kvs]; simpl; [done|]. by rewrite dict_keys_rename.
  - intros l y' Hl. apply (Hn l y' Hl). apply lookup_empty.
  - intros l1 l2 y' H1 H2. eapply Hj; [done..|apply lookup_empty].
  - intros y' H1 H2. destruct (Hi y' H1 H2) as (l & ? & _). eauto.
Qed.

(** *** Reading values back *)

Lemma mapM_fmap_ext {A B C} (f : B → option C) (g : A → option C)
    (r : A → B) (l : list A) :
  Forall (λ x, f (r x) = g x) l → mapM f (r <$> l) = mapM g l.
Proof.
  induction 1 as [|x l Hx _ IH]; [done|]. rewrite fmap_cons.
  change (mapM f (r x :: (r <$> l)))
    with (y ← f (r x); k ← mapM f (r <$> l); mret (y :: k)).
  change (mapM g (x :: l)) with (y ← g x; k ← mapM g l; mret (y :: k)).
  by rewrite Hx, IH.
Qed.

Lemma reify_copied (m : memo) (h h' : heap) :
  copied m h h' →
  ∀ n x, val_in (dom m) x → reify n h' (rename m x) = reify n h x.
Proof.
  intros Hc n. induction n as [|n IH]; intros [a|l]; simpl; try done.
  - intros [y Hy]%elem_of_dom. by rewrite Hy.
  - intros [y Hy]%elem_of_dom. rewrite Hy. simpl.
    destruct (Hc l y Hy) as (o & -> & Hall & ->).
    destruct o as [xs|kvs]; simpl in *; f_equal.
    + apply mapM_fmap_ext. eapply Forall_impl; [done|]. intros x. apply IH.
    + apply mapM_fmap_ext. rewrite Forall_fmap in Hall.
      eapply Forall_impl; [exact Hall|]. intros [k v] Hv.
      unfold item_map. simpl in *. by rewrite IH.
Qed.

Lemma reify_frame (h h' : heap) :
  heap_wf h → frame ∅ h h' →
  ∀ n x, val_in (dom h) x → reify n h' x = reify n h x.
Proof.
  intros Hwf Hf n. induction n as [|n IH]; intros [a|l]; simpl; try done.
  intros Hl. rewrite Hf by set_solver.
  apply elem_of_dom in Hl as [o Ho]. rewrite Ho.
  destruct (Hwf l o Ho) as [Hall _].
  destruct o as [xs|kvs]; simpl in *; f_equal.
  - apply Forall_mapM_ext. eapply Forall_impl; [done|]. intros x. apply IH.
  - apply Forall_mapM_ext. rewrite Forall_fmap in Hall.
    eapply Forall_impl; [exact Hall|]. intros [k v] Hv.
    unfold item_map. simpl in *. by rewrite IH.
Qed.

(** *** Equality of finite values *)

Lemma value_ind_nested (P : value → Prop) :
  (∀ a, P (VAtom a)) →
  (∀ xs, Forall P xs → P (VList xs)) →
  (∀ kvs, Forall (λ kv, P kv.2) kvs → P (VDict kvs)) →
  (∀ f, P (VFloat f)) →
  ∀ v, P v.
Proof.
  intros Hatom Hlist Hdict Hfloat. fix IH 1. intros [a|xs|kvs|f];
    [| | |apply Hfloat].
  - apply Hatom.
  - apply Hlist. induction xs as [|x xs IHxs]; constructor; [apply IH|done].
  - apply Hdict. induction kvs as [|[k v] kvs IHkvs]; constructor;
      [apply IH|done].
Qed.

Lemma atom_eqb_refl (a : atom) : atom_eqb a a = true.
Proof.
  destruct a as [|b|z|s]; simpl; [done|by destruct b|apply Z.eqb_refl|
    apply String.eqb_refl].
Qed.

Lemma dict_get_NoDup {V} (d : list (string * V)) (k : string) (v : V) :
  NoDup (dict_keys d) → (k, v) ∈ d → dict_get k d = Some v.
Proof.
  induction d as [|[k' v'] d IH]; simpl; [by intros _ ?%elem_of_nil|].
  change (dict_keys ((k', v') :: d)) with (k' :: dict_keys d).
  intros [Hk' Hd]%NoDup_cons [[= -> ->]|Hin]%elem_of_cons.
  - by rewrite String.eqb_refl.
  - destruct (String.eqb k k') eqn:E; [|auto].
    apply String.eqb_eq in E. subst k'. exfalso. apply Hk'.
    unfold dict_keys. apply list_elem_of_fmap. by exists (k, v).
Qed.

Lemma dict_eqb_items (e d : list (string * value)) :
  Forall (λ kv, ∃ w, dict_get kv.1 e = Some w ∧ value_eqb kv.2 w = true) d →
  (fix go (d : list (string * value)) : bool :=
     match d with
     | [] => true
     | (k, v) :: d' =>
         match dict_get k e with
         | Some w => value_eqb v w
         | None => false
         end && go d'
     end) d = true.
Proof.
  induction 1 as [|[k v] d (w & Hw & Hvw) _ IH]; [done|].
  simpl in Hw, Hvw. rewrite Hw, Hvw. exact IH.
Qed.

Lemma value_eqb_refl (v : value) : value_wf v → value_eqb v v = true.
Proof.
  induction v as [a|xs IH|kvs IH|f] using value_ind_nested; intros Hwf;
    [| | |by inversion Hwf].
  - destruct a as [|b|z|s]; simpl;
      [done|by destruct b|apply Z.eqb_refl|apply String.eqb_refl].
  - inversion_clear Hwf as [|? Hall|]. simpl.
    induction IH as [|x xs Hx _ IHxs]; [done|].
    apply Forall_cons in Hall as [Hwx Hall]. by rewrite Hx, IHxs.
  - inversion_clear Hwf as [| |? Hnd Hall]. simpl.
    rewrite Nat.eqb_refl. simpl. apply dict_eqb_items.
    apply Forall_forall. intros [k v] Hkv. exists v. simpl. split.
    + by apply dict_get_NoDup.
    + rewrite Forall_forall in IH, Hall. by apply (IH (k, v)), (Hall (k, v)).
Qed.

Lemma reify_wf (h : heap) :
  heap_wf h → ∀ n x v, reify n h x = Some v → value_wf v.
Proof.
  intros Hwf n. induction n as [|n IH]; intros [a|l] v; simpl; try done.
  - intros [= <-]. constructor.
  - intros [= <-]. constructor.
  - destruct (h !! l) as [[xs|kvs]|] eqn:Hl; [| |done].
    + destruct (mapM (reify n h) xs) as [vs|] eqn:Hvs; [|done].
      intros [= <-]. constructor. apply mapM_Some in Hvs.
      eapply Forall2_Forall_r; [done|]. apply Forall_forall. eauto.
    + destruct (mapM _ kvs) as [kws|] eqn:Hkws; [|done].
      intros [= <-]. apply mapM_Some in Hkws.
      destruct (Hwf l _ Hl) as [_ Hnd]. constructor.
      * assert (dict_keys kws = dict_keys kvs) as ->; [|done].
        unfold dict_keys. clear Hnd Hl.
        induction Hkws as [|[k x] [k' w] kvs kws Hkw _ IHk]; [done|].
        unfold item_map in Hkw. simpl in *. destruct (reify n h x); [|done].
        injection Hkw as -> _. by f_equal.
      * eapply Forall2_Forall_r; [done|]. apply Forall_forall.
        intros [k x] _ [k' w] Hx. unfold item_map in Hx. simpl in *.
        destruct (reify n h x) as [w'|] eqn:Hx'; [|done].
        injection Hx as _ <-. eauto.
Qed.

Lemma py_eq_same (n : nat) (h : heap) (a b : hval) (v : value) :
  heap_wf h → reify n h a = Some v → reify n h b = Some v →
  py_eq n h a b = Some true.
Proof.
  intros Hwf Ha Hb. unfold py_eq. rewrite Ha, Hb. simpl.
  f_equal. apply value_eqb_refl. by eapply reify_wf.
Qed.

(** *** Fuel *)

Lemma mapM_impl {A B} (f g : A → option B) (l : list A) (k : list B) :
  (∀ x y, x ∈ l → f x = Some y → g x = Some y) →
  mapM f l = Some k → mapM g l = Some k.
Proof.
  intros Hfg Hf. apply mapM_Some. apply mapM_Some in Hf.
  induction Hf as [|x y l k Hxy _ IH]; constructor.
  - apply Hfg; [set_solver|done].
  - apply IH. intros x' y' Hx'. apply Hfg. set_solver.
Qed.

Lemma item_map_impl (n n' : nat) (h h' : heap) (kv : string * hval) kw :
  (∀ v, reify n h kv.2 = Some v → reify n' h' kv.2 = Some v) →
  item_map (reify n h) kv = Some kw → item_map (reify n' h') kv = Some kw.
Proof.
  unfold item_map. intros Himpl.
  destruct (reify n h kv.2) as [v|] eqn:Hv; [|done].
  by rewrite (Himpl v eq_refl).
Qed.

Lemma reify_S (n : nat) (h : heap) (x : hval) (v : value) :
  reify n h x = Some v → reify (S n) h x = Some v.
Proof.
  revert x v. induction n as [|n IH]; intros [a|l] v; try done.
  intros Hv. change (reify (S n) h (HRef l)) with
    (match h !! l with
     | Some (OList xs) => VList <$> mapM (reify n h) xs
     | Some (ODict kvs) => VDict <$> mapM (item_map (reify n h)) kvs
     | None => None
     end) in Hv.
  change (reify (S (S n)) h (HRef l)) with
    (match h !! l with
     | Some (OList xs) => VList <$> mapM (reify (S n) h) xs
     | Some (ODict kvs) => VDict <$> mapM (item_map (reify (S n) h)) kvs
     | None => None
     end).
  destruct (h !! l) as [[xs|kvs]|]; [| |done].
  - destruct (mapM (reify n h) xs) as [vs|] eqn:Hvs; [|done].
    erewrite mapM_impl; [done| |done]. intros x y _. apply IH.
  - destruct (mapM (item_map (reify n h)) kvs) as [kws|] eqn:Hkws; [|done].
    erewrite mapM_impl; [done| |done]. intros kv kw _.
    apply item_map_impl. apply IH.
Qed.

Lemma reify_mono (n n' : nat) (h : heap) (x : hval) (v : value) :
  n ≤ n' → reify n h x = Some v → reify n' h x = Some v.
Proof. induction 1; [done|]. intros Hv. by apply reify_S, IHle. Qed.

(** The least fuel that reads the object at [y] back. *)
Lemma reify_least (n : nat) (h : heap) (y : loc) (v : value) :
  reify n h (HRef y) = Some v →
  ∃ k, k < n ∧ reify (S k) h (HRef y) = Some v ∧ reify k h (HRef y) = None.
Proof.
  induction n as [|n IH]; [done|]. intros Hv.
  destruct (reify n h (HRef y)) as [w|] eqn:Hn.
  - assert (w = v) as -> by (apply reify_S in Hn; congruence).
    destruct (IH eq_refl) as (k & ? & ? & ?). exists k. split; [lia|done].
  - exists n. split; [lia|done].
Qed.

(** Reading [x] back does not look at an object that the same fuel cannot
    read back. *)
Lemma reify_insert_unread (n : nat) (h : heap) (y : loc) (o : obj) :
  reify n h (HRef y) = None →
  ∀ x v, reify n h x = Some v → reify n (<[y := o]> h) x = Some v.
Proof.
  induction n as [|n IH]; intros Hy [a|l] v; try done.
  intros Hv. assert (l ≠ y) by congruence.
  assert (Hy' : reify n h (HRef y) = None).
  { destruct (reify n h (HRef y)) eqn:E; [|done].
    apply reify_S in E. congruence. }
  change (reify (S n) ?h (HRef l)) with
    (match h !! l with
     | Some (OList xs) => VList <$> mapM (reify n h) xs
     | Some (ODict kvs) => VDict <$> mapM (item_map (reify n h)) kvs
     | None => None
     end) in *.
  rewrite lookup_insert_ne by done.
  destruct (h !! l) as [[xs|kvs]|]; [| |done].
  - destruct (mapM (reify n h) xs) as [vs|] eqn:Hvs; [|done].
    erewrite mapM_impl; [done| |done]. intros x w _. by apply IH.
  - destruct (mapM (item_map (reify n h)) kvs) as [kws|] eqn:Hkws; [|done].
    erewrite mapM_impl; [done| |done]. intros kv kw _.
    apply item_map_impl. by apply IH.
Qed.

Lemma reify_dict_inv (n : nat) (h : heap) (x : loc) (d : dict) :
  reify n h (HRef x) = Some (VDict d) →
  ∃ k kvs, n = S k ∧ h !! x = Some (ODict kvs) ∧
           mapM (item_map (reify k h)) kvs = Some d.
Proof.
  destruct n as [|k]; [done|]. simpl.
  destruct (h !! x) as [[xs|kvs]|]; [| |done].
  - by destruct (mapM _ xs).
  - destruct (mapM _ kvs) as [d'|] eqn:Hd; [|done]. intros [= <-].
    by exists k, kvs.
Qed.

(** Replacing the dict at [y] by one whose items read back as [d']. *)
Lemma reify_replace (n : nat) (h : heap) (y : loc)
    (kvs' : list (string * hval)) (d d' : dict) :
  reify n h (HRef y) = Some (VDict d) →
  (∀ k kvs, h !! y = Some (ODict kvs) →
            mapM (item_map (reify k h)) kvs = Some d →
            mapM (item_map (reify k h)) kvs' = Some d') →
  reify n (<[y := ODict kvs']> h) (HRef y) = Some (VDict d').
Proof.
  intros Hy Hitems.
  destruct (reify_least _ _ _ _ Hy) as (k & Hk & HSk & Hnone).
  destruct (reify_dict_inv _ _ _ _ HSk) as (k' & kvs & [= <-] & Hkvs & Hd).
  apply (reify_mono (S k)); [lia|]. simpl. rewrite lookup_insert_eq.
  change (mapM _ kvs') with (mapM (item_map (reify k (<[y := ODict kvs']> h))) kvs').
  erewrite mapM_impl; [done| |by eapply Hitems].
  intros kv kw _. apply item_map_impl. by apply reify_insert_unread.
Qed.

Lemma reify_items_keys (n : nat) (h : heap) (kvs : list (string * hval))
    (d : dict) :
  mapM (item_map (reify n h)) kvs = Some d → dict_keys d = dict_keys kvs.
Proof.
  intros Hd. apply mapM_Some in Hd. unfold dict_keys.
  induction Hd as [|[k x] [k' w] kvs d Hkw _ IH]; [done|].
  unfold item_map in Hkw. simpl in *.
  destruct (reify n h x); [|done]. injection Hkw as -> _. by f_equal.
Qed.

Lemma reify_items_set (n : nat) (h : heap) (kvs : list (string * hval))
    (d : dict) (k : string) (a : atom) :
  mapM (item_map (reify n h)) kvs = Some d →
  mapM (item_map (reify n h)) (dict_set k (HAtom a) kvs)
  = Some (dict_set k (VAtom a) d).
Proof.
  intros Hd. apply mapM_Some. apply mapM_Some in Hd.
  induction Hd as [|[k0 x] [k1 w] kvs d Hkw Hd IH]; simpl.
  - constructor; [|constructor]. unfold item_map. simpl. by destruct n.
  - assert (k1 = k0) as ->.
    { unfold item_map in Hkw. simpl in Hkw.
      destruct (reify n h x); [|done]. by injection Hkw as ->. }
    destruct (String.eqb k k0); constructor; try done.
    unfold item_map. simpl. by destruct n.
Qed.

Lemma reify_items_del (n : nat) (h : heap) (kvs : list (string * hval))
    (d : dict) (k : string) :
  mapM (item_map (reify n h)) kvs = Some d →
  mapM (item_map (reify n h)) (dict_del k kvs) = Some (dict_del k d).
Proof.
  intros Hd. apply mapM_Some. apply mapM_Some in Hd.
  induction Hd as [|[k0 x] [k1 w] kvs d Hkw Hd IH]; simpl; [constructor|].
  assert (k1 = k0) as ->.
  { unfold item_map in Hkw. simpl in Hkw.
    destruct (reify n h x); [|done]. by injection Hkw as ->. }
  destruct (String.eqb k k0); [done|]. by constructor.
Qed.

(** *** The copy and what is done to it *)

(** After [copy.deepcopy], the copy at [y] is given new items [kvs'] made of
    atoms and of values the copy already had. *)
Lemma modified_copy (h h1 : heap) (x y : loc) (m : memo)
    (kvs kvs' : list (string * hval)) :
  heap_wf h → h !! x = Some (ODict kvs) →
  deepcopied (HRef x) h (HRef y) m h1 →
  NoDup (dict_keys kvs') →
  Forall (λ v, (∃ a, v = HAtom a) ∨ v ∈ (prod_map id (rename m) <$> kvs).*2)
    kvs'.*2 →
  let h' := <[y := ODict kvs']> h1 in
  h1 !! y = Some (ODict (prod_map id (rename m) <$> kvs)) ∧
  y ∉ dom h ∧ heap_wf h' ∧ frame ∅ h h' ∧ fresh_region h h' y.
Proof.
  intros Hwf Hx [Hy Hcov Hcop Hf Hwf1 Hfresh Hinj Hnew] Hnd Hvals h'.
  simpl in Hy, Hcov. apply elem_of_dom in Hcov as [y0 Hxy].
  rewrite Hxy in Hy. injection Hy as <-.
  destruct (Hcop x y Hxy) as (o & Hxo & Hall & Hy1).
  assert (o = ODict kvs) as -> by congruence. simpl in Hy1.
  assert (Hyh : y ∉ dom h) by eauto.
  assert (Hval : Forall (val_in (dom h1)) kvs'.*2).
  { destruct (Hwf1 y _ Hy1) as [Hall1 _]. simpl in Hall1.
    rewrite Forall_forall in Hall1. eapply Forall_impl; [exact Hvals|].
    intros v [[a ->]|Hv]; [done|auto]. }
  split; [done|]. split; [done|]. split; [|split].
  - intros l o. unfold h'. rewrite dom_insert_L.
    destruct (decide (l = y)) as [->|Hne].
    + rewrite lookup_insert_eq. intros [= <-]. split; [|done]. simpl.
      eapply Forall_impl; [exact Hval|]. intros v. apply val_in_mono.
      set_solver.
    + rewrite lookup_insert_ne by done. intros Hl.
      eapply obj_wf_mono; [|by eapply Hwf1]. set_solver.
  - intros l Hl _. unfold h'. rewrite lookup_insert_ne by set_solver.
    apply Hf; set_solver.
  - exists (map_img m). split; [|split].
    + apply elem_of_map_img. eauto.
    + apply elem_of_disjoint. intros l [l0 Hl0]%elem_of_map_img Hl.
      by eapply Hfresh.
    + assert (Himg : ∀ l0 o0, h !! l0 = Some o0 →
                Forall (val_in (dom m)) (obj_vals o0) →
                Forall (val_in (map_img m)) (obj_vals (rename_obj m o0))).
      { intros l0 o0 _ Hall0. rewrite obj_vals_rename. apply Forall_fmap.
        eapply Forall_impl; [done|]. intros v Hv. simpl.
        apply rename_val_in; [done|]. intros ???. apply elem_of_map_img.
        eauto. }
      intros l [l0 Hl0]%elem_of_map_img. unfold h'.
      destruct (decide (l = y)) as [->|Hne].
      * rewrite lookup_insert_eq. eexists. split; [done|]. simpl.
        specialize (Himg x _ Hxo Hall). simpl in Himg.
        rewrite Forall_forall in Himg. eapply Forall_impl; [exact Hvals|].
        intros v [[a ->]|Hv]; [done|auto].
      * rewrite lookup_insert_ne by done.
        destruct (Hcop l0 l Hl0) as (o0 & Hlo0 & Hall0 & Hl1).
        eexists. split; [done|]. by eapply Himg.
Qed.

Lemma dict_set_vals {V} (k : string) (v : V) (d : list (string * V)) (w : V) :
  w ∈ (dict_set k v d).*2 → w = v ∨ w ∈ d.*2.
Proof.
  induction d as [|[k' v'] d IH]; simpl.
  - intros ?%list_elem_of_singleton. by left.
  - destruct (String.eqb k k'); simpl; set_solver.
Qed.

Lemma dict_del_vals {V} (k : string) (d : list (string * V)) (w : V) :
  w ∈ (dict_del k d).*2 → w ∈ d.*2.
Proof.
  induction d as [|[k' v'] d IH]; simpl; [done|].
  destruct (String.eqb k k'); simpl; set_solver.
Qed.

Lemma dict_has_rename (m : memo) (k : string) (kvs : list (string * hval)) :
  dict_has k (prod_map id (rename m) <$> kvs) = dict_has k kvs.
Proof.
  unfold dict_has. induction kvs as [|[k' v'] kvs IH]; simpl; [done|].
  by destruct (String.eqb k k').
Qed.

Lemma copy_of_dict (h : heap) (x : loc) (n : nat) (d : dict) :
  heap_wf h → reify n h (HRef x) = Some (VDict d) →
  ∃ kvs y m h1,
    h !! x = Some (ODict kvs) ∧
    copy_deepcopy (HRef x) h = Some (Ok (HRef y), h1) ∧
    deepcopied (HRef x) h (HRef y) m h1 ∧
    h1 !! x = Some (ODict kvs) ∧
    h1 !! y = Some (ODict (prod_map id (rename m) <$> kvs)) ∧
    NoDup (dict_keys kvs) ∧ dict_keys d = dict_keys kvs ∧
    reify n h1 (HRef y) = Some (VDict d).
Proof.
  intros Hwf Hd.
  destruct (reify_dict_inv _ _ _ _ Hd) as (k & kvs & -> & Hx & Hkvs).
  assert (Hxin : val_in (dom h) (HRef x)) by (apply elem_of_dom; eauto).
  destruct (copy_deepcopy_spec (HRef x) h Hwf Hxin)
    as (y0 & m & h1 & Hcall & Hdc).
  pose proof Hdc as [Hy Hcov Hcop Hf _ _ _ _].
  simpl in Hy, Hcov. apply elem_of_dom in Hcov as [y Hxy].
  rewrite Hxy in Hy. subst y0.
  destruct (Hcop x y Hxy) as (o & Hxo & Hall & Hy1).
  assert (o = ODict kvs) as -> by congruence.
  exists kvs, y, m, h1. repeat (split; [done|]).
  split; [rewrite Hf; [done|by apply elem_of_dom|set_solver]|].
  split; [done|]. split; [apply (Hwf x _ Hx)|].
  split; [by eapply reify_items_keys|].
  rewrite <-Hd.
  replace (HRef y) with (rename m (HRef x)) by (simpl; by rewrite Hxy).
  apply reify_copied; [done|]. apply elem_of_dom. eauto.
Qed.

(** [preserve_action] refines [dict_set "preserve" True] on the mapping
    read back. *)
Lemma preserve_action_spec (h : heap) (x : loc) (n : nat) (d : dict) :
  heap_wf h → reify n h (HRef x) = Some (VDict d) →
  ∃ y h',
    preserve_action (HRef x) h = Some (Ok (HRef y), h') ∧
    returns_copy h n (dict_set "preserve" (VBool true) d) y h'.
Proof.
  intros Hwf Hd.
  destruct (copy_of_dict h x n d Hwf Hd)
    as (kvs & y & m & h1 & Hx & Hcall & Hdc & Hx1 & Hy1 & Hnd & Hkeys & Hyd).
  set (kvs1 := prod_map id (rename m) <$> kvs) in *.
  set (kvs' := dict_set "preserve" (HAtom (ABool true)) kvs1).
  exists y, (<[y := ODict kvs']> h1). split.
  { unfold preserve_action, mbind, M_bind. rewrite Hcall.
    unfold update. rewrite Hy1. done. }
  destruct (modified_copy h h1 x y m kvs kvs' Hwf Hx Hdc)
    as (_ & Hfresh & Hwf' & Hf & Hreg).
  { apply dict_keys_set_NoDup. unfold kvs1. by rewrite dict_keys_rename. }
  { apply Forall_forall. intros v [->|Hv]%dict_set_vals; eauto. }
  split; [done|]. split; [done|]. split; [done|]. split; [done|].
  eapply reify_replace; [done|]. intros k kvs0 Hkvs0 Hitems.
  assert (kvs0 = kvs1) as -> by congruence.
  by apply reify_items_set.
Qed.

(** [release_action] refines [dict_del "preserve"] on the mapping read
    back. *)
Lemma release_action_spec (h : heap) (x : loc) (n : nat) (d : dict) :
  heap_wf h → reify n h (HRef x) = Some (VDict d) →
  ∃ y h',
    release_action (HRef x) h = Some (Ok (HRef y), h') ∧
    returns_copy h n (dict_del "preserve" d) y h'.
Proof.
  intros Hwf Hd.
  destruct (copy_of_dict h x n d Hwf Hd)
    as (kvs & y & m & h1 & Hx & Hcall & Hdc & Hx1 & Hy1 & Hnd & Hkeys & Hyd).
  set (kvs1 := prod_map id (rename m) <$> kvs) in *.
  destruct (dict_has "preserve" kvs) eqn:Hhas.
  - set (kvs' := dict_del "preserve" kvs1).
    exists y, (<[y := ODict kvs']> h1). split.
    { unfold release_action, mbind, M_bind. rewrite Hcall.
      unfold contains. rewrite Hx1, Hhas. unfold delitem. rewrite Hy1.
      unfold kvs1. by rewrite dict_has_rename, Hhas. }
    destruct (modified_copy h h1 x y m kvs kvs' Hwf Hx Hdc)
      as (_ & Hfresh & Hwf' & Hf & Hreg).
    { apply dict_del_NoDup. unfold kvs1. by rewrite dict_keys_rename. }
    { apply Forall_forall. intros v Hv%dict_del_vals. eauto. }
    split; [done|]. split; [done|]. split; [done|]. split; [done|].
    eapply reify_replace; [done|]. intros k kvs0 Hkvs0 Hitems.
    assert (kvs0 = kvs1) as -> by congruence.
    by apply reify_items_del.
  - exists y, h1. split.
    { unfold release_action, mbind, M_bind. rewrite Hcall.
      unfold contains. by rewrite Hx1, Hhas. }
    destruct (modified_copy h h1 x y m kvs kvs1 Hwf Hx Hdc)
      as (_ & Hfresh & Hwf' & Hf & Hreg).
    { unfold kvs1. by rewrite dict_keys_rename. }
    { apply Forall_forall. eauto. }
    rewrite insert_id in Hwf', Hf, Hreg by done.
    split; [done|]. split; [done|]. split; [done|]. split; [done|].
    rewrite dict_del_absent; [done|]. rewrite Hkeys.
    intros Hin%dict_has_keys. congruence.
Qed.

Lemma serialized_no_preserve (d : dict) :
  serialized d → "preserve" ∉ dict_keys d.
Proof.
  intros [[a Ha]|(v & options & self & Hc & Hg)].
  - destruct a as [i pt mo se w|p pn o s f i|bn bd cd i|p f i|p pa i];
      simpl in Ha;
      try (destruct (Storage.get_action_id p); simpl in Ha; [|done]);
      try destruct (truthy w);
      injection Ha as <-; by apply not_elem_of_strings.
  - destruct (get_constructed v options self Hc) as [Hd' _].
    rewrite Hd' in Hg. injection Hg as <-.
    intros [[]%elem_of_nil|[_ Hin]]%fold_keep_keys.
    revert Hin. apply not_elem_of_strings. by destruct v.
Qed.

Lemma reify_ref_dom (n : nat) (h : heap) (y : loc) (v : value) :
  reify n h (HRef y) = Some v → y ∈ dom h.
Proof.
  destruct n; [done|]. simpl. destruct (h !! y) eqn:E; [|done].
  intros _. apply elem_of_dom. eauto.
Qed.

Lemma frame_unchanged (h h' : heap) :
  frame ∅ h h' → ∀ l o, h !! l = Some o → h' !! l = Some o.
Proof.
  intros Hf l o Hl. rewrite Hf; [done| |set_solver]. apply elem_of_dom. eauto.
Qed.

Lemma dict_del_del {V} (k : string) (d : list (string * V)) :
  NoDup (dict_keys d) → dict_del k (dict_del k d) = dict_del k d.
Proof.
  intros Hnd. apply dict_del_absent. intros Hin%dict_has_keys.
  by rewrite dict_has_del in Hin.
Qed.

(** C5: release(preserve(x)) == x for a serialized action mapping x;
    release of a mapping without the key "preserve" returns an equal
    mapping and does not raise; preserve and release leave every object
    of the heap as it was, the input mapping among them, and what they
    return shares no object with it. *)
Theorem release_preserve_inverse (h : heap) (x : loc) (n : nat) (d : dict) :
  heap_wf h → reify n h (HRef x) = Some (VDict d) →
  (serialized d →
   ∃ y h1 z h2,
     preserve_action (HRef x) h = Some (Ok (HRef y), h1) ∧
     release_action (HRef y) h1 = Some (Ok (HRef z), h2) ∧
     py_eq n h2 (HRef z) (HRef x) = Some true) ∧
  ("preserve" ∉ dict_keys d →
   ∃ z h',
     release_action (HRef x) h = Some (Ok (HRef z), h') ∧
     py_eq n h' (HRef z) (HRef x) = Some true) ∧
  (∃ y h',
     preserve_action (HRef x) h = Some (Ok (HRef y), h') ∧
     (∀ l o, h !! l = Some o → h' !! l = Some o) ∧
     reify n h' (HRef x) = Some (VDict d) ∧
     fresh_region h h' y) ∧
  (∃ z h',
     release_action (HRef x) h = Some (Ok (HRef z), h') ∧
     (∀ l o, h !! l = Some o → h' !! l = Some o) ∧
     reify n h' (HRef x) = Some (VDict d) ∧
     fresh_region h h' z).
Proof.
  intros Hwf Hd.
  assert (Hx : val_in (dom h) (HRef x)) by by eapply reify_ref_dom.
  destruct (preserve_action_spec h x n d Hwf Hd)
    as (y & h1 & Hp & Hy & Hwf1 & Hf1 & Hreg1 & Hyd).
  destruct (release_action_spec h x n d Hwf Hd)
    as (z & h1' & Hr & Hz & Hwf1' & Hf1' & Hreg1' & Hzd).
  split; [|split; [|split]].
  - intros Hnp%serialized_no_preserve.
    destruct (release_action_spec h1 y n _ Hwf1 Hyd)
      as (z2 & h2 & Hr2 & Hz2 & Hwf2 & Hf2 & Hreg2 & Hzd2).
    exists y, h1, z2, h2. split; [done|]. split; [done|].
    rewrite dict_del_set_fresh in Hzd2 by done.
    eapply py_eq_same; [done..|].
    rewrite (reify_frame h1 h2), (reify_frame h h1); try done.
    simpl. apply elem_of_dom. apply elem_of_dom in Hx as [o Ho].
    exists o. by eapply frame_unchanged.
  - intros Hnp. exists z, h1'. split; [done|].
    rewrite dict_del_absent in Hzd by done.
    eapply py_eq_same; [done..|]. by rewrite (reify_frame h h1').
  - exists y, h1. split; [done|]. split; [by apply frame_unchanged|].
    split; [by rewrite (reify_frame h h1)|done].
  - exists z, h1'. split; [done|]. split; [by apply frame_unchanged|].
    split; [by rewrite (reify_frame h h1')|done].
Qed.

(** preserve({"id": "sda", ...}) on the heap that holds the serialization of
    the disk: the result reads back with the key "preserve", and the input
    reads back as before. *)
Example preserve_sda :
  match preserve_action (HRef 1%positive) sda_heap with
  | Some (Ok y, h') => Some (reify 1 h' y, reify 1 h' (HRef 1%positive))
  | _ => None
  end
  = Some (Some (VDict (sda_mapping ++ [("preserve", VBool true)])),
          Some (VDict sda_mapping)).
Proof. vm_compute. reflexivity. Qed.

(** A list that is held twice is copied once, and a dict that contains
    itself is copied into a dict that contains itself. *)
Example deepcopy_shared_and_cyclic :
  let h : heap :=
    <[1%positive := ODict [("a", HRef 2%positive); ("b", HRef 2%positive);
                           ("me", HRef 1%positive)]]>
      {[2%positive := OList [HAtom (AInt 1)]]} in
  match copy_deepcopy (HRef 1%positive) h with
  | Some (Ok y, h') =>
      Some (y, h' !! 3%positive, h' !! 4%positive, h' !! 1%positive)
  | _ => None
  end
  = Some (HRef 3%positive,
          Some (ODict [("a", HRef 4%positive); ("b", HRef 4%positive);
                       ("me", HRef 3%positive)]),
          Some (OList [HAtom (AInt 1)]),
          Some (ODict [("a", HRef 2%positive); ("b", HRef 2%positive);
                       ("me", HRef 1%positive)])).
Proof. vm_compute. reflexivity. Qed.

Lemma release_preserve_inverse_witness :
  (∃ y h1 z h2,
     preserve_action (HRef 1%positive) sda_heap = Some (Ok (HRef y), h1) ∧
     release_action (HRef y) h1 = Some (Ok (HRef z), h2) ∧
     py_eq 1 h2 (HRef z) (HRef 1%positive) = Some true) ∧
  (∃ z h',
     release_action (HRef 1%positive) sda_heap = Some (Ok (HRef z), h') ∧
     py_eq 1 h' (HRef z) (HRef 1%positive) = Some true).
Proof.
  destruct (release_preserve_inverse sda_heap 1%positive 1 sda_mapping)
    as (Hround & Hrelease & _).
  - apply (bool_decide_unpack _). vm_compute. exact I.
  - reflexivity.
  - split.
    + apply Hround. left. exists sda. reflexivity.
    + apply Hrelease. apply not_elem_of_strings. reflexivity.
Defined.

(** C9: preserve(preserve(x)) == preserve(x) and
    release(release(x)) == release(x), for every mapping x. *)
Theorem transforms_idempotent (h : heap) (x : loc) (n : nat) (d : dict) :
  heap_wf h → reify n h (HRef x) = Some (VDict d) →
  (∃ y h1 z h2,
     preserve_action (HRef x) h = Some (Ok (HRef y), h1) ∧
     preserve_action (HRef y) h1 = Some (Ok (HRef z), h2) ∧
     py_eq n h2 (HRef z) (HRef y) = Some true) ∧
  (∃ y h1 z h2,
     release_action (HRef x) h = Some (Ok (HRef y), h1) ∧
     release_action (HRef y) h1 = Some (Ok (HRef z), h2) ∧
     py_eq n h2 (HRef z) (HRef y) = Some true).
Proof.
  intros Hwf Hd. split.
  - destruct (preserve_action_spec h x n d Hwf Hd)
      as (y & h1 & Hp & Hy & Hwf1 & Hf1 & Hreg1 & Hyd).
    destruct (preserve_action_spec h1 y n _ Hwf1 Hyd)
      as (z & h2 & Hp2 & Hz & Hwf2 & Hf2 & Hreg2 & Hzd).
    exists y, h1, z, h2. split; [done|]. split; [done|].
    rewrite dict_set_set in Hzd. eapply py_eq_same; [done..|].
    rewrite (reify_frame h1 h2); try done. by eapply reify_ref_dom.
  - destruct (release_action_spec h x n d Hwf Hd)
      as (y & h1 & Hr & Hy & Hwf1 & Hf1 & Hreg1 & Hyd).
    destruct (release_action_spec h1 y n _ Hwf1 Hyd)
      as (z & h2 & Hr2 & Hz & Hwf2 & Hf2 & Hreg2 & Hzd).
    exists y, h1, z, h2. split; [done|]. split; [done|].
    rewrite dict_del_del in Hzd.
    + eapply py_eq_same; [done..|].
      rewrite (reify_frame h1 h2); try done. by eapply reify_ref_dom.
    + pose proof (reify_wf h Hwf _ _ _ Hd) as Hv. by inversion Hv.
Qed.

Lemma transforms_idempotent_witness :
  (∃ y h1 z h2,
     preserve_action (HRef 1%positive) sda_heap = Some (Ok (HRef y), h1) ∧
     preserve_action (HRef y) h1 = Some (Ok (HRef z), h2) ∧
     py_eq 1 h2 (HRef z) (HRef y) = Some true) ∧
  (∃ y h1 z h2,
     release_action (HRef 1%positive) sda_heap = Some (Ok (HRef y), h1) ∧
     release_action (HRef y) h1 = Some (Ok (HRef z), h2) ∧
     py_eq 1 h2 (HRef z) (HRef y) = Some true).
Proof.
  apply (transforms_idempotent sda_heap 1%positive 1 sda_mapping).
  - apply (bool_decide_unpack _). vm_compute. exact I.
  - reflexivity.
Defined.

End store_facts.

(** * Further properties of the network actions *)

Section net_more.
Import Net.

Lemma dict_keys_select (ks : list string) (d : dict) (k : string) :
  k ∈ dict_keys (select ks d) ↔ k ∈ dict_keys d ∧ k ∈ ks.
Proof.
  unfold select, dict_keys. rewrite !list_elem_of_fmap. split.
  - intros ([k' v] & -> & [Hk Hin]%list_elem_of_filter). simpl in *.
    split; [|done]. by exists (k', v).
  - intros [([k' v] & -> & Hin) Hk]. exists (k', v). split; [done|].
    by apply list_elem_of_filter.
Qed.

Lemma select_NoDup (ks : list string) (d : dict) :
  NoDup (dict_keys d) → NoDup (dict_keys (select ks d)).
Proof.
  unfold select. induction d as [|[k v] d IH]; [done|].
  change (dict_keys ((k, v) :: d)) with (k :: dict_keys d).
  intros [Hk Hd]%NoDup_cons. rewrite filter_cons. case_decide; [|auto].
  change (dict_keys ((k, v) :: filter (λ kv, kv.1 ∈ ks) d))
    with (k :: dict_keys (select ks d)).
  apply NoDup_cons. split; [|auto]. by intros [? _]%dict_keys_select.
Qed.

Lemma fold_keep_select (ks : list string) (items action : dict) :
  NoDup (dict_keys items) →
  (∀ k, k ∈ dict_keys items → k ∉ dict_keys action) →
  fold_left (keep ks) items action = action ++ select ks items.
Proof.
  unfold select. revert action.
  induction items as [|[k v] items IH]; intros action Hnd Hfresh.
  - by rewrite app_nil_r.
  - change (dict_keys ((k, v) :: items)) with (k :: dict_keys items) in *.
    apply NoDup_cons in Hnd as [Hk Hnd]. cbn [fold_left].
    rewrite filter_cons. unfold keep at 2. cbn [fst snd].
    case_bool_decide as Hin; case_decide; try done.
    + rewrite IH; [|done|].
      * rewrite dict_set_fresh by (apply Hfresh; set_solver).
        by rewrite <-app_assoc.
      * intros k' Hk'. rewrite dict_keys_set.
        intros [->|?]; [done|]. eapply Hfresh; [|done]. set_solver.
    + apply IH; [done|]. intros k' Hk'. apply Hfresh. set_solver.
Qed.

Lemma select_dict_set_other (ks : list string) (k : string) (v : value)
    (d : dict) :
  k ∉ ks → select ks (dict_set k v d) = select ks d.
Proof.
  intros Hk. unfold select. induction d as [|[k' v'] d IH]; simpl.
  - rewrite filter_cons. by case_decide.
  - destruct (String.eqb k k') eqn:E.
    + apply String.eqb_eq in E. subst k'. rewrite !filter_cons. simpl.
      by repeat case_decide.
    + rewrite !filter_cons. simpl. by rewrite IH.
Qed.

Lemma dict_get_select (ks : list string) (d : dict) (k : string) :
  k ∈ ks → dict_get k (select ks d) = dict_get k d.
Proof.
  intros Hk. unfold select. induction d as [|[k' v'] d IH]; [done|].
  rewrite filter_cons. simpl. case_decide as Hk'; simpl.
  - by rewrite IH.
  - destruct (String.eqb k k') eqn:E; [|done].
    apply String.eqb_eq in E. by subst.
Qed.

Lemma select_all (ks : list string) (d : dict) :
  (∀ k, k ∈ dict_keys d → k ∈ ks) → select ks d = d.
Proof.
  unfold select. induction d as [|[k v] d IH]; [done|]. intros Hall.
  change (dict_keys ((k, v) :: d)) with (k :: dict_keys d) in *.
  rewrite filter_cons. simpl. case_decide as Hk.
  - rewrite IH; [done|]. intros k' Hk'. apply Hall. set_solver.
  - exfalso. apply Hk, Hall. set_solver.
Qed.

(** Keyword options, written in a call, become the attributes as they
    are. *)
Lemma dict_update_nil (options : dict) :
  NoDup (dict_keys options) → dict_update [] options = options.
Proof.
  intros Hnd. rewrite dict_update_fresh; [done|done|].
  intros k _. apply not_elem_of_nil.
Qed.

Lemma get_constructed_select (v : variant) (options self : dict) :
  NoDup (dict_keys options) → "__dict__" ∉ dict_keys options →
  construct v options [] = (Ok (), self) →
  get self = Ok (select (declared_keys v) options).
Proof.
  intros Hnd Hd Hc. destruct (get_constructed v options self Hc) as [-> Hs].
  destruct (Hs Hd) as [-> _]. f_equal. rewrite dict_update_nil by done.
  rewrite fold_keep_select.
  - simpl. apply select_dict_set_other, action_keys_not_declared.
  - by apply dict_keys_set_NoDup.
  - intros k _. apply not_elem_of_nil.
Qed.

Lemma call_get_constructed (v : variant) (options self : dict) :
  NoDup (dict_keys options) →
  "__dict__" ∉ dict_keys options → "get" ∉ dict_keys options →
  construct v options [] = (Ok (), self) →
  call_get self = Ok (select (declared_keys v) options).
Proof.
  intros Hnd Hd Hg Hc. unfold call_get.
  destruct (dict_has "get" self) eqn:E.
  - destruct (get_constructed v options self Hc) as [_ Hs].
    destruct (Hs Hd) as [_ Hk].
    apply dict_has_keys, Hk in E as [[=]|E]. done.
  - by apply get_constructed_select.
Qed.

(** X1: when no option comes twice and none is named __dict__ or get,
    get() returns the declared options themselves, in the order they were
    given and with their values. *)
Theorem get_keeps_declared_options (v : variant) (options self : dict) :
  NoDup (dict_keys options) →
  "__dict__" ∉ dict_keys options → "get" ∉ dict_keys options →
  construct v options [] = (Ok (), self) →
  call_get self = Ok (select (declared_keys v) options) ∧
  ∀ k, k ∈ declared_keys v →
       dict_get k (select (declared_keys v) options) = dict_get k options.
Proof.
  intros Hnd Hd Hg Hc. split; [by apply call_get_constructed|].
  intros k Hk. by apply dict_get_select.
Qed.

Lemma get_keeps_declared_options_witness :
  call_get
    [("name", VStr "eth0"); ("mtu", VInt 1500); ("type", VStr "physical");
     ("mac_address", VStr "52:54:00:12:34:56");
     ("_action_keys",
      VList [VStr "type"; VStr "name"; VStr "params"; VStr "subnets";
             VStr "mac_address"])]
  = Ok [("name", VStr "eth0"); ("type", VStr "physical");
        ("mac_address", VStr "52:54:00:12:34:56")].
Proof.
  apply (get_keeps_declared_options Physical
           [("name", VStr "eth0"); ("mtu", VInt 1500);
            ("type", VStr "physical");
            ("mac_address", VStr "52:54:00:12:34:56")]).
  - apply (bool_decide_unpack _). vm_compute. exact I.
  - apply not_elem_of_strings. reflexivity.
  - apply not_elem_of_strings. reflexivity.
  - reflexivity.
Defined.

(** X2: when no option comes twice and none is named __dict__ or get,
    the serialization of a constructed network action has the type tag
    of its variant, a name of positive length and every field the variant
    requires. *)
Theorem constructed_has_required (v : variant) (options self : dict) :
  NoDup (dict_keys options) →
  "__dict__" ∉ dict_keys options → "get" ∉ dict_keys options →
  construct v options [] = (Ok (), self) →
  ∃ action name n,
    call_get self = Ok action ∧
    dict_get "type" action = Some (VStr (type_tag v)) ∧
    dict_get "name" action = Some name ∧ py_len name = Ok n ∧ 0 < n ∧
    ∀ k, k ∈ required v → dict_has k action = true.
Proof.
  intros Hnd Hd Hg Hc.
  pose proof Hc as (_ & Ht%type_valid_inv & Hn & Hreq & _)%construct_Ok.
  apply name_valid_inv in Hn as (name & n & Hname & Hlen & Hpos).
  exists (select (declared_keys v) options), name, n.
  split; [by apply call_get_constructed|].
  rewrite !dict_get_select by set_solver.
  repeat (split; [done|]). intros k Hk. unfold dict_has.
  rewrite dict_get_select; [by apply Hreq|]. unfold declared_keys.
  set_solver.
Qed.

Lemma constructed_has_required_witness :
  ∃ action name n,
    call_get
      [("type", VStr "bridge"); ("name", VStr "br0");
       ("bridge_interfaces", VList [VStr "eth0"]);
       ("_action_keys",
        VList [VStr "type"; VStr "name"; VStr "params"; VStr "subnets";
               VStr "bridge_interfaces"])] = Ok action ∧
    dict_get "type" action = Some (VStr "bridge") ∧
    dict_get "name" action = Some name ∧ py_len name = Ok n ∧ 0 < n ∧
    ∀ k, k ∈ required Bridge → dict_has k action = true.
Proof.
  apply (constructed_has_required Bridge
           [("type", VStr "bridge"); ("name", VStr "br0");
            ("bridge_interfaces", VList [VStr "eth0"])]).
  - apply (bool_decide_unpack _). vm_compute. exact I.
  - apply not_elem_of_strings. reflexivity.
  - apply not_elem_of_strings. reflexivity.
  - reflexivity.
Defined.

Lemma special_not_declared (v : variant) (k : string) :
  k ∈ declared_keys v → k ∉ special_names.
Proof.
  intros Hk Hs. apply list_elem_of_In in Hk, Hs.
  destruct v; simpl in Hk, Hs; intuition (subst; discriminate).
Qed.

(** X3: a network action can be built again from its own serialization,
    and the new action serializes to the same mapping (no option comes
    twice, none is named __dict__ or get). *)
Theorem reconstruct_from_get (v : variant) (options self action : dict) :
  NoDup (dict_keys options) →
  "__dict__" ∉ dict_keys options → "get" ∉ dict_keys options →
  construct v options [] = (Ok (), self) →
  call_get self = Ok action →
  ∃ self', construct v action [] = (Ok (), self') ∧
           call_get self' = Ok action.
Proof.
  intros Hnd Hd Hg Hc Hget.
  rewrite (call_get_constructed v options self Hnd Hd Hg Hc) in Hget.
  injection Hget as <-.
  pose proof Hc as (_ & Ht%type_valid_inv & Hn & Hreq & _)%construct_Ok.
  apply name_valid_inv in Hn as (name & n & Hname & Hlen & Hpos).
  set (action := select (declared_keys v) options).
  assert (Hspecial : ∀ k, k ∈ dict_keys action → k ∉ special_names).
  { intros k [_ Hk]%dict_keys_select. by eapply special_not_declared. }
  assert (Hself : dict_has "self" action = false).
  { destruct (dict_has "self" action) eqn:E; [|done].
    apply dict_has_keys, Hspecial in E. exfalso. apply E.
    unfold special_names. set_solver. }
  assert (Hplain : ∀ k, k ∈ dict_keys action →
            k ≠ "__class__" ∧ k ≠ "__weakref__" ∧ k ≠ "__dict__").
  { intros k Hk%Hspecial. unfold special_names in Hk.
    repeat split; intros ->; apply Hk; set_solver. }
  assert (Hc' : construct v action []
                = (Ok (),
                   dict_set "_action_keys"
                     (VList ((λ k : string, VStr k) <$> declared_keys v))
                     (dict_update [] action))).
  { apply construct_Ok. split; [done|]. split.
    { apply type_valid_inv. unfold action.
      by rewrite dict_get_select by set_solver. }
    split.
    { apply name_valid_inv. exists name, n. unfold action.
      by rewrite dict_get_select by set_solver. }
    split.
    { intros k Hk. unfold dict_has, action.
      rewrite dict_get_select; [by apply Hreq|]. unfold declared_keys.
      set_solver. }
    eexists. split; [by apply setattrs_entries|done]. }
  eexists. split; [exact Hc'|].
  rewrite (call_get_constructed v action _); [| | | |exact Hc'].
  - f_equal. apply select_all. by intros k [_ ?]%dict_keys_select.
  - by apply select_NoDup.
  - intros Hin%Hspecial. apply Hin. unfold special_names. set_solver.
  - intros Hin%Hspecial. apply Hin. unfold special_names. set_solver.
Qed.

Lemma reconstruct_from_get_witness :
  ∃ self',
    construct Bond
      [("type", VStr "bond"); ("name", VStr "bond0");
       ("bond_interfaces", VList [VStr "eth0"; VStr "eth1"])] []
    = (Ok (), self') ∧
    call_get self'
    = Ok [("type", VStr "bond"); ("name", VStr "bond0");
          ("bond_interfaces", VList [VStr "eth0"; VStr "eth1"])].
Proof.
  eapply (reconstruct_from_get Bond
            [("type", VStr "bond"); ("name", VStr "bond0"); ("mtu", VInt 9000);
             ("bond_interfaces", VList [VStr "eth0"; VStr "eth1"])]).
  - apply (bool_decide_unpack _). vm_compute. exact I.
  - apply not_elem_of_strings. reflexivity.
  - apply not_elem_of_strings. reflexivity.
  - reflexivity.
  - reflexivity.
Defined.

(** X4: the type tag decides the variant: options that one constructor
    accepts are refused by the three others, with the type error. *)
Theorem variant_exclusive (v v' : variant) (options self self0 : dict) :
  construct v options [] = (Ok (), self) →
  v' ≠ v →
  construct v' options self0
  = (Raise (Exception ("Invalid type for " +:+ class_name v')), self0).
Proof.
  intros (Hself & Ht%type_valid_inv & _)%construct_Ok Hne.
  assert (Ht' : type_invalid (type_tag v') options = true).
  { unfold type_invalid. rewrite Ht. apply negb_true_iff.
    destruct (value_eqb _ _) eqn:E; [|done].
    apply value_eqb_str in E. injection E as E.
    destruct v, v'; simpl in E; congruence. }
  by rewrite construct_cases, Hself, Ht'.
Qed.

Lemma variant_exclusive_witness :
  construct Physical
    [("type", VStr "vlan"); ("name", VStr "v7"); ("vlan_id", VInt 7);
     ("vlan_link", VStr "eth0"); ("mac_address", VStr "52:54:00:12:34:56")]
    []
  = (Raise (Exception "Invalid type for PhysicalAction"), []).
Proof.
  eapply (variant_exclusive Vlan Physical); [reflexivity|discriminate].
Defined.

Lemma ordinary_entries (options : dict) :
  ordinary options →
  dict_has "self" options = false ∧
  "get" ∉ dict_keys options ∧
  ∀ k, k ∈ dict_keys options →
       k ≠ "__class__" ∧ k ≠ "__weakref__" ∧ k ≠ "__dict__".
Proof.
  intros Ho. split; [|split].
  - destruct (dict_has "self" options) eqn:E; [|done].
    apply dict_has_keys, Ho in E. exfalso. apply E.
    unfold special_names. set_solver.
  - intros Hin%Ho. apply Hin. unfold special_names. set_solver.
  - intros k Hk%Ho. unfold special_names in Hk.
    repeat split; intros ->; apply Hk; set_solver.
Qed.

(** X5: the base class checks nothing: from keyword options none of which
    has a special name (self, __class__, __dict__, __weakref__, get) it
    builds an action that serializes the options named type, name, params
    and subnets, in the order given; without options the mapping is
    empty. *)
Theorem NetAction_get_base (options : dict) :
  NoDup (dict_keys options) → ordinary options →
  ∃ self,
    NetAction options [] = (Ok (), self) ∧
    call_get self = Ok (select base_keys options) ∧
    (options = [] → call_get self = Ok []).
Proof.
  intros Hnd (Hself & Hg & Hplain)%ordinary_entries.
  exists (dict_set "_action_keys"
            (VList ((λ k : string, VStr k) <$> base_keys)) options).
  assert (Hget : call_get
                   (dict_set "_action_keys"
                      (VList ((λ k : string, VStr k) <$> base_keys)) options)
                 = Ok (select base_keys options)).
  { unfold call_get.
    destruct (dict_has "get" _) eqn:E.
    { apply dict_has_keys, dict_keys_set in E as [[=]|E]. done. }
    unfold get. erewrite (get_loop_declared base_keys);
      [|apply dict_get_set_eq].
    f_equal. rewrite fold_keep_select.
    - simpl. apply select_dict_set_other. apply not_elem_of_strings.
      reflexivity.
    - by apply dict_keys_set_NoDup.
    - intros k _. apply not_elem_of_nil. }
  split; [|split; [exact Hget|]].
  - unfold NetAction, call, NetAction_init, mbind, init_bind.
    rewrite Hself, setattrs_entries by done.
    by rewrite dict_update_nil.
  - intros ->. exact Hget.
Qed.

Lemma NetAction_get_base_witness :
  ∃ self,
    NetAction [("name", VStr "lo"); ("mac_address", VStr "00:00")] []
    = (Ok (), self) ∧
    call_get self = Ok [("name", VStr "lo")].
Proof.
  destruct (NetAction_get_base
              [("name", VStr "lo"); ("mac_address", VStr "00:00")])
    as (self & Hc & Hg & _).
  - apply (bool_decide_unpack _). vm_compute. exact I.
  - intros k Hk. apply list_elem_of_In in Hk. simpl in Hk.
    destruct Hk as [<-|[<-|[]]]; apply not_elem_of_strings; reflexivity.
  - exists self. split; [exact Hc|exact Hg].
Defined.
End net_more.

(** * Further properties of the storage actions *)

Lemma str_app_cons (x : ascii) (a b : string) :
  String x a +:+ b = String x (a +:+ b).
Proof. reflexivity. Qed.

Lemma str_app_assoc (a b c : string) : (a +:+ b) +:+ c = a +:+ (b +:+ c).
Proof.
  induction a as [|x a IH]; [done|]. rewrite !str_app_cons. by f_equal.
Qed.

Lemma str_app_length (a b : string) :
  String.length (a +:+ b) = String.length a + String.length b.
Proof.
  induction a as [|x a IH]; [done|]. rewrite str_app_cons. simpl.
  by rewrite IH.
Qed.

Lemma str_app_inv_tail (a b c : string) : a +:+ c = b +:+ c → a = b.
Proof.
  intros H. assert (Hlen : String.length a = String.length b).
  { apply (f_equal String.length) in H. rewrite !str_app_length in H. lia. }
  revert b H Hlen. induction a as [|x a IH]; intros [|y b]; try done.
  rewrite !str_app_cons. intros [= -> H] [= Hlen]. f_equal. by apply IH.
Qed.

Section storage_more.
Import Storage.

Lemma rbind_Ok {A B} (r : result A) (f : A → result B) (b : B) :
  r ≫= f = Ok b → ∃ a, r = Ok a ∧ f a = Ok b.
Proof. destruct r as [a|e]; [|done]. intros Hf. by exists a. Qed.

(** A node with a parent that came out of a constructor has a parent with
    an id. *)
Lemma built_parent (a : storage) :
  built a →
  match a with
  | Partition p _ _ _ _ _ | Format p _ _ | Mount p _ _ =>
      ∃ pid, get_action_id p = Ok pid
  | _ => True
  end.
Proof.
  intros [i m s pt w a' H|p pn o sz fl a' H|b c n a' H|p f a' H|p pa a' H].
  - injection H as <-. done.
  - unfold PartitionAction in H.
    apply rbind_Ok in H as (n & _ & H). apply rbind_Ok in H as (o' & _ & H).
    apply rbind_Ok in H as (s' & _ & H). apply rbind_Ok in H as (pid & Hp & H).
    apply rbind_Ok in H as (g & _ & H). injection H as <-. eauto.
  - unfold BcacheAction in H.
    apply rbind_Ok in H as (n' & _ & H). apply rbind_Ok in H as (bp & _ & H).
    apply rbind_Ok in H as (bd & _ & H). apply rbind_Ok in H as (cp & _ & H).
    apply rbind_Ok in H as (cd & _ & H). injection H as <-. done.
  - unfold FormatAction in H. apply rbind_Ok in H as (pid & Hp & H).
    destruct f as [[| | |f]| | |fl]; try done.
    destruct (startswith f "fat"); [injection H as <-; eauto|].
    destruct (startswith f "linux-swap"); injection H as <-; eauto.
  - unfold MountAction in H. apply rbind_Ok in H as (pid & Hp & H).
    injection H as <-. eauto.
Qed.

Lemma get_id_type (a : storage) (d : dict) :
  get a = Ok d →
  dict_get "id" d = Some (VStr (action_id a)) ∧
  dict_get "type" d = Some (VStr (type_of a)) ∧
  NoDup (dict_keys d).
Proof.
  destruct a as [i pt mo se w|p pn o s f i|bn bd cd i|p f i|p pa i];
    simpl; try (destruct (get_action_id p); simpl; [|done]);
    try destruct (truthy w); intros [= <-];
    (split; [reflexivity|]); (split; [reflexivity|]);
    apply (bool_decide_unpack _); vm_compute; exact I.
Qed.

(** X6: a node that a constructor has returned always serializes: get() does
    not raise, and the mapping has distinct keys, the node's own id under
    "id" and the tag of its class under "type". *)
Theorem built_serializes (a : storage) :
  built a →
  ∃ d, get a = Ok d ∧
       dict_get "id" d = Some (VStr (action_id a)) ∧
       dict_get "type" d = Some (VStr (type_of a)) ∧
       NoDup (dict_keys d).
Proof.
  intros Hb. pose proof (built_parent a Hb) as Hp.
  assert (∃ d, get a = Ok d) as [d Hd].
  { destruct a as [i pt mo se w|p pn o s f i|bn bd cd i|p f i|p pa i];
      simpl in *; try (destruct Hp as [pid ->]); simpl; eauto. }
  exists d. split; [done|]. by apply get_id_type.
Qed.

Lemma built_serializes_witness :
  ∃ d, get sda1 = Ok d ∧
       dict_get "id" d = Some (VStr (action_id sda1)) ∧
       dict_get "type" d = Some (VStr (type_of sda1)) ∧
       NoDup (dict_keys d).
Proof.
  apply built_serializes.
  apply (built_partition (ObjAction sda) (VInt 1) (VInt 0) (VInt 1048576) None).
  reflexivity.
Defined.

(** X7: the reference a node serializes resolves: "device" of a Partition
    or a Mount and "volume" of a Format are the "id" in the serialization
    of the node they were built on. *)
Theorem reference_resolves (q : storage) (dq : dict) :
  get q = Ok dq →
  (∀ partnum offset size flags a,
     PartitionAction (ObjAction q) partnum offset size flags = Ok a →
     ∃ d, get a = Ok d ∧ dict_get "device" d = dict_get "id" dq) ∧
  (∀ fstype a,
     FormatAction (ObjAction q) fstype = Ok a →
     ∃ d, get a = Ok d ∧ dict_get "volume" d = dict_get "id" dq) ∧
  (∀ path a,
     MountAction (ObjAction q) path = Ok a →
     ∃ d, get a = Ok d ∧ dict_get "device" d = dict_get "id" dq).
Proof.
  intros [Hid _]%get_id_type. rewrite Hid. split; [|split].
  - intros pn o sz fl a H. unfold PartitionAction in H.
    apply rbind_Ok in H as (n & _ & H). apply rbind_Ok in H as (o' & _ & H).
    apply rbind_Ok in H as (s' & _ & H). apply rbind_Ok in H as (pid & Hp & H).
    apply rbind_Ok in H as (g & _ & H). injection H as <-.
    injection Hp as <-. eexists. split; reflexivity.
  - intros f a H. unfold FormatAction in H.
    apply rbind_Ok in H as (pid & [= <-] & H).
    destruct f as [[| | |f]| | |fl]; try done.
    destruct (startswith f "fat"); [|destruct (startswith f "linux-swap")];
      injection H as <-; eexists; split; reflexivity.
  - intros pa a H. unfold MountAction in H.
    apply rbind_Ok in H as (pid & [= <-] & H). injection H as <-.
    eexists. split; reflexivity.
Qed.

Lemma reference_resolves_witness :
  (∃ d, get sda1 = Ok d ∧ dict_get "device" d = Some (VStr "sda")) ∧
  (∃ a d, FormatAction (ObjAction sda1) (VStr "ext4") = Ok a ∧
          get a = Ok d ∧ dict_get "volume" d = Some (VStr "sda1_part")).
Proof.
  split.
  - destruct (reference_resolves sda
                [("id", VStr "sda"); ("model", VStr "QEMU");
                 ("ptable", VStr "gpt"); ("serial", VStr "QM01");
                 ("type", VStr "disk")] eq_refl) as (Hpart & _).
    apply (Hpart (VInt 1) (VInt 0) (VInt 1048576) None). reflexivity.
  - eexists.
    destruct (reference_resolves sda1
                [("device", VStr "sda"); ("flag", VNone);
                 ("id", VStr "sda1_part"); ("number", VInt 1);
                 ("size", VStr "1048576B"); ("offset", VStr "0B");
                 ("type", VStr "partition")] eq_refl) as (_ & Hfmt & _).
    destruct (Hfmt (VStr "ext4") _ eq_refl) as (d & Hd & Hvol).
    exists d. split; [reflexivity|]. split; assumption.
Defined.

(** X8: what a constructor builds and what the node serializes to depend on
    the parent only through its action_id: two parents with the same id,
    whatever else they are, give the same result, errors included. *)
Theorem parent_matters_by_id (p1 p2 : pyobj) :
  get_action_id p1 = get_action_id p2 →
  (∀ partnum offset size flags,
     (a ← PartitionAction p1 partnum offset size flags; get a)
     = (a ← PartitionAction p2 partnum offset size flags; get a)) ∧
  (∀ fstype,
     (a ← FormatAction p1 fstype; get a)
     = (a ← FormatAction p2 fstype; get a)) ∧
  (∀ path,
     (a ← MountAction p1 path; get a) = (a ← MountAction p2 path; get a)).
Proof.
  intros Hid. split; [|split].
  - intros pn o sz fl. unfold PartitionAction. rewrite <-Hid.
    destruct (py_int pn) as [n|]; [|done].
    destruct (py_int o) as [o'|]; [|done].
    destruct (py_int sz) as [s'|]; [|done]. simpl.
    destruct (get_action_id p1) as [pid|] eqn:H1; [|done]. simpl.
    by rewrite H1, <-Hid.
  - intros f. unfold FormatAction. rewrite <-Hid.
    destruct (get_action_id p1) as [pid|] eqn:H1; [|done]. simpl.
    destruct f as [[| | |f]| | |fl]; try done.
    destruct (startswith f "fat"); [|destruct (startswith f "linux-swap")];
      simpl; by rewrite H1, <-Hid.
  - intros pa. unfold MountAction. rewrite <-Hid.
    destruct (get_action_id p1) as [pid|] eqn:H1; [|done]. simpl.
    by rewrite H1, <-Hid.
Qed.

Lemma parent_matters_by_id_witness :
  (a ← MountAction (ObjAction sda1) (VStr "/boot"); get a)
  = (a ← MountAction
           (ObjAction (Format (ObjValue VNone) VNone (AStr "sda1_part")))
           (VStr "/boot");
     get a).
Proof.
  apply (parent_matters_by_id (ObjAction sda1)
           (ObjAction (Format (ObjValue VNone) VNone (AStr "sda1_part")))).
  reflexivity.
Defined.

(** X9: the id of a Mount on a Format on a Partition of a Disk spells the
    whole chain, disk + partnum + "_part_fmt_mnt"; on a fat filesystem it
    is the first 11 characters of disk + partnum + "_part_fmt", then
    "_mnt".  The partition is not the bios_grub one. *)
Theorem mount_id_chain (disk : storage) (N o s : Z) (flags : option value)
    (F : string) (mountpoint : value) :
  default VNone flags ≠ VStr "bios_grub" →
  ∃ part fmt mnt d,
    PartitionAction (ObjAction disk) (VInt N) (VInt o) (VInt s) flags
      = Ok part ∧
    FormatAction (ObjAction part) (VStr F) = Ok fmt ∧
    MountAction (ObjAction fmt) mountpoint = Ok mnt ∧
    get mnt = Ok d ∧
    dict_get "path" d = Some mountpoint ∧
    dict_get "device" d = Some (VStr (action_id fmt)) ∧
    action_id mnt =
      (if startswith F "fat"
       then str_take 11 (action_id disk +:+ str_of_int N +:+ "_part" +:+ "_fmt")
       else action_id disk +:+ str_of_int N +:+ "_part" +:+ "_fmt")
      +:+ "_mnt".
Proof.
  intros Hflags. unfold PartitionAction.
  cbn [py_int mbind result_bind get_action_id]. rewrite py_in_singleton.
  destruct (value_eqb (default VNone flags) (VStr "bios_grub")) eqn:E.
  { by apply value_eqb_str in E. }
  cbn -[String.append str_of_int str_take startswith].
  destruct (startswith F "fat") eqn:Hfat;
    [|destruct (startswith F "linux-swap")];
    do 4 eexists; repeat (split; [reflexivity|]);
    unfold action_id; cbn -[String.append str_of_int str_take];
    by rewrite ?str_app_assoc.
Qed.

Lemma mount_id_chain_witness :
  ∃ part fmt mnt d,
    PartitionAction (ObjAction sda) (VInt 1) (VInt 0) (VInt 1048576) None
      = Ok part ∧
    FormatAction (ObjAction part) (VStr "fat32") = Ok fmt ∧
    MountAction (ObjAction fmt) (VStr "/boot/efi") = Ok mnt ∧
    get mnt = Ok d ∧
    dict_get "path" d = Some (VStr "/boot/efi") ∧
    dict_get "device" d = Some (VStr (action_id fmt)) ∧
    action_id mnt = "sda1_part_f_mnt".
Proof.
  apply (mount_id_chain sda 1 0 1048576 None "fat32" (VStr "/boot/efi")).
  discriminate.
Defined.

(** What a successful call of the Partition constructor has computed. *)
Lemma PartitionAction_Ok (p : pyobj) (pn o s : value) (f : option value)
    (a : storage) :
  PartitionAction p pn o s f = Ok a →
  ∃ n o' s' P,
    py_int pn = Ok n ∧ py_int o = Ok o' ∧ py_int s = Ok s' ∧
    get_action_id p = Ok P ∧
    a = Partition p n o' s' (default VNone f)
          (AStr (if value_eqb (default VNone f) (VStr "bios_grub")
                 then "bios_boot_partition"
                 else P +:+ str_of_int n +:+ "_part")).
Proof.
  unfold PartitionAction. intros H.
  apply rbind_Ok in H as (n & Hn & H). apply rbind_Ok in H as (o' & Ho & H).
  apply rbind_Ok in H as (s' & Hs & H). apply rbind_Ok in H as (P & HP & H).
  rewrite py_in_singleton in H. cbn -[String.append str_of_int value_eqb] in H.
  injection H as <-. by exists n, o', s', P.
Qed.

Lemma str_of_int_inj (a b : Z) : str_of_int a = str_of_int b → a = b.
Proof.
  unfold str_of_int. intros H. apply DecimalZ.to_int_inj.
  assert (Hnn : ∀ z, Z.to_int z ≠ Decimal.Pos Decimal.Nil ∧
                     Z.to_int z ≠ Decimal.Neg Decimal.Nil).
  { intros [|q|q]; simpl; split; try done; intros [= Hq];
      by apply (Unsigned.to_uint_nonnil q). }
  apply (f_equal NilZero.int_of_string) in H.
  rewrite !NilZero.isi in H by apply Hnn. by injection H.
Qed.

Lemma str_app_inv_len (a b c d : string) :
  String.length a = String.length b → a +:+ c = b +:+ d → a = b ∧ c = d.
Proof.
  revert b. induction a as [|x a IH]; intros [|y b]; try done.
  rewrite !str_app_cons. intros [= Hlen] [= -> H].
  destruct (IH b Hlen H) as [-> ->]. done.
Qed.

(** A string that ends in "_part" is not the id of the bios_grub
    partition. *)
Lemma part_not_bios_boot (a : string) : a +:+ "_part" ≠ "bios_boot_partition".
Proof.
  intros H. assert (Hlen : String.length a = 14).
  { apply (f_equal String.length) in H. rewrite str_app_length in H.
    simpl in H. lia. }
  change "bios_boot_partition" with ("bios_boot_part" +:+ "ition") in H.
  by destruct (str_app_inv_len a "bios_boot_part" _ _ Hlen H) as [_ ?].
Qed.

(** X10: two partitions of the same parent have the same id exactly when
    both carry the flag bios_grub, or neither does and their numbers are
    the same. *)
Theorem partition_ids_same_parent (p : pyobj) (pn1 pn2 o1 o2 s1 s2 : value)
    (f1 f2 : option value) (a1 a2 : storage) :
  PartitionAction p pn1 o1 s1 f1 = Ok a1 →
  PartitionAction p pn2 o2 s2 f2 = Ok a2 →
  action_id a1 = action_id a2 ↔
    (default VNone f1 = VStr "bios_grub" ∧
     default VNone f2 = VStr "bios_grub") ∨
    (default VNone f1 ≠ VStr "bios_grub" ∧
     default VNone f2 ≠ VStr "bios_grub" ∧
     py_int pn1 = py_int pn2).
Proof.
  intros (n1 & o1' & s1' & P & Hn1 & _ & _ & HP & ->)%PartitionAction_Ok
         (n2 & o2' & s2' & P' & Hn2 & _ & _ & HP' & ->)%PartitionAction_Ok.
  assert (P' = P) as -> by congruence. rewrite Hn1, Hn2.
  unfold action_id. cbn -[String.append str_of_int value_eqb].
  destruct (value_eqb (default VNone f1) _) eqn:E1;
    destruct (value_eqb (default VNone f2) _) eqn:E2.
  - apply value_eqb_str in E1, E2. naive_solver.
  - apply value_eqb_str in E1. split.
    + intros H. symmetry in H. rewrite <-str_app_assoc in H.
      by apply part_not_bios_boot in H.
    + intros [[_ H]|[H _]]; [|done]. apply value_eqb_str in H. congruence.
  - apply value_eqb_str in E2. split.
    + intros H. rewrite <-str_app_assoc in H.
      by apply part_not_bios_boot in H.
    + intros [[H _]|(_ & H & _)]; [|done]. apply value_eqb_str in H.
      congruence.
  - assert (H1 : default VNone f1 ≠ VStr "bios_grub").
    { intros H%value_eqb_str. congruence. }
    assert (H2 : default VNone f2 ≠ VStr "bios_grub").
    { intros H%value_eqb_str. congruence. }
    split.
    + intros H%String.app_inj%str_app_inv_tail%str_of_int_inj.
      right. by subst.
    + intros [[? _]|(_ & _ & [= ->])]; done.
Qed.

Lemma partition_ids_same_parent_witness :
  action_id sda1
  = action_id (Partition (ObjAction sda) 1 2048 4096 (VStr "boot")
                 (AStr "sda1_part")) ↔
    (default VNone None = VStr "bios_grub" ∧
     default VNone (Some (VStr "boot")) = VStr "bios_grub") ∨
    (default VNone None ≠ VStr "bios_grub" ∧
     default VNone (Some (VStr "boot")) ≠ VStr "bios_grub" ∧
     py_int (VInt 1) = py_int (VStr " 1 ")).
Proof.
  apply (partition_ids_same_parent (ObjAction sda) (VInt 1) (VStr " 1 ")
           (VInt 0) (VInt 2048) (VInt 1048576) (VInt 4096) None
           (Some (VStr "boot"))); reflexivity.
Defined.

(** X11: the accessors and the serialization agree.  A mapping returned by
    get() has the key "fstype" exactly when the node has the property
    fstype, with its value; "size" and "offset" are the properties size and
    offset followed by "B", and determine them; "path" is the property path
    of a Mount.  (The path of a Partition is not serialized.) *)
Theorem accessors_agree_with_get (a : storage) (d : dict) :
  get a = Ok d →
  (∀ v, fstype a = Ok v ↔ dict_get "fstype" d = Some v) ∧
  (∀ z, size a = Ok z ↔
        dict_get "size" d = Some (VStr (str_of_int z +:+ "B"))) ∧
  (∀ z, offset a = Ok z ↔
        dict_get "offset" d = Some (VStr (str_of_int z +:+ "B"))) ∧
  (∀ v, dict_get "path" d = Some v ↔ path a = Ok v ∧ type_of a = "mount").
Proof.
  assert (Hinj : ∀ x y : Z,
            Some (VStr (str_of_int x +:+ "B")) = Some (VStr (str_of_int y +:+ "B"))
            → Ok x = Ok y :> result Z).
  { intros x y [= H]. apply str_app_inv_tail, str_of_int_inj in H.
    by subst. }
  destruct a as [i pt mo se w|p pn o s f i|bn bd cd i|p f i|p pa i];
    cbn -[String.append str_of_int];
    try (destruct (get_action_id p); cbn -[String.append str_of_int];
         [|done]);
    try destruct (truthy w); intros [= <-];
    cbn -[String.append str_of_int];
    (split; [|split; [|split]]); intros v;
    try (split; [by intros [= ->]|by auto]);
    try (split; [by intros [= ->]|by intros [= ->]]);
    try (split; [done|by intros [? ?]]);
    try (split; [by intros [= ->]|by intros [[= ->] _]]).
Qed.

Lemma accessors_agree_with_get_witness :
  size sda1 = Ok 1048576%Z ↔
  dict_get "size"
    [("device", VStr "sda"); ("flag", VNone); ("id", VStr "sda1_part");
     ("number", VInt 1); ("size", VStr "1048576B"); ("offset", VStr "0B");
     ("type", VStr "partition")]
  = Some (VStr (str_of_int 1048576 +:+ "B")).
Proof.
  destruct (accessors_agree_with_get sda1 _ eq_refl) as (_ & Hsize & _).
  apply Hsize.
Defined.

(** X12: a Bcache is built exactly when bcache_num is accepted by int() and
    each of the two given nodes has a parent that is a node; the devices
    are the ids of these parents.  Given a Disk or a Bcache, whose parent is
    None, the constructor raises AttributeError; an error of int() comes
    first. *)
Theorem bcache_construction (backing_id cache_id : pyobj) (bcache_num : atom) :
  (∀ a, BcacheAction backing_id cache_id bcache_num = Ok a ↔
        ∃ n b c bp cp,
          py_int (VAtom bcache_num) = Ok n ∧
          backing_id = ObjAction b ∧ parent b = ObjAction bp ∧
          cache_id = ObjAction c ∧ parent c = ObjAction cp ∧
          a = Bcache n (action_id bp) (action_id cp)
                (AStr ("bcache" +:+ py_str bcache_num))) ∧
  (∀ e, py_int (VAtom bcache_num) = Raise e →
        BcacheAction backing_id cache_id bcache_num = Raise e) ∧
  (∀ n b, py_int (VAtom bcache_num) = Ok n →
          (backing_id = ObjAction b ∨ cache_id = ObjAction b) →
          type_of b = "disk" ∨ type_of b = "bcache" →
          BcacheAction backing_id cache_id bcache_num
            = Raise AttributeError).
Proof.
  unfold BcacheAction. split; [|split].
  - intros a. split.
    + intros H. apply rbind_Ok in H as (n & Hn & H).
      apply rbind_Ok in H as (bp & Hbp & H).
      apply rbind_Ok in H as (bd & Hbd & H).
      apply rbind_Ok in H as (cp & Hcp & H).
      apply rbind_Ok in H as (cd & Hcd & H). injection H as <-.
      destruct backing_id as [|b]; [done|]. destruct cache_id as [|c]; [done|].
      injection Hbp as <-. injection Hcp as <-.
      destruct (parent b) as [|bp] eqn:Eb; [done|].
      destruct (parent c) as [|cp] eqn:Ec; [done|].
      injection Hbd as <-. injection Hcd as <-.
      by exists n, b, c, bp, cp.
    + intros (n & b & c & bp & cp & Hn & -> & Hb & -> & Hc & ->).
      rewrite Hn. cbn -[String.append py_str]. by rewrite Hb, Hc.
  - by intros e ->.
  - intros n b -> Hb Ht. cbn -[String.append py_str parent].
    assert (Hp : ∃ v, parent b = ObjValue v).
    { destruct b; simpl in Ht; destruct Ht; try done; by eexists. }
    destruct Hp as [v Hp].
    destruct Hb as [->| ->]; cbn -[String.append py_str parent];
      rewrite ?Hp; [done|].
    destruct backing_id as [|b']; [done|].
    cbn -[String.append py_str parent].
    destruct (parent b') as [|bp]; [done|].
    cbn -[String.append py_str parent]. by rewrite ?Hp.
Qed.

Lemma bcache_construction_witness :
  BcacheAction (ObjAction sda1) (ObjAction sdb) (AInt 0)
  = Raise AttributeError.
Proof.
  destruct (bcache_construction (ObjAction sda1) (ObjAction sdb) (AInt 0))
    as (_ & _ & H).
  apply (H 0%Z sdb); [reflexivity|by right|by left].
Defined.

(** X13: the properties of a Partition that a constructor has returned: path
    is the id of the parent followed by the number, whatever the flags; size
    and offset are what int() made of the arguments; and the id is
    path + "_part" unless the flag is bios_grub, which renames the id and
    leaves the path. *)
Theorem partition_path (p : pyobj) (partnum offset' size' : value)
    (flags : option value) (a : storage) :
  PartitionAction p partnum offset' size' flags = Ok a →
  ∃ P n o s,
    get_action_id p = Ok P ∧ py_int partnum = Ok n ∧
    py_int offset' = Ok o ∧ py_int size' = Ok s ∧
    path a = Ok (VStr (P +:+ str_of_int n)) ∧
    size a = Ok s ∧ offset a = Ok o ∧
    (default VNone flags ≠ VStr "bios_grub" →
     action_id a = (P +:+ str_of_int n) +:+ "_part") ∧
    (default VNone flags = VStr "bios_grub" →
     action_id a = "bios_boot_partition").
Proof.
  intros (n & o & s & P & Hn & Ho & Hs & HP & ->)%PartitionAction_Ok.
  exists P, n, o, s. repeat (split; [done|]).
  split; [cbn -[String.append str_of_int]; by rewrite HP|].
  split; [done|]. split; [done|].
  unfold action_id. cbn -[String.append str_of_int value_eqb].
  destruct (value_eqb _ _) eqn:E.
  - apply value_eqb_str in E. split; [done|]. by intros _.
  - split; [intros _; by rewrite str_app_assoc|].
    intros H%value_eqb_str. congruence.
Qed.

Lemma partition_path_witness :
  ∃ a, PartitionAction (ObjAction sda) (VInt 1) (VInt 2048) (VStr "4096")
         (Some (VStr "bios_grub")) = Ok a ∧
       path a = Ok (VStr "sda1") ∧ size a = Ok 4096%Z ∧
       offset a = Ok 2048%Z ∧ action_id a = "bios_boot_partition".
Proof.
  eexists. split; [reflexivity|].
  destruct (partition_path (ObjAction sda) (VInt 1) (VInt 2048)
              (VStr "4096") (Some (VStr "bios_grub")) _ eq_refl)
    as (P & n & o & s & [= <-] & [= <-] & [= <-] & [= <-] & Hp & Hs & Ho
        & _ & Hid).
  split; [exact Hp|]. split; [exact Hs|]. split; [exact Ho|].
  by apply Hid.
Defined.
End storage_more.

(** * Numbers given as strings *)

Section int_str.
Import Storage.

Ltac digit_step :=
  cbn [NilEmpty.string_of_uint String.list_ascii_of_string digits];
  match goal with
  | |- context [digit_of ?c] =>
      let v := eval vm_compute in (digit_of c) in
      change (digit_of c) with v
  end; cbn match.

Lemma lstrip_id (l : list ascii) :
  Forall (λ c, is_space c = false) l → lstrip l = l.
Proof. intros [|c l' Hc _]; simpl; [done|]. by rewrite Hc. Qed.

Lemma strip_id (l : list ascii) :
  Forall (λ c, is_space c = false) l → strip l = l.
Proof.
  intros H. unfold strip. rewrite (lstrip_id l H).
  rewrite lstrip_id by by apply Forall_rev. apply rev_involutive.
Qed.

Lemma numeral_no_space (d : Decimal.uint) :
  Forall (λ c, is_space c = false) (numeral d).
Proof.
  unfold numeral. induction d; simpl; constructor; done.
Qed.

Lemma digits_acc (d : Decimal.uint) (acc : positive) :
  digits (Z.pos acc) true (numeral d) = Some (Z.pos (Pos.of_uint_acc d acc)).
Proof.
  unfold numeral. revert acc.
  induction d as [|d IH|d IH|d IH|d IH|d IH|d IH|d IH|d IH|d IH|d IH];
    intros acc; [done|..]; digit_step; cbn [Pos.of_uint_acc];
    rewrite <-IH; f_equal; lia.
Qed.

Lemma digits_zero (d : Decimal.uint) :
  digits 0 true (numeral d) = Some (Z.of_N (Pos.of_uint d)).
Proof.
  unfold numeral.
  induction d as [|d IH|d IH|d IH|d IH|d IH|d IH|d IH|d IH|d IH|d IH];
    [done|exact IH|..];
    digit_step; cbn [Pos.of_uint Z.of_N]; rewrite <-(digits_acc d);
    f_equal.
Qed.

Lemma digits_numeral (d : Decimal.uint) :
  d ≠ Decimal.Nil →
  digits 0 false (numeral d) = Some (Z.of_N (Pos.of_uint d)) ∧
  ∃ c l, numeral d = c :: l ∧ Ascii.eqb c "-" = false ∧
         Ascii.eqb c "+" = false.
Proof.
  intros Hd. split.
  - rewrite <-digits_zero. by destruct d.
  - destruct d; [done|..]; do 2 eexists; (split; [reflexivity|done]).
Qed.

(** int(str(z)) == z *)
Lemma int_of_str_of_int (z : Z) : int_of_str (str_of_int z) = Some z.
Proof.
  unfold str_of_int, int_of_str.
  destruct z as [|p|p]; [done|..]; cbn [Z.to_int NilZero.string_of_int].
  - assert (Hs : NilZero.string_of_uint (Pos.to_uint p)
               = NilEmpty.string_of_uint (Pos.to_uint p)).
    { pose proof (Unsigned.to_uint_nonnil p). by destruct (Pos.to_uint p). }
    rewrite Hs. fold (numeral (Pos.to_uint p)).
    rewrite strip_id by apply numeral_no_space.
    destruct (digits_numeral (Pos.to_uint p) (Unsigned.to_uint_nonnil p))
      as (Hd & c & l & Hcl & Hm & Hp).
    rewrite Hcl in *. rewrite Hm, Hp, Hd. by rewrite Unsigned.of_to.
  - assert (Hs : NilZero.string_of_uint (Pos.to_uint p)
               = NilEmpty.string_of_uint (Pos.to_uint p)).
    { pose proof (Unsigned.to_uint_nonnil p). by destruct (Pos.to_uint p). }
    rewrite Hs. cbn [String.list_ascii_of_string].
    fold (numeral (Pos.to_uint p)).
    rewrite strip_id by (constructor; [done|apply numeral_no_space]).
    destruct (digits_numeral (Pos.to_uint p) (Unsigned.to_uint_nonnil p))
      as (Hd & _).
    change (Ascii.eqb "-" "-") with true. cbn match.
    rewrite Hd. by rewrite Unsigned.of_to.
Qed.

(** What the constructor stores under "size" cannot be given back to it:
    int() rejects a string that ends in "B". *)
Lemma digits_B (l : list ascii) (acc : Z) (prev : bool) :
  digits acc prev (l ++ ["B"%char]) = None.
Proof.
  revert acc prev. induction l as [|c l IH]; intros acc prev; [done|].
  simpl. destruct (digit_of c); [done|].
  destruct (Ascii.eqb c "_" && prev); done.
Qed.

Lemma lstrip_B (l : list ascii) :
  ∃ l', lstrip (l ++ ["B"%char]) = l' ++ ["B"%char].
Proof.
  induction l as [|c l IH]; [by exists []|]. simpl.
  destruct (is_space c); [done|]. by exists (c :: l).
Qed.

Lemma int_of_str_B (s : string) : int_of_str (s +:+ "B") = None.
Proof.
  unfold int_of_str.
  assert (Hl : String.list_ascii_of_string (s +:+ "B")
             = String.list_ascii_of_string s ++ ["B"%char]).
  { induction s as [|c s IH]; [done|]. simpl. by rewrite <-IH. }
  rewrite Hl. unfold strip.
  destruct (lstrip_B (String.list_ascii_of_string s)) as [l' ->].
  rewrite rev_app_distr. simpl. rewrite rev_involutive.
  destruct l' as [|c l']; [done|]. simpl.
  destruct (Ascii.eqb c "-"); [|destruct (Ascii.eqb c "+")].
  - by rewrite digits_B.
  - by rewrite digits_B.
  - change (digits 0 false ((c :: l') ++ ["B"%char]) = None). apply digits_B.
Qed.


(** X14: a Partition built from numbers written as decimal strings is the
    Partition built from the numbers: int() undoes str(). *)
Theorem partition_numbers_as_strings (p : pyobj) (n o s : Z)
    (flags : option value) :
  py_int (VStr (str_of_int n)) = Ok n ∧
  PartitionAction p (VStr (str_of_int n)) (VStr (str_of_int o))
    (VStr (str_of_int s)) flags
  = PartitionAction p (VInt n) (VInt o) (VInt s) flags.
Proof.
  unfold PartitionAction. cbn [py_int]. by rewrite !int_of_str_of_int.
Qed.

(** X15: of the fields a Partition serializes, "number" can be given back to
    the constructor and rebuilds the same node; "size" and "offset" cannot:
    they end in "B", and int() rejects them with ValueError. *)
Theorem partition_reads_back (p : pyobj) (partnum offset size : value)
    (flags : option value) (a : storage) (d : dict) :
  PartitionAction p partnum offset size flags = Ok a →
  get a = Ok d →
  (∃ number, dict_get "number" d = Some number ∧
             PartitionAction p number offset size flags = Ok a) ∧
  (∀ v, dict_get "size" d = Some v ∨ dict_get "offset" d = Some v →
        PartitionAction p partnum offset v flags = Raise ValueError ∧
        PartitionAction p partnum v size flags = Raise ValueError).
Proof.
  intros Ha Hd. pose proof Ha as Hb.
  apply PartitionAction_Ok in Hb
    as (n & o' & s' & P & Hn & Ho & Hs & HP & ->).
  cbn -[String.append str_of_int value_eqb] in Hd. rewrite HP in Hd.
  injection Hd as <-. split.
  - exists (VInt n). split; [reflexivity|]. rewrite <-Ha.
    unfold PartitionAction. by rewrite Hn.
  - assert (HB : ∀ z, py_int (VStr (str_of_int z +:+ "B")) = Raise ValueError).
    { intros z. cbn [py_int]. by rewrite int_of_str_B. }
    intros v [[= <-]|[= <-]]; unfold PartitionAction;
      rewrite Hn, ?Ho, ?HB; simpl; by rewrite ?HB.
Qed.

Lemma partition_reads_back_witness :
  (∃ number,
     dict_get "number"
       [("device", VStr "sda"); ("flag", VNone); ("id", VStr "sda1_part");
        ("number", VInt 1); ("size", VStr "1048576B");
        ("offset", VStr "0B"); ("type", VStr "partition")] = Some number ∧
     PartitionAction (ObjAction sda) number (VInt 0) (VStr "1048576") None
     = Ok sda1) ∧
  PartitionAction (ObjAction sda) (VStr "1") (VInt 0) (VStr "1048576B") None
  = Raise ValueError.
Proof.
  destruct (partition_reads_back (ObjAction sda) (VStr "1") (VInt 0)
              (VStr "1048576") None sda1 _ eq_refl eq_refl) as [Hn Hs].
  split; [exact Hn|]. apply (Hs (VStr "1048576B")). by left.
Defined.

End int_str.

(** * Further properties of the transforms *)

Section dict_transforms.
Context {V : Type}.
Implicit Types (d e : list (string * V)) (k : string) (v : V).

Lemma dict_get_del_ne k k' d :
  k ≠ k' → dict_get k' (dict_del k d) = dict_get k' d.
Proof.
  intros Hne. induction d as [|[k0 v0] d IH]; simpl; [done|].
  destruct (String.eqb k k0) eqn:E; simpl; [|by rewrite IH].
  apply String.eqb_eq in E. subst k0.
  destruct (String.eqb k' k) eqn:E'; [|done].
  apply String.eqb_eq in E'. congruence.
Qed.

Lemma dict_get_del_eq k d :
  NoDup (dict_keys d) → dict_get k (dict_del k d) = None.
Proof.
  intros Hnd%(dict_has_del k). unfold dict_has in Hnd.
  by destruct (dict_get k (dict_del k d)).
Qed.

Lemma dict_del_set k v d : dict_del k (dict_set k v d) = dict_del k d.
Proof.
  induction d as [|[k' v'] d IH]; simpl.
  - by rewrite String.eqb_refl.
  - destruct (String.eqb k k') eqn:E; simpl; rewrite E; [done|].
    by rewrite IH.
Qed.

Lemma dict_set_length k v d :
  length (dict_set k v d)
  = if dict_has k d then length d else S (length d).
Proof.
  unfold dict_has. induction d as [|[k' v'] d IH]; simpl; [done|].
  destruct (String.eqb k k'); simpl; [done|]. rewrite IH.
  by destruct (dict_get k d).
Qed.

Lemma dict_del_length k d :
  length (dict_del k d)
  = if dict_has k d then pred (length d) else length d.
Proof.
  unfold dict_has. induction d as [|[k' v'] d IH]; simpl; [done|].
  destruct (String.eqb k k'); simpl; [done|]. rewrite IH.
  destruct (dict_get k d) eqn:E; [|done].
  destruct d; [done|]. done.
Qed.

Lemma dict_set_del_length k v d :
  NoDup (dict_keys d) →
  length (dict_set k v (dict_del k d)) = length (dict_set k v d).
Proof.
  intros Hnd. rewrite !dict_set_length, dict_has_del, dict_del_length by done.
  destruct (dict_has k d) eqn:E; [|done].
  destruct d; [done|]. done.
Qed.

Lemma dict_get_set_del k v d k' :
  dict_get k' (dict_set k v (dict_del k d)) = dict_get k' (dict_set k v d).
Proof.
  destruct (decide (k = k')) as [<-|Hne].
  - by rewrite !dict_get_set_eq.
  - by rewrite !dict_get_set_ne, dict_get_del_ne.
Qed.

(** The keys other than [k] keep their places. *)
Lemma dict_keys_set_others k v d :
  filter (λ k', k' ≠ k) (dict_keys (dict_set k v d))
  = filter (λ k', k' ≠ k) (dict_keys d).
Proof.
  unfold dict_keys. induction d as [|[k' v'] d IH]; simpl.
  - rewrite filter_cons. by case_decide.
  - destruct (String.eqb k k') eqn:E; simpl; [done|].
    rewrite !filter_cons. case_decide; [f_equal|]; exact IH.
Qed.

Lemma dict_keys_del_others k d :
  filter (λ k', k' ≠ k) (dict_keys (dict_del k d))
  = filter (λ k', k' ≠ k) (dict_keys d).
Proof.
  unfold dict_keys. induction d as [|[k' v'] d IH]; simpl; [done|].
  destruct (String.eqb k k') eqn:E; simpl.
  - apply String.eqb_eq in E. subst k'. rewrite filter_cons.
    by case_decide.
  - rewrite !filter_cons. case_decide; [f_equal|]; exact IH.
Qed.
End dict_transforms.

Section transforms_more.
Import Store.

(** Two dicts with the same items, in whatever order, are equal. *)
Lemma value_eqb_dict_ext (d e : dict) :
  value_wf (VDict d) → length d = length e →
  (∀ k, dict_get k d = dict_get k e) →
  value_eqb (VDict d) (VDict e) = true.
Proof.
  intros Hwf Hlen Hget. inversion_clear Hwf as [| |? Hnd Hall].
  simpl. rewrite Hlen, Nat.eqb_refl. simpl. apply dict_eqb_items.
  apply Forall_forall. intros [k v] Hkv. exists v. simpl. split.
  - rewrite <-Hget. by apply dict_get_NoDup.
  - apply value_eqb_refl. rewrite Forall_forall in Hall.
    apply (Hall (k, v) Hkv).
Qed.

Lemma value_wf_dict_set (k : string) (a : atom) (d : dict) :
  value_wf (VDict d) → value_wf (VDict (dict_set k (VAtom a) d)).
Proof.
  intros Hwf. inversion_clear Hwf as [| |? Hnd Hall]. constructor.
  - by apply dict_keys_set_NoDup.
  - clear Hnd. induction Hall as [|[k' v'] d Hv Hall IH]; simpl.
    + repeat constructor.
    + destruct (String.eqb k k'); constructor; try done. constructor.
Qed.

(** X16: release(preserve(x)) == release(x) and
    preserve(release(x)) == preserve(x), for every finite mapping x: the
    transform applied last decides. *)
Theorem transforms_compose (h : heap) (x : loc) (n : nat) (d : dict) :
  heap_wf h → reify n h (HRef x) = Some (VDict d) →
  (∃ y h1 z h2 w h3,
     preserve_action (HRef x) h = Some (Ok (HRef y), h1) ∧
     release_action (HRef y) h1 = Some (Ok (HRef z), h2) ∧
     release_action (HRef x) h2 = Some (Ok (HRef w), h3) ∧
     py_eq n h3 (HRef z) (HRef w) = Some true) ∧
  (∃ y h1 z h2 w h3,
     release_action (HRef x) h = Some (Ok (HRef y), h1) ∧
     preserve_action (HRef y) h1 = Some (Ok (HRef z), h2) ∧
     preserve_action (HRef x) h2 = Some (Ok (HRef w), h3) ∧
     py_eq n h3 (HRef z) (HRef w) = Some true).
Proof.
  intros Hwf Hd.
  assert (Hx : val_in (dom h) (HRef x)) by by eapply reify_ref_dom.
  split.
  - destruct (preserve_action_spec h x n d Hwf Hd)
      as (y & h1 & Hp & Hy & Hwf1 & Hf1 & Hreg1 & Hyd).
    destruct (release_action_spec h1 y n _ Hwf1 Hyd)
      as (z & h2 & Hr & Hz & Hwf2 & Hf2 & Hreg2 & Hzd).
    assert (Hx1 : val_in (dom h1) (HRef x)).
    { simpl. apply elem_of_dom in Hx as [o Ho]. apply elem_of_dom.
      exists o. by eapply frame_unchanged. }
    assert (Hd2 : reify n h2 (HRef x) = Some (VDict d)).
    { by rewrite (reify_frame h1 h2), (reify_frame h h1). }
    destruct (release_action_spec h2 x n d Hwf2 Hd2)
      as (w & h3 & Hr3 & Hw & Hwf3 & Hf3 & Hreg3 & Hwd).
    exists y, h1, z, h2, w, h3. repeat (split; [done|]).
    rewrite dict_del_set in Hzd.
    eapply py_eq_same; [done| |done].
    rewrite (reify_frame h2 h3); try done. by eapply reify_ref_dom.
  - destruct (release_action_spec h x n d Hwf Hd)
      as (y & h1 & Hr & Hy & Hwf1 & Hf1 & Hreg1 & Hyd).
    destruct (preserve_action_spec h1 y n _ Hwf1 Hyd)
      as (z & h2 & Hp & Hz & Hwf2 & Hf2 & Hreg2 & Hzd).
    assert (Hx1 : val_in (dom h1) (HRef x)).
    { simpl. apply elem_of_dom in Hx as [o Ho]. apply elem_of_dom.
      exists o. by eapply frame_unchanged. }
    assert (Hd2 : reify n h2 (HRef x) = Some (VDict d)).
    { by rewrite (reify_frame h1 h2), (reify_frame h h1). }
    destruct (preserve_action_spec h2 x n d Hwf2 Hd2)
      as (w & h3 & Hp3 & Hw & Hwf3 & Hf3 & Hreg3 & Hwd).
    exists y, h1, z, h2, w, h3. repeat (split; [done|]).
    assert (Hzd3 : reify n h3 (HRef z)
                   = Some (VDict (dict_set "preserve" (VBool true)
                                    (dict_del "preserve" d)))).
    { rewrite (reify_frame h2 h3); try done. by eapply reify_ref_dom. }
    unfold py_eq. rewrite Hzd3, Hwd. simpl. f_equal.
    pose proof (reify_wf h Hwf _ _ _ Hd) as Hv.
    apply value_eqb_dict_ext.
    + by eapply reify_wf.
    + apply dict_set_del_length. by inversion Hv.
    + intros k. apply dict_get_set_del.
Qed.

Lemma transforms_compose_witness :
  (∃ y h1 z h2 w h3,
     preserve_action (HRef 1%positive) sda_heap = Some (Ok (HRef y), h1) ∧
     release_action (HRef y) h1 = Some (Ok (HRef z), h2) ∧
     release_action (HRef 1%positive) h2 = Some (Ok (HRef w), h3) ∧
     py_eq 1 h3 (HRef z) (HRef w) = Some true) ∧
  (∃ y h1 z h2 w h3,
     release_action (HRef 1%positive) sda_heap = Some (Ok (HRef y), h1) ∧
     preserve_action (HRef y) h1 = Some (Ok (HRef z), h2) ∧
     preserve_action (HRef 1%positive) h2 = Some (Ok (HRef w), h3) ∧
     py_eq 1 h3 (HRef z) (HRef w) = Some true).
Proof.
  apply (transforms_compose sda_heap 1%positive 1 sda_mapping).
  - apply (bool_decide_unpack _). vm_compute. exact I.
  - reflexivity.
Defined.

(** X17: what the transforms do to the items.  The mapping preserve returns
    holds True under "preserve", whatever the input held there; the mapping
    release returns has no key "preserve"; in both every other key holds
    what it held, and the other keys are in the order they were. *)
Theorem transforms_items (h : heap) (x : loc) (n : nat) (d : dict) :
  heap_wf h → reify n h (HRef x) = Some (VDict d) →
  (∃ y h' d',
     preserve_action (HRef x) h = Some (Ok (HRef y), h') ∧
     reify n h' (HRef y) = Some (VDict d') ∧
     dict_get "preserve" d' = Some (VBool true) ∧
     (∀ k, k ≠ "preserve" → dict_get k d' = dict_get k d) ∧
     filter (λ k, k ≠ "preserve") (dict_keys d')
     = filter (λ k, k ≠ "preserve") (dict_keys d)) ∧
  (∃ z h' d',
     release_action (HRef x) h = Some (Ok (HRef z), h') ∧
     reify n h' (HRef z) = Some (VDict d') ∧
     dict_get "preserve" d' = None ∧
     (∀ k, k ≠ "preserve" → dict_get k d' = dict_get k d) ∧
     filter (λ k, k ≠ "preserve") (dict_keys d')
     = filter (λ k, k ≠ "preserve") (dict_keys d)).
Proof.
  intros Hwf Hd. split.
  - destruct (preserve_action_spec h x n d Hwf Hd)
      as (y & h1 & Hp & _ & _ & _ & _ & Hyd).
    exists y, h1, (dict_set "preserve" (VBool true) d).
    split; [done|]. split; [done|]. split; [apply dict_get_set_eq|].
    split; [|apply dict_keys_set_others].
    intros k Hk. by apply dict_get_set_ne.
  - destruct (release_action_spec h x n d Hwf Hd)
      as (z & h1 & Hr & _ & _ & _ & _ & Hzd).
    exists z, h1, (dict_del "preserve" d).
    split; [done|]. split; [done|]. split.
    { apply dict_get_del_eq.
      pose proof (reify_wf h Hwf _ _ _ Hd) as Hv. by inversion Hv. }
    split; [|apply dict_keys_del_others].
    intros k Hk. by apply dict_get_del_ne.
Qed.


Lemma transforms_items_witness :
  ∃ y h' d',
    preserve_action (HRef 1%positive)
      {[ 1%positive := ODict [("id", HAtom (AStr "sda"));
                              ("preserve", HAtom (ABool false));
                              ("type", HAtom (AStr "disk"))] ]}
    = Some (Ok (HRef y), h') ∧
    reify 1 h' (HRef y) = Some (VDict d') ∧
    dict_get "preserve" d' = Some (VBool true) ∧
    (∀ k, k ≠ "preserve" →
          dict_get k d'
          = dict_get k [("id", VStr "sda"); ("preserve", VBool false);
                        ("type", VStr "disk")]) ∧
    filter (λ k, k ≠ "preserve") (dict_keys d')
    = filter (λ k, k ≠ "preserve")
        (dict_keys [("id", VStr "sda"); ("preserve", VBool false);
                    ("type", VStr "disk")]).
Proof.
  apply (transforms_items _ 1%positive 1).
  - apply (bool_decide_unpack _). vm_compute. exact I.
  - reflexivity.
Defined.

Lemma atom_eqb_str (k : string) (b : atom) :
  atom_eqb (AStr k) b = true ↔ b = AStr k.
Proof.
  destruct b as [| | |s]; simpl; try (split; [done|by inversion 1]).
  rewrite String.eqb_eq. split; [by intros ->|by inversion 1].
Qed.

(** ['preserve' in xs] for a list: some item is that string. *)
Lemma contains_list (k : string) (xs : list hval) :
  existsb (λ x, match x with
                | HAtom b => atom_eqb (AStr k) b
                | HRef _ => false
                end) xs = true
  ↔ HAtom (AStr k) ∈ xs.
Proof.
  rewrite existsb_exists. split.
  - intros ([b|l] & Hin & Hb); [|done]. apply atom_eqb_str in Hb.
    subst b. by apply list_elem_of_In.
  - intros Hin. exists (HAtom (AStr k)). split; [by apply list_elem_of_In|].
    by apply atom_eqb_str.
Qed.

(** X18: the transforms return on every mapping, finite or not: a mapping
    that contains itself, or holds an object twice, is copied with the same
    shape.  The result is a new dict whose items are those of the input,
    each reference replaced by its copy under a one-to-one renaming [m] of
    old objects to new ones, with "preserve" set to True, or deleted; no
    object of the old heap is changed, and the new dict leads to new
    objects only. *)
Theorem transforms_on_any_mapping (h : heap) (x : loc)
    (kvs : list (string * hval)) :
  heap_wf h → h !! x = Some (ODict kvs) →
  ∃ (m : memo) (y : loc),
    m !! x = Some y ∧
    Forall (val_in (dom m)) kvs.*2 ∧
    (∀ l y', m !! l = Some y' → y' ∉ dom h) ∧
    (∀ l1 l2 y', m !! l1 = Some y' → m !! l2 = Some y' → l1 = l2) ∧
    let kvs1 := prod_map id (rename m) <$> kvs in
    (∃ h',
       preserve_action (HRef x) h = Some (Ok (HRef y), h') ∧
       h' !! y
       = Some (ODict (dict_set "preserve" (HAtom (ABool true)) kvs1)) ∧
       unchanged h h' ∧ heap_wf h' ∧ fresh_region h h' y) ∧
    (∃ h',
       release_action (HRef x) h = Some (Ok (HRef y), h') ∧
       h' !! y = Some (ODict (dict_del "preserve" kvs1)) ∧
       unchanged h h' ∧ heap_wf h' ∧ fresh_region h h' y).
Proof.
  intros Hwf Hx.
  assert (Hxin : val_in (dom h) (HRef x)) by (apply elem_of_dom; eauto).
  destruct (copy_deepcopy_spec (HRef x) h Hwf Hxin)
    as (y0 & m & h1 & Hcall & Hdc).
  pose proof Hdc as [Hy Hcov Hcop Hf Hwf1 Hfresh Hinj Hnew].
  simpl in Hy, Hcov. apply elem_of_dom in Hcov as [y Hxy].
  rewrite Hxy in Hy. subst y0.
  destruct (Hcop x y Hxy) as (o & Hxo & Hall & Hy1).
  assert (o = ODict kvs) as -> by congruence. simpl in Hall, Hy1.
  assert (Hx1 : h1 !! x = Some (ODict kvs)).
  { rewrite Hf; [done|by apply elem_of_dom|set_solver]. }
  assert (Hnd : NoDup (dict_keys kvs)) by apply (Hwf x _ Hx).
  exists m, y. split; [done|]. split; [done|]. split; [done|].
  split; [done|]. intros kvs1. split.
  - set (kvs' := dict_set "preserve" (HAtom (ABool true)) kvs1).
    exists (<[y := ODict kvs']> h1). split.
    { unfold preserve_action, mbind, M_bind. rewrite Hcall.
      unfold update. rewrite Hy1. done. }
    destruct (modified_copy h h1 x y m kvs kvs' Hwf Hx Hdc)
      as (_ & Hyh & Hwf' & Hf' & Hreg).
    { apply dict_keys_set_NoDup. unfold kvs1. by rewrite dict_keys_rename. }
    { apply Forall_forall. intros v [->|Hv]%dict_set_vals; eauto. }
    split; [by rewrite lookup_insert_eq|].
    split; [exact (frame_unchanged _ _ Hf')|]. done.
  - destruct (dict_has "preserve" kvs) eqn:Hhas.
    + set (kvs' := dict_del "preserve" kvs1).
      exists (<[y := ODict kvs']> h1). split.
      { unfold release_action, mbind, M_bind. rewrite Hcall.
        unfold contains. rewrite Hx1, Hhas. unfold delitem. rewrite Hy1.
        unfold kvs1. by rewrite dict_has_rename, Hhas. }
      destruct (modified_copy h h1 x y m kvs kvs' Hwf Hx Hdc)
        as (_ & Hyh & Hwf' & Hf' & Hreg).
      { apply dict_del_NoDup. unfold kvs1. by rewrite dict_keys_rename. }
      { apply Forall_forall. intros v Hv%dict_del_vals. eauto. }
      split; [by rewrite lookup_insert_eq|].
      split; [exact (frame_unchanged _ _ Hf')|]. done.
    + exists h1. split.
      { unfold release_action, mbind, M_bind. rewrite Hcall.
        unfold contains. by rewrite Hx1, Hhas. }
      destruct (modified_copy h h1 x y m kvs kvs1 Hwf Hx Hdc)
        as (_ & Hyh & Hwf' & Hf' & Hreg).
      { unfold kvs1. by rewrite dict_keys_rename. }
      { apply Forall_forall. eauto. }
      rewrite insert_id in Hwf', Hf', Hreg by done.
      split.
      { rewrite dict_del_absent; [done|].
        intros Hin%dict_has_keys. unfold kvs1 in Hin.
        rewrite dict_has_rename in Hin. congruence. }
      split; [exact (frame_unchanged _ _ Hf')|]. done.
Qed.

Lemma transforms_on_any_mapping_witness :
  ∃ (m : memo) (y : loc) h',
    preserve_action (HRef 1%positive)
      (<[1%positive := ODict [("a", HRef 2%positive); ("b", HRef 2%positive);
                              ("me", HRef 1%positive)]]>
         {[2%positive := OList [HAtom (AInt 1)]]})
    = Some (Ok (HRef y), h') ∧
    h' !! y
    = Some (ODict (dict_set "preserve" (HAtom (ABool true))
                     (prod_map id (rename m) <$>
                        [("a", HRef 2%positive); ("b", HRef 2%positive);
                         ("me", HRef 1%positive)]))) ∧
    m !! 1%positive = Some y.
Proof.
  destruct (transforms_on_any_mapping
              (<[1%positive := ODict [("a", HRef 2%positive);
                                      ("b", HRef 2%positive);
                                      ("me", HRef 1%positive)]]>
                 {[2%positive := OList [HAtom (AInt 1)]]})
              1%positive
              [("a", HRef 2%positive); ("b", HRef 2%positive);
               ("me", HRef 1%positive)])
    as (m & y & Hxy & _ & _ & _ & (h' & Hp & Hy & _) & _).
  - apply (bool_decide_unpack _). vm_compute. exact I.
  - reflexivity.
  - exists m, y, h'. split; [exact Hp|]. split; [exact Hy|exact Hxy].
Defined.

Lemma copy_deepcopy_atom (a : atom) (h : heap) :
  copy_deepcopy (HAtom a) h = Some (Ok (HAtom a), h).
Proof. unfold copy_deepcopy. by destruct (size h). Qed.

(** X19: the transforms on what is not a mapping.  preserve raises
    AttributeError on an atom and on a list (no method update).  release
    raises TypeError on None, a bool and an int; a string that does not
    contain "preserve" is returned as it is, one that does raises
    TypeError; a list that holds the string "preserve" raises TypeError,
    any other list is copied and returned.  The objects of the old heap
    are never changed. *)
Theorem transforms_on_non_mappings (h : heap) :
  (∀ a, preserve_action (HAtom a) h = Some (Raise AttributeError, h)) ∧
  (∀ a, release_action (HAtom a) h
        = Some (match a with
                | AStr s => if str_contains s "preserve" then Raise TypeError
                            else Ok (HAtom a)
                | _ => Raise TypeError
                end, h)) ∧
  (∀ x xs, heap_wf h → h !! x = Some (OList xs) →
     (∃ h', preserve_action (HRef x) h = Some (Raise AttributeError, h') ∧
            unchanged h h') ∧
     (HAtom (AStr "preserve") ∈ xs →
      ∃ h', release_action (HRef x) h = Some (Raise TypeError, h') ∧
            unchanged h h') ∧
     (HAtom (AStr "preserve") ∉ xs →
      ∃ y h' (m : memo),
        release_action (HRef x) h = Some (Ok (HRef y), h') ∧
        unchanged h h' ∧ y ∉ dom h ∧
        h' !! y = Some (OList (rename m <$> xs)) ∧
        ∀ l y', m !! l = Some y' → y' ∉ dom h)).
Proof.
  split.
  { intros a. unfold preserve_action, mbind, M_bind.
    by rewrite copy_deepcopy_atom. }
  split.
  { intros a. unfold release_action, mbind, M_bind.
    rewrite copy_deepcopy_atom. destruct a as [| | |s]; try done.
    simpl. by destruct (str_contains s "preserve"). }
  intros x xs Hwf Hx.
  assert (Hxin : val_in (dom h) (HRef x)) by (apply elem_of_dom; eauto).
  destruct (copy_deepcopy_spec (HRef x) h Hwf Hxin)
    as (y0 & m & h1 & Hcall & Hdc).
  pose proof Hdc as [Hy Hcov Hcop Hf Hwf1 Hfresh Hinj Hnew].
  simpl in Hy, Hcov. apply elem_of_dom in Hcov as [y Hxy].
  rewrite Hxy in Hy. subst y0.
  destruct (Hcop x y Hxy) as (o & Hxo & Hall & Hy1).
  assert (o = OList xs) as -> by congruence. simpl in Hall, Hy1.
  assert (Hx1 : h1 !! x = Some (OList xs)).
  { rewrite Hf; [done|by apply elem_of_dom|set_solver]. }
  assert (Hun : unchanged h h1) by exact (frame_unchanged _ _ Hf).
  split; [|split].
  - exists h1. split; [|done].
    unfold preserve_action, mbind, M_bind. rewrite Hcall.
    unfold update. by rewrite Hy1.
  - intros Hin%contains_list. exists h1. split; [|done].
    unfold release_action, mbind, M_bind. rewrite Hcall.
    unfold contains. rewrite Hx1, Hin. unfold delitem. by rewrite Hy1.
  - intros Hin. exists y, h1, m. split.
    { unfold release_action, mbind, M_bind. rewrite Hcall.
      unfold contains. rewrite Hx1.
      destruct (existsb _ xs) eqn:E; [|done].
      by apply contains_list in E. }
    split; [done|]. split; [by eapply Hfresh|]. split; [done|].
    exact Hfresh.
Qed.

Lemma transforms_on_non_mappings_witness :
  (∃ h', preserve_action (HRef 2%positive)
           {[2%positive := OList [HAtom (AInt 1)]]}
         = Some (Raise AttributeError, h')) ∧
  (∃ h', release_action (HRef 2%positive)
           {[2%positive := OList [HAtom (AStr "preserve")]]}
         = Some (Raise TypeError, h')).
Proof.
  split.
  - destruct (transforms_on_non_mappings
                {[2%positive := OList [HAtom (AInt 1)]]})
      as (_ & _ & H).
    destruct (H 2%positive [HAtom (AInt 1)]) as ((h' & Hp & _) & _).
    + apply (bool_decide_unpack _). vm_compute. exact I.
    + reflexivity.
    + exists h'. exact Hp.
  - destruct (transforms_on_non_mappings
                {[2%positive := OList [HAtom (AStr "preserve")]]})
      as (_ & _ & H).
    destruct (H 2%positive [HAtom (AStr "preserve")])
      as (_ & Hr & _).
    + apply (bool_decide_unpack _). vm_compute. exact I.
    + reflexivity.
    + destruct Hr as (h' & Hr & _); [apply list_elem_of_singleton; reflexivity|].
      exists h'. exact Hr.
Defined.

End transforms_more.

(** * Success conditions, option order, and preserved serializations *)

Section storage_errors.
Import Storage.



End storage_errors.

Section net_order.
Import Net.

Lemma dict_get_Permutation {V} (d e : list (string * V)) (k : string) :
  NoDup (dict_keys d) → d ≡ₚ e → dict_get k d = dict_get k e.
Proof.
  intros Hd Hp.
  assert (He : NoDup (dict_keys e)).
  { unfold dict_keys in *. by rewrite <-Hp. }
  destruct (dict_get k d) as [v|] eqn:E.
  - symmetry. apply dict_get_NoDup; [done|]. rewrite <-Hp.
    clear -E. induction d as [|[k' v'] d IH]; [done|]. simpl in E.
    destruct (String.eqb k k') eqn:Ek.
    + apply String.eqb_eq in Ek. injection E as ->. subst.
      apply elem_of_cons. by left.
    + apply elem_of_cons. right. auto.
  - destruct (dict_get k e) as [w|] eqn:E'; [|done]. exfalso.
    assert (Hin : (k, w) ∈ e).
    { clear -E'. induction e as [|[k' v'] e IH]; [done|]. simpl in E'.
      destruct (String.eqb k k') eqn:Ek.
      - apply String.eqb_eq in Ek. injection E' as ->. subst.
        apply elem_of_cons. by left.
      - apply elem_of_cons. right. auto. }
    rewrite <-Hp in Hin. apply (dict_get_NoDup _ _ _ Hd) in Hin. congruence.
Qed.

(** The checks of a constructor only look options up. *)
Lemma construct_lookup (v : variant) (options options' self0 : dict) :
  (∀ k, dict_get k options = dict_get k options') →
  ordinary options → ordinary options' →
  (construct v options self0).1 = (construct v options' self0).1.
Proof.
  intros Hget (_ & _ & Hp)%ordinary_entries (_ & _ & Hp')%ordinary_entries.
  assert (Ht : ∀ tag, type_invalid tag options = type_invalid tag options').
  { intros tag. unfold type_invalid. by rewrite Hget. }
  assert (Hn : name_invalid options = name_invalid options').
  { unfold name_invalid. by rewrite Hget. }
  assert (Hh : ∀ k, dict_has k options = dict_has k options').
  { intros k. unfold dict_has. by rewrite Hget. }
  assert (Hr : forallb (λ k, dict_has k options) (required v)
               = forallb (λ k, dict_has k options') (required v)).
  { induction (required v) as [|k ks IH]; simpl; [done|].
    by rewrite Hh, IH. }
  rewrite !construct_cases, Ht, Hn, Hh, Hr.
  rewrite (setattrs_entries options), (setattrs_entries options') by done.
  destruct (dict_has "self" options'); [done|].
  destruct (type_invalid _ options'); [done|].
  destruct (name_invalid options') as [[]|]; try done.
  clear Hr. by destruct (forallb (λ k, dict_has k options') (required v)).
Qed.

(** X21: the order of the keyword options does not matter to a network
    constructor, when none has a special name (self, __class__, __dict__,
    __weakref__, get): the same options in another order are accepted or
    rejected alike, with the same exception, and the accepted ones
    serialize to the same items. *)
Theorem construct_order_insensitive (v : variant) (options options' : dict) :
  NoDup (dict_keys options) → ordinary options → options ≡ₚ options' →
  (construct v options []).1 = (construct v options' []).1 ∧
  ∀ self self',
    construct v options [] = (Ok (), self) →
    construct v options' [] = (Ok (), self') →
    ∃ action action',
      call_get self = Ok action ∧ call_get self' = Ok action' ∧
      action ≡ₚ action'.
Proof.
  intros Hnd Ho Hp.
  assert (Hnd' : NoDup (dict_keys options')).
  { unfold dict_keys in *. by rewrite <-Hp. }
  assert (Ho' : ordinary options').
  { intros k Hk. apply Ho. unfold dict_keys in *. by rewrite Hp. }
  assert (Hget : ∀ k, dict_get k options = dict_get k options').
  { intros k. by apply dict_get_Permutation. }
  split; [by apply construct_lookup|].
  intros self self' Hc Hc'.
  pose proof Ho as (_ & Hg & Hpl)%ordinary_entries.
  pose proof Ho' as (_ & Hg' & Hpl')%ordinary_entries.
  exists (select (declared_keys v) options),
         (select (declared_keys v) options').
  assert (Hd : "__dict__" ∉ dict_keys options).
  { intros Hin. by destruct (Hpl _ Hin) as (_ & _ & ?). }
  assert (Hd' : "__dict__" ∉ dict_keys options').
  { intros Hin. by destruct (Hpl' _ Hin) as (_ & _ & ?). }
  split; [by apply call_get_constructed|].
  split; [by apply call_get_constructed|].
  unfold select. by rewrite Hp.
Qed.

Lemma construct_order_insensitive_witness :
  (construct Vlan [("vlan_id", VInt 7); ("name", VStr "v7");
                   ("type", VStr "vlan")] []).1
  = (construct Vlan [("type", VStr "vlan"); ("name", VStr "v7");
                     ("vlan_id", VInt 7)] []).1.
Proof.
  apply (construct_order_insensitive Vlan
           [("vlan_id", VInt 7); ("name", VStr "v7"); ("type", VStr "vlan")]
           [("type", VStr "vlan"); ("name", VStr "v7"); ("vlan_id", VInt 7)]).
  - apply (bool_decide_unpack _). vm_compute. exact I.
  - intros k Hk. apply list_elem_of_In in Hk. simpl in Hk.
    destruct Hk as [<-|[<-|[<-|[]]]]; apply not_elem_of_strings; reflexivity.
  - apply (Permutation_trans
             (l' := [("name", VStr "v7"); ("vlan_id", VInt 7);
                     ("type", VStr "vlan")])).
    + apply perm_swap.
    + apply (Permutation_trans
               (l' := [("name", VStr "v7"); ("type", VStr "vlan");
                       ("vlan_id", VInt 7)])).
      * apply perm_skip, perm_swap.
      * apply perm_swap.
Defined.

End net_order.

Section preserve_serialized.
Import Store.

(** X22: preserve on the serialization of an action, storage or network:
    the result is the mapping itself followed by the item
    "preserve": True, as the last key. *)
Theorem preserve_appends (h : heap) (x : loc) (n : nat) (d : dict) :
  heap_wf h → reify n h (HRef x) = Some (VDict d) → serialized d →
  ∃ y h',
    preserve_action (HRef x) h = Some (Ok (HRef y), h') ∧
    reify n h' (HRef y) = Some (VDict (d ++ [("preserve", VBool true)])) ∧
    reify n h' (HRef x) = Some (VDict d).
Proof.
  intros Hwf Hd Hs%serialized_no_preserve.
  destruct (preserve_action_spec h x n d Hwf Hd)
    as (y & h1 & Hp & _ & _ & Hf & _ & Hyd).
  exists y, h1. split; [done|]. rewrite dict_set_fresh in Hyd by done.
  split; [done|]. rewrite (reify_frame h h1); try done.
  by eapply reify_ref_dom.
Qed.

Lemma preserve_appends_witness :
  ∃ y h',
    preserve_action (HRef 1%positive) sda_heap = Some (Ok (HRef y), h') ∧
    reify 1 h' (HRef y)
    = Some (VDict (sda_mapping ++ [("preserve", VBool true)])) ∧
    reify 1 h' (HRef 1%positive) = Some (VDict sda_mapping).
Proof.
  apply (preserve_appends sda_heap 1%positive 1 sda_mapping).
  - apply (bool_decide_unpack _). vm_compute. exact I.
  - reflexivity.
  - left. exists sda. reflexivity.
Defined.

End preserve_serialized.
